(** * SenseEdge training pipeline (ml/train_senseedge.py)

    A shallow embedding of the offline training and INT8 quantisation
    pipeline of the SenseEdge classifier (8 -> 16 -> 4), with the
    properties of its specification settled against it.

    Conventions.
    - float64 values are modelled by exact rationals [Q]: every tensor holds
      finite numbers and arithmetic does not round.  Comparisons made by the
      code ([==], [>]) are the rational ones.
    - a 1-D ndarray is a [list]; a 2-D ndarray is the list of its rows, so
      that [.flatten()] (row-major) is [concat].
    - the numpy routines the program calls (generators, FFT, [exp], [sqrt])
      are an interface ([Numpy] below); the process-wide generator behind
      [np.random.*] is an explicit component of the state of the process,
      which the functions that can reach it thread.
    - ndarrays that are mutated in place live in a store ([gmap] from
      references to values), so that aliasing can be talked about. *)

From Stdlib Require Import ZArith QArith Qround Qabs Qminmax Qpower Lqa List Lia
  Permutation.
From stdpp Require Import base option list gmap strings.
Import ListNotations.

Local Open Scope Z_scope.

(** ** Numeric helpers shared by the components *)

(** [np.round]: round to the nearest integer, halves to the even neighbour. *)
Definition np_round (x : Q) : Z :=
  let f := Qfloor x in
  match Qcompare (x - inject_Z f) (1 # 2) with
  | Lt => f
  | Gt => f + 1
  | Eq => if Z.even f then f else f + 1
  end.

(** [np.clip] on integers. *)
Definition np_clip (lo hi x : Z) : Z :=
  if x <? lo then lo else if hi <? x then hi else x.

(** [.astype(np.int8)] on an integer: two's-complement wrap-around. *)
Definition astype_int8 (x : Z) : Z := (x + 128) mod 256 - 128.

(** [np.max(np.abs(w))]; numpy raises [ValueError] on a zero-size array,
    which is [None] here. *)
Definition np_max_abs (w : list Q) : option Q :=
  match w with
  | [] => None
  | x :: xs => Some (fold_left Qmax (map Qabs xs) (Qabs x))
  end.

(** ** Quantizer *)

(** [quantize_int8(weights)]: symmetric min-max quantisation of a (flattened)
    tensor.  Returns the int8 tensor and the scale. *)
Definition quantize_int8 (weights : list Q) : option (list Z * Q) :=
  match np_max_abs weights with
  | None => None
  | Some w_max =>
      if Qeq_bool w_max 0 then
        Some (map (fun _ => 0) weights, 1%Q)
      else
        let scale := (127 / w_max)%Q in
        let q := map (fun w => np_round (w * scale)) weights in
        let q := map (fun v => astype_int8 (np_clip (-128) 127 v)) q in
        Some (q, scale)
  end.

(** ** Outcomes of calls *)

(** The exceptions the pipeline can raise; [SystemExit] is [sys.exit(code)]. *)
Inductive exception : Type :=
| ValueError
| IndexError
| ZeroDivisionError
| AssertionError
| SystemExit (code : Z).

Inductive result (A : Type) : Type :=
| Ok (a : A)
| Raise (e : exception).
Arguments Ok {A} a.
Arguments Raise {A} e.

Definition bind {A B : Type} (r : result A) (k : A -> result B) : result B :=
  match r with
  | Ok a => k a
  | Raise e => Raise e
  end.

Notation "'let*' x := r 'in' k" := (bind r (fun x => k))
  (at level 10, x pattern, r at level 100, k at level 200).

(** ** Serializer *)

(** The container written by [np.savez]: the four named tensors, the flat
    212-entry sequence and the four scales. *)
Record SerializedArtifact : Type := {
  layer1_weights : list (list Z);
  layer1_biases : list Z;
  layer2_weights : list (list Z);
  layer2_biases : list Z;
  all_weights : list Z;
  scales : list Q
}.

(** [save_weights(path, W1_q, b1_q, W2_q, b2_q, scales)].  The value is the
    container handed to [np.savez]; the assertion on the total length is the
    only check made. *)
Definition save_weights (W1_q : list (list Z)) (b1_q : list Z)
    (W2_q : list (list Z)) (b2_q : list Z) (scales : list Q)
  : result SerializedArtifact :=
  let all_weights :=
    map astype_int8 (concat W1_q ++ b1_q ++ concat W2_q ++ b2_q) in
  if (length all_weights =? 212)%nat then
    Ok {| layer1_weights := W1_q;
          layer1_biases := b1_q;
          layer2_weights := W2_q;
          layer2_biases := b2_q;
          all_weights := all_weights;
          scales := scales |}
  else Raise AssertionError.

(** A 2-D array of [r] rows and [c] columns. *)
Definition has_shape {A : Type} (r c : nat) (m : list (list A)) : Prop :=
  length m = r /\ Forall (fun row => length row = c) m.

(** ** The numpy routines the pipeline calls

    The generator ([np.random.RandomState]: construction from a seed,
    [uniform], [permutation], [randn]), the magnitude of the real FFT
    ([np.abs(np.fft.rfft(x))]) and the elementary functions are library
    code.  They are an interface, with the properties numpy documents for
    them: [uniform] draws [n] values between [lo] and [hi], [permutation n]
    is a permutation of [0 .. n-1], [randn r c] has [r] rows of [c]
    entries. *)
Class Numpy : Type := {
  rng_state : Type;
  RandomState : Z -> rng_state;
  uniform : Q -> Q -> nat -> rng_state -> list Q * rng_state;
  permutation : nat -> rng_state -> list nat * rng_state;
  randn : nat -> nat -> rng_state -> list (list Q) * rng_state;
  rfft_abs : list Q -> list Q;
  np_exp : Q -> Q;
  np_sqrt : Q -> Q;
  uniform_length : forall lo hi n s, length (fst (uniform lo hi n s)) = n;
  uniform_range : forall lo hi n s, (lo <= hi)%Q ->
    Forall (fun v => (lo <= v <= hi)%Q) (fst (uniform lo hi n s));
  permutation_perm : forall n s, Permutation (fst (permutation n s)) (seq 0 n);
  randn_shape : forall r c s, has_shape r c (fst (randn r c s))
}.

(** ** The state of the process

    What a call can read besides its arguments: the process-wide generator
    behind [np.random.*], whether [scipy] can be imported, and the files
    ([.mat] files as the dictionary [loadmat] returns: keys in order, each
    with its flattened array). *)
Definition mat_file : Type := list (string * list Q).

Record process `{Numpy} : Type := {
  np_random : rng_state;
  scipy_installed : bool;
  filesystem : gmap string mat_file
}.

Definition set_np_random `{Numpy} (p : process) (s : rng_state) : process :=
  {| np_random := s;
     scipy_installed := scipy_installed p;
     filesystem := filesystem p |}.

(** A dataset: the feature rows [X] and the labels [y]. *)
Definition dataset : Type := list (list Q) * list Z.

(** ** Array helpers *)

Definition np_sum (l : list Q) : Q := fold_right Qplus 0%Q l.

(** [a[lo:hi]] for [0 <= lo <= hi]. *)
Definition slice {A : Type} (lo hi : nat) (l : list A) : list A :=
  firstn (hi - lo) (skipn lo l).

(** [a[idx]] for an index array: the rows of [a] in the order of [idx]. *)
Definition np_take {A : Type} (d : A) (idx : list nat) (l : list A) : list A :=
  map (fun i => nth i l d) idx.

(** [np.column_stack] of columns of [n] entries each. *)
Definition column_stack (n : nat) (cols : list (list Q)) : list (list Q) :=
  map (fun i => map (fun col => nth i col 0%Q) cols) (seq 0 n).

(** [np.argmax]: the first position of the maximum. *)
Fixpoint argmax_from (l : list Q) (i best_i : nat) (best : Q) : nat :=
  match l with
  | [] => best_i
  | x :: xs =>
      if Qle_bool x best then argmax_from xs (S i) best_i best
      else argmax_from xs (S i) i x
  end.

Definition np_argmax (l : list Q) : nat :=
  match l with
  | [] => 0%nat
  | x :: xs => argmax_from xs 1 0 x
  end.

(** [range(n)]: empty for [n <= 0]. *)
Definition py_range (n : Z) : list nat := seq 0 (Z.to_nat n).

(** ** Feature Source: the synthetic provider *)

(** The eight uniform ranges of a class, in the order of the draws:
    band_low, band_midlow, band_midhi, band_high, peak_freq, peak_mag,
    centroid, total_energy. *)
Definition class_ranges (c : Z) : list (Q * Q) :=
  (if c =? 0 then
     [(140, 255); (20, 80); (5, 40); (0, 25);
      (10, 60); (30, 100); (10, 50); (40, 120)]
   else if c =? 1 then
     [(40, 100); (150, 255); (30, 80); (10, 50);
      (50, 110); (180, 255); (50, 100); (120, 200)]
   else if c =? 2 then
     [(20, 70); (30, 80); (160, 255); (20, 70);
      (100, 170); (100, 180); (100, 160); (100, 180)]
   else
     [(10, 50); (15, 60); (40, 100); (170, 255);
      (170, 248); (120, 210); (160, 230); (130, 220)])%Q.

(** The draws of one class: one [rng.uniform(lo, hi, n)] per feature, in
    order, from the same generator. *)
Fixpoint draw_columns `{Numpy} (ranges : list (Q * Q)) (n : nat) (s : rng_state)
  : list (list Q) * rng_state :=
  match ranges with
  | [] => ([], s)
  | (lo, hi) :: rest =>
      let '(col, s1) := uniform lo hi n s in
      let '(cols, s2) := draw_columns rest n s1 in
      (col :: cols, s2)
  end.

(** The blocks of the four classes, 0 to 3, drawn one after the other. *)
Fixpoint draw_classes `{Numpy} (classes : list Z) (n : nat) (s : rng_state)
  : list (list (list Q)) * list (list Z) * rng_state :=
  match classes with
  | [] => ([], [], s)
  | c :: rest =>
      let '(cols, s1) := draw_columns (class_ranges c) n s in
      let '(X_all, y_all, s2) := draw_classes rest n s1 in
      (column_stack n cols :: X_all, repeat c n :: y_all, s2)
  end.

(** [generate_synthetic_data(n_samples_per_class, seed)].  The generator is
    the local [rng = np.random.RandomState(seed)]; the state of the process
    is neither read nor written. *)
Definition generate_synthetic_data `{Numpy} (n_samples_per_class : nat)
    (seed : Z) (p : process) : dataset * process :=
  let rng := RandomState seed in
  let n := n_samples_per_class in
  let '(X_all, y_all, rng) := draw_classes [0; 1; 2; 3] n rng in
  let X := concat X_all in
  let y := concat y_all in
  let '(idx, rng) := permutation (length y) rng in
  ((np_take [] idx X, np_take 0 idx y), p).

(** ** Feature Source: the real-signal provider *)

Definition window_size : nat := 1024.
Definition hop : nat := 512.

(** Division, with the error of a zero divisor made explicit. *)
Definition py_div (a b : Q) : result Q :=
  if Qeq_bool b 0 then Raise ZeroDivisionError else Ok (a / b)%Q.

(** [a > b] on floats. *)
Definition Qgt_bool (a b : Q) : bool := negb (Qle_bool a b).

(** [np.arange(n)] as floats. *)
Definition np_arange (n : nat) : list Q :=
  map (fun k => inject_Z (Z.of_nat k)) (seq 0 n).

(** The body of [_extract_features_from_signal] after the FFT: the eight
    features of a magnitude spectrum [mag] (bins 0..31). *)
Definition features_from_magnitude (mag : list Q) : result (list Q) :=
  let band_low := np_sum (slice 1 5 mag) in
  let band_midlow := np_sum (slice 5 11 mag) in
  let band_midhi := np_sum (slice 11 21 mag) in
  let band_high := np_sum (slice 21 32 mag) in
  let peak_bin := np_argmax mag in
  let peak_mag_val := nth peak_bin mag 0%Q in
  let total := np_sum mag in
  let* centroid :=
    (if Qgt_bool total 0 then
       py_div (np_sum (zip_with Qmult (np_arange 32) mag)) total
     else Ok 0%Q) in
  Ok [band_low; band_midlow; band_midhi; band_high;
      (inject_Z (Z.of_nat peak_bin) * 8)%Q;
      peak_mag_val;
      (centroid * 8)%Q;
      total].

(** [_extract_features_from_signal(segment)]: a 64-point FFT of the start
    of the segment, of which the first 32 magnitudes are used. *)
Definition extract_features_from_signal `{Numpy} (segment : list Q)
  : result (list Q) :=
  let n_fft := 64%nat in
  let mag := firstn 32 (rfft_abs (firstn n_fft segment)) in
  features_from_magnitude mag.

Definition file_class_map : list (string * Z) :=
  [("Normal.mat"%string, 0); ("B007.mat"%string, 1);
   ("IR007.mat"%string, 2); ("OR007.mat"%string, 3)].

(** [s.endswith(suffix)]. *)
Definition ends_with (suffix s : string) : bool :=
  let n := String.length s in
  let m := String.length suffix in
  (m <=? n)%nat && String.eqb (String.substring (n - m) m s) suffix.

(** [os.path.join(d, f)] for a relative [f]. *)
Definition os_path_join (d f : string) : string :=
  if String.eqb d "" then f
  else if ends_with "/" d then String.append d f
  else String.append d (String.append "/" f).

(** [n_windows = (len(signal) - window_size) // hop], with Python's floor
    division. *)
Definition n_windows (len : nat) : Z :=
  (Z.of_nat len - Z.of_nat window_size) / Z.of_nat hop.

(** The start offsets [i * hop] of the windows the loop visits. *)
Definition window_starts (len : nat) : list nat :=
  map (fun i => (i * hop)%nat) (py_range (n_windows len)).

(** The loop over the windows of one signal: each window's features are
    appended to [X_all], its label to [y_all]. *)
Definition load_windows `{Numpy} (signal : list Q) (label : Z)
    (acc : list (list Q) * list Z) : result (list (list Q) * list Z) :=
  fold_left
    (fun acc i =>
       let* (X_all, y_all) := acc in
       let seg := slice (i * hop) (i * hop + window_size) signal in
       let* features := extract_features_from_signal seg in
       Ok (X_all ++ [features], y_all ++ [label]))
    (py_range (n_windows (length signal)))
    (Ok acc).

(** One iteration of the loop over [file_class_map]: a missing file or a
    file without a [_DE_time] key is skipped. *)
Definition load_file `{Numpy} (data_dir : string) (p : process)
    (acc : list (list Q) * list Z) (entry : string * Z)
  : result (list (list Q) * list Z) :=
  let '(fname, label) := entry in
  let fpath := os_path_join data_dir fname in
  match filesystem p !! fpath with
  | None => Ok acc
  | Some mat =>
      match find (fun kv => ends_with "_DE_time" (fst kv)) mat with
      | None => Ok acc
      | Some (_, signal) => load_windows signal label acc
      end
  end.

Definition column (j : nat) (X : list (list Q)) : list Q :=
  map (fun row => nth j row 0%Q) X.

Definition np_min (l : list Q) : Q :=
  match l with
  | [] => 0%Q
  | x :: xs => fold_left Qmin xs x
  end.

Definition np_max (l : list Q) : Q :=
  match l with
  | [] => 0%Q
  | x :: xs => fold_left Qmax xs x
  end.

(** One iteration of the normalisation loop: column [j] is rescaled to
    [0, 255] in place, or set to 0 when it is constant. *)
Definition normalize_column (X : list (list Q)) (j : nat) : list (list Q) :=
  let col := column j X in
  let cmin := np_min col in
  let cmax := np_max col in
  if Qgt_bool cmax cmin then
    map (fun row => <[j := ((nth j row 0 - cmin) / (cmax - cmin) * 255)%Q]> row) X
  else
    map (fun row => <[j := 0%Q]> row) X.

(** [load_cwru_data(data_dir)].  The final shuffle calls
    [np.random.permutation], the generator of the process. *)
Definition load_cwru_data `{Numpy} (data_dir : string) (p : process)
  : result dataset * process :=
  if negb (scipy_installed p) then (Raise (SystemExit 1), p)
  else
    match fold_left (fun acc entry => let* a := acc in load_file data_dir p a entry)
                    file_class_map (Ok ([], [])) with
    | Raise e => (Raise e, p)
    | Ok (X_all, y_all) =>
        match X_all with
        | [] => (Raise (SystemExit 1), p)
        | _ :: _ =>
            let X := fold_left normalize_column (seq 0 8) X_all in
            let y := y_all in
            let '(idx, g) := permutation (length y) (np_random p) in
            (Ok (np_take [] idx X, np_take 0 idx y), set_np_random p g)
        end
    end.

(** ** Model: forward and backward pass *)

Definition dot (a b : list Q) : Q := np_sum (zip_with Qmult a b).

Definition ncols (M : list (list Q)) : nat :=
  match M with
  | [] => 0%nat
  | row :: _ => length row
  end.

(** [M.T] *)
Definition transpose (M : list (list Q)) : list (list Q) :=
  map (fun j => column j M) (seq 0 (ncols M)).

(** [A @ B] *)
Definition matmul (A B : list (list Q)) : list (list Q) :=
  map (fun a => map (dot a) (transpose B)) A.

(** [M + b], the vector [b] added to every row. *)
Definition add_rows (M : list (list Q)) (b : list Q) : list (list Q) :=
  map (fun row => zip_with Qplus row b) M.

(** [M.sum(axis=0)] *)
Definition sum_axis0 (M : list (list Q)) : list Q := map np_sum (transpose M).

(** [np.maximum(0, x)] *)
Definition relu (x : list (list Q)) : list (list Q) := map (map (Qmax 0)) x.

(** [(x > 0).astype(np.float64)] *)
Definition relu_grad (x : list (list Q)) : list (list Q) :=
  map (map (fun v => if Qgt_bool v 0 then 1%Q else 0%Q)) x.

(** [softmax(logits)], row by row, with the row maximum subtracted. *)
Definition softmax `{Numpy} (logits : list (list Q)) : list (list Q) :=
  map (fun row =>
         let m := np_max row in
         let e := map (fun v => np_exp (v - m)) row in
         let s := np_sum e in
         map (fun v => (v / s)%Q) e)
      logits.

(** [forward(X, W1, b1, W2, b2)] returns [(z1, h1, z2, probs)]. *)
Definition forward `{Numpy} (X W1 : list (list Q)) (b1 : list Q)
    (W2 : list (list Q)) (b2 : list Q)
  : list (list Q) * list (list Q) * list (list Q) * list (list Q) :=
  let z1 := add_rows (matmul X (transpose W1)) b1 in
  let h1 := relu z1 in
  let z2 := add_rows (matmul h1 (transpose W2)) b2 in
  let probs := softmax z2 in
  (z1, h1, z2, probs).

(** An index into an axis of length [len]: negative indices count from the
    end, anything else out of range raises [IndexError]. *)
Definition np_index (len : nat) (i : Z) : result nat :=
  if (0 <=? i) && (i <? Z.of_nat len) then Ok (Z.to_nat i)
  else if (- Z.of_nat len <=? i) && (i <? 0) then Ok (Z.to_nat (i + Z.of_nat len))
  else Raise IndexError.

Definition decrement_at (row : list Q) (label : Z) : result (list Q) :=
  let* j := np_index (length row) label in
  Ok (<[j := (nth j row 0 - 1)%Q]> row).

(** [dz2[np.arange(n), labels] -= 1.0] for [n = len(labels)]: row [i] is
    decremented at column [labels[i]]. *)
Fixpoint fancy_decrement (rows : list (list Q)) (labels : list Z)
  : result (list (list Q)) :=
  match labels, rows with
  | [], _ => Ok rows
  | _ :: _, [] => Raise IndexError
  | l :: ls, r :: rs =>
      let* r' := decrement_at r l in
      let* rs' := fancy_decrement rs ls in
      Ok (r' :: rs')
  end.

(** [backward(X, z1, h1, probs, labels, W2)] returns
    [(dW1, db1, dW2, db2)].  The two index arrays of the decrement must have
    the same length (the pipeline passes one label per row; numpy's
    broadcasting of a one-entry index array is left out). *)
Definition backward (X z1 h1 probs : list (list Q)) (labels : list Z)
    (W2 : list (list Q))
  : result (list (list Q) * list Q * list (list Q) * list Q) :=
  let n := length X in
  if negb (length labels =? n)%nat then Raise IndexError
  else
    let* dz2 := fancy_decrement probs labels in
    let dz2 := map (map (fun v => (v / inject_Z (Z.of_nat n))%Q)) dz2 in
    let dW2 := matmul (transpose dz2) h1 in
    let db2 := sum_axis0 dz2 in
    let dh1 := matmul dz2 W2 in
    let dz1 := zip_with (zip_with Qmult) dh1 (relu_grad z1) in
    let dW1 := matmul (transpose dz1) X in
    let db1 := sum_axis0 dz1 in
    Ok (dW1, db1, dW2, db2).

(** [np.mean(np.argmax(probs, axis=1) == y)] *)
Definition accuracy (probs : list (list Q)) (y : list Z) : Q :=
  let preds := map np_argmax probs in
  let hits := zip_with (fun p l => if Z.of_nat p =? l then 1%Q else 0%Q) preds y in
  (np_sum hits / inject_Z (Z.of_nat (length hits)))%Q.

(** ** Trainer

    The parameter arrays are mutated in place ([W1 -= lr * dW1]) and copied
    ([W1.copy()]), so they live in a store of arrays addressed by
    references. *)
Inductive ndarray : Type :=
| Vec (v : list Q)
| Mat (m : list (list Q)).

Abbreviation store := (gmap nat ndarray).

(** A new array: a reference that the store does not hold yet. *)
Definition alloc (h : store) (a : ndarray) : nat * store :=
  let r := fresh (dom h) in (r, <[r := a]> h).

Definition read_mat (h : store) (r : nat) : list (list Q) :=
  match h !! r with
  | Some (Mat m) => m
  | _ => []
  end.

Definition read_vec (h : store) (r : nat) : list Q :=
  match h !! r with
  | Some (Vec v) => v
  | _ => []
  end.

(** [a.copy()] *)
Definition copy (h : store) (r : nat) : nat * store :=
  match h !! r with
  | Some a => alloc h a
  | None => alloc h (Vec [])
  end.

(** [a -= d] on the array itself: the shape of [a] is kept. *)
Definition vec_isub (a d : list Q) : list Q :=
  imap (fun j v => (v - nth j d 0)%Q) a.

Definition mat_isub (A D : list (list Q)) : list (list Q) :=
  imap (fun i row => vec_isub row (nth i D [])) A.

Definition isub (h : store) (r : nat) (d : ndarray) : store :=
  match h !! r, d with
  | Some (Mat m), Mat dm => <[r := Mat (mat_isub m dm)]> h
  | Some (Vec v), Vec dv => <[r := Vec (vec_isub v dv)]> h
  | _, _ => h
  end.

(** The four parameter arrays [(W1, b1, W2, b2)], by reference. *)
Record params : Type := {
  rW1 : nat;
  rb1 : nat;
  rW2 : nat;
  rb2 : nat
}.

(** [(W1.copy(), b1.copy(), W2.copy(), b2.copy())] *)
Definition copy_params (h : store) (w : params) : params * store :=
  let '(c1, h) := copy h (rW1 w) in
  let '(c2, h) := copy h (rb1 w) in
  let '(c3, h) := copy h (rW2 w) in
  let '(c4, h) := copy h (rb2 w) in
  ({| rW1 := c1; rb1 := c2; rW2 := c3; rb2 := c4 |}, h).

(** The values of the four arrays. *)
Definition read_params (h : store) (w : params)
  : list (list Q) * list Q * list (list Q) * list Q :=
  (read_mat h (rW1 w), read_vec h (rb1 w), read_mat h (rW2 w), read_vec h (rb2 w)).

(** The state of the training loop. *)
Record train_state `{Numpy} : Type := {
  heap : store;
  working : params;
  rng : rng_state;
  lr : Q;
  best_val_acc : Q;
  best_params : params
}.

(** One batch: forward, backward, and the four in-place updates. *)
Definition sgd_batch `{Numpy} (w : params) (lr : Q) (Xb : list (list Q))
    (yb : list Z) (h : store) : result store :=
  let '(z1, h1, z2, probs) :=
    forward Xb (read_mat h (rW1 w)) (read_vec h (rb1 w))
               (read_mat h (rW2 w)) (read_vec h (rb2 w)) in
  let* (dW1, db1, dW2, db2) := backward Xb z1 h1 probs yb (read_mat h (rW2 w)) in
  let h := isub h (rW1 w) (Mat (map (map (Qmult lr)) dW1)) in
  let h := isub h (rb1 w) (Vec (map (Qmult lr) db1)) in
  let h := isub h (rW2 w) (Mat (map (map (Qmult lr)) dW2)) in
  let h := isub h (rb2 w) (Vec (map (Qmult lr) db2)) in
  Ok h.

(** [range(0, stop, step)]: a zero step raises [ValueError]. *)
Definition py_range_step (stop : nat) (step : Z) : result (list nat) :=
  if step =? 0 then Raise ValueError
  else if step <? 0 then Ok []
  else
    let s := Z.to_nat step in
    Ok (map (fun k => (k * s)%nat) (seq 0 ((stop + s - 1) / s))).

(** The validation accuracy of the working parameters. *)
Definition validation_accuracy `{Numpy} (h : store) (w : params)
    (X_val : list (list Q)) (y_val : list Z) : Q :=
  let '(_, _, _, val_probs) :=
    forward X_val (read_mat h (rW1 w)) (read_vec h (rb1 w))
                  (read_mat h (rW2 w)) (read_vec h (rb2 w)) in
  accuracy val_probs y_val.

(** The body of the loop over epochs.  The loss is accumulated for the
    progress report only and is left out; the division of the accumulated
    loss by [n_batches] is kept for its error. *)
Definition train_epoch `{Numpy} (X_train : list (list Q)) (y_train : list Z)
    (X_val : list (list Q)) (y_val : list Z) (batch_size : Z) (lr_decay : Q)
    (st : train_state) : result train_state :=
  let n_train := length X_train in
  let '(perm, rng) := permutation n_train (rng st) in
  let X_shuf := np_take [] perm X_train in
  let y_shuf := np_take 0 perm y_train in
  let* starts := py_range_step n_train batch_size in
  let* h :=
    fold_left
      (fun acc start =>
         let* h := acc in
         let stop := Nat.min (start + Z.to_nat batch_size) n_train in
         sgd_batch (working st) (lr st)
                   (slice start stop X_shuf) (slice start stop y_shuf) h)
      starts (Ok (heap st)) in
  let n_batches := length starts in
  let lr := (lr st * lr_decay)%Q in
  if (n_batches =? 0)%nat then Raise ZeroDivisionError
  else
    let val_acc := validation_accuracy h (working st) X_val y_val in
    if Qgt_bool val_acc (best_val_acc st) then
      let '(best, h) := copy_params h (working st) in
      Ok {| heap := h; working := working st; rng := rng; lr := lr;
            best_val_acc := val_acc; best_params := best |}
    else
      Ok {| heap := h; working := working st; rng := rng; lr := lr;
            best_val_acc := best_val_acc st; best_params := best_params st |}.

(** The state before the first epoch: the initialised parameters and the
    first best snapshot, a copy of them. *)
Definition train_init `{Numpy} (lr : Q) (seed : Z) (h : store) : train_state :=
  let rng := RandomState seed in
  let '(w1, rng) := randn 16 8 rng in
  let '(r1, h) := alloc h (Mat (map (map (fun v => (v * np_sqrt (2 / 8))%Q)) w1)) in
  let '(r2, h) := alloc h (Vec (repeat 0%Q 16)) in
  let '(w2, rng) := randn 4 16 rng in
  let '(r3, h) := alloc h (Mat (map (map (fun v => (v * np_sqrt (2 / 16))%Q)) w2)) in
  let '(r4, h) := alloc h (Vec (repeat 0%Q 4)) in
  let w := {| rW1 := r1; rb1 := r2; rW2 := r3; rb2 := r4 |} in
  let '(best, h) := copy_params h w in
  {| heap := h; working := w; rng := rng; lr := lr;
     best_val_acc := 0%Q; best_params := best |}.

(** The state after [k] iterations of the loop over epochs. *)
Fixpoint train_run `{Numpy} (X_train : list (list Q)) (y_train : list Z)
    (X_val : list (list Q)) (y_val : list Z) (batch_size : Z) (lr : Q)
    (lr_decay : Q) (seed : Z) (h : store) (k : nat) : result train_state :=
  match k with
  | O => Ok (train_init lr seed h)
  | S k' =>
      let* st := train_run X_train y_train X_val y_val batch_size lr
                           lr_decay seed h k' in
      train_epoch X_train y_train X_val y_val batch_size lr_decay st
  end.

(** [train(X_train, y_train, X_val, y_val, epochs, batch_size, lr, lr_decay,
    seed)] returns [best_params]: the references of the best snapshot, to be
    read in the store the call leaves. *)
Definition train `{Numpy} (X_train : list (list Q)) (y_train : list Z)
    (X_val : list (list Q)) (y_val : list Z) (epochs batch_size : Z) (lr : Q)
    (lr_decay : Q) (seed : Z) (h : store) : result (params * store) :=
  let* st := train_run X_train y_train X_val y_val batch_size lr lr_decay
                       seed h (Z.to_nat epochs) in
  Ok (best_params st, heap st).

(** ** Orchestration *)

(** The command line: [--cwru-dir], [--epochs], [--batch-size], [--lr],
    [--samples], [--seed] (the output path only names the file written). *)
Record arguments : Type := {
  cwru_dir : option string;
  epochs : Z;
  batch_size : Z;
  lr_arg : Q;
  samples : nat;
  seed : Z
}.

(** An elementwise result of the shape of [W], read from the flat [q]. *)
Fixpoint reshape_like {A B : Type} (W : list (list A)) (q : list B)
  : list (list B) :=
  match W with
  | [] => []
  | row :: rest =>
      firstn (length row) q :: reshape_like rest (skipn (length row) q)
  end.

Definition quantize_vec (b : list Q) : result (list Z * Q) :=
  match quantize_int8 b with
  | Some r => Ok r
  | None => Raise ValueError
  end.

Definition quantize_mat (W : list (list Q)) : result (list (list Z) * Q) :=
  let* (q, s) := quantize_vec (concat W) in
  Ok (reshape_like W q, s).

(** [np.clip(X, 0, 255)] *)
Definition clip_features (X : list (list Q)) : list (list Q) :=
  map (map (fun v => Qmin (Qmax v 0) 255)) X.

(** The part of [main] after the data is loaded: the 80/20 split
    ([int(0.8 * n)], the floor of [4n/5]), training, quantisation and the
    artifact; it ends in [return 0].  The reports in between only print. *)
Definition pipeline `{Numpy} (args : arguments) (X : list (list Q)) (y : list Z)
  : result Z :=
  let X := clip_features X in
  let n := length y in
  let split := (4 * n / 5)%nat in
  let X_train := firstn split X in
  let y_train := firstn split y in
  let X_val := skipn split X in
  let y_val := skipn split y in
  let* (best, h) := train X_train y_train X_val y_val (epochs args)
                          (batch_size args) (lr_arg args) (995 # 1000)
                          (seed args) ∅ in
  let '(W1, b1, W2, b2) := read_params h best in
  let* (W1_q, s1w) := quantize_mat W1 in
  let* (b1_q, s1b) := quantize_vec b1 in
  let* (W2_q, s2w) := quantize_mat W2 in
  let* (b2_q, s2b) := quantize_vec b2 in
  let* _ := save_weights W1_q b1_q W2_q b2_q [s1w; s1b; s2w; s2b] in
  Ok 0.

(** [main()] *)
Definition main `{Numpy} (args : arguments) (p : process)
  : result Z * process :=
  let '(data, p) :=
    match cwru_dir args with
    | Some d => load_cwru_data d p
    | None =>
        let '(ds, p) := generate_synthetic_data (samples args) (seed args) p in
        (Ok ds, p)
    end in
  match data with
  | Raise e => (Raise e, p)
  | Ok (X, y) => (pipeline args X y, p)
  end.

(** The exit status of [sys.exit(main())]: the value returned, the code of
    a [sys.exit], or 1 after an uncaught exception. *)
Definition exit_status (r : result Z) : Z :=
  match r with
  | Ok v => v
  | Raise (SystemExit code) => code
  | Raise _ => 1
  end.

(** ** A small executable instance of the numpy interface

    A linear congruential generator and rational stand-ins for the
    transcendental routines.  It is used to run the pipeline on concrete
    inputs; no property below depends on it. *)
Module Reference.

Definition lcg_next (s : Z) : Z := (1103515245 * s + 12345) mod 2147483648.

(** One draw in [0, 1), with a short denominator. *)
Definition random_sample (s : Z) : Q * Z :=
  let s' := lcg_next s in
  (Qmake ((s' / 65536) mod 16) 16, s').

Fixpoint random_samples (n : nat) (s : Z) : list Q * Z :=
  match n with
  | O => ([], s)
  | S n' =>
      let '(u, s1) := random_sample s in
      let '(us, s2) := random_samples n' s1 in
      (u :: us, s2)
  end.

Definition uniform (lo hi : Q) (n : nat) (s : Z) : list Q * Z :=
  let '(us, s') := random_samples n s in
  (map (fun u => (lo + (hi - lo) * u)%Q) us, s').

(** A rotation of [0 .. n-1] by an amount drawn from the state. *)
Definition permutation (n : nat) (s : Z) : list nat * Z :=
  let s' := lcg_next s in
  let k := Z.to_nat ((s' / 65536) mod Z.of_nat n) in
  (skipn k (seq 0 n) ++ firstn k (seq 0 n), s').

Fixpoint randn (r c : nat) (s : Z) : list (list Q) * Z :=
  match r with
  | O => ([], s)
  | S r' =>
      let '(us, s1) := random_samples c s in
      let '(rows, s2) := randn r' c s1 in
      (map (fun u => (u * 16 - 8)%Q) us :: rows, s2)
  end.

(** Stand-in for the magnitude spectrum: bin [k] correlates the signal
    with the sign pattern of period [2k]; bins 0 and [n/2] are the exact DFT
    magnitudes. *)
Definition rfft_abs (x : list Q) : list Q :=
  map (fun k =>
         Qabs (np_sum (imap (fun t v =>
                 if Nat.even ((t * k) / Nat.max 1 (length x / 2)) then v else (- v)%Q) x)))
      (seq 0 (length x / 2 + 1)).

Definition np_exp (x : Q) : Q :=
  if Qle_bool x 0 then (1 / (1 - x))%Q else (1 + x)%Q.

Definition np_sqrt (x : Q) : Q := ((1 + x) / 2)%Q.

End Reference.

(** ** Predicates used by the properties *)

Definition is_int8 (v : Z) : Prop := -128 <= v <= 127.

(** A sample lies in the ranges of class [c], feature by feature. *)
Definition sample_in_class (row : list Q) (c : Z) : Prop :=
  Forall2 (fun v r => (fst r <= v <= snd r)%Q) row (class_ranges c).

Definition range_ok (r : Q * Q) : Prop :=
  (0 <= fst r)%Q /\ (fst r <= snd r)%Q /\ (snd r <= 255)%Q.

(** The samples collected from the files, before normalisation and
    shuffling: they depend on the files only. *)
Definition collected `{Numpy} (data_dir : string) (p : process)
  : result (list (list Q) * list Z) :=
  fold_left (fun acc entry => let* a := acc in load_file data_dir p a entry)
            file_class_map (Ok ([], [])).

(** Entry [(i, j)] of a 2-D array, and a sum over [0 <= i < n]. *)
Definition entry (M : list (list Q)) (i j : nat) : Q := nth j (nth i M []) 0%Q.

Definition big_sum (n : nat) (f : nat -> Q) : Q := np_sum (map f (seq 0 n)).

(** *** The closed forms, as the specification words them *)

Section ClosedForm.
Variables (X z1 h1 probs W2 : list (list Q)) (labels : list Z).
Variables (n C : nat).

(** [probs] with 1 subtracted at the true-label column, over the batch size. *)
Definition dz2_spec (i c : nat) : Q :=
  Qdiv (if Z.of_nat c =? nth i labels 0 then (entry probs i c - 1)%Q
        else entry probs i c)
       (inject_Z (Z.of_nat n)).

(** [dW2 = dz2^T . h1] *)
Definition dW2_spec (c j : nat) : Q :=
  big_sum n (fun i => (dz2_spec i c * entry h1 i j)%Q).

(** [db2 = column-sum(dz2)] *)
Definition db2_spec (c : nat) : Q := big_sum n (fun i => dz2_spec i c).

(** [dh1 = dz2 . W2] *)
Definition dh1_spec (i j : nat) : Q :=
  big_sum C (fun c => (dz2_spec i c * entry W2 c j)%Q).

(** [reluGrad]: 1 where the argument is positive, 0 otherwise. *)
Definition reluGrad_spec (v : Q) : Q := if Qlt_le_dec 0 v then 1%Q else 0%Q.

(** [dz1 = dh1 * reluGrad(z1)], element-wise *)
Definition dz1_spec (i j : nat) : Q :=
  (dh1_spec i j * reluGrad_spec (entry z1 i j))%Q.

(** [dW1 = dz1^T . X] *)
Definition dW1_spec (j m : nat) : Q :=
  big_sum n (fun i => (dz1_spec i j * entry X i m)%Q).

(** [db1 = column-sum(dz1)] *)
Definition db1_spec (j : nat) : Q := big_sum n (fun i => dz1_spec i j).
End ClosedForm.

Definition refs_of (w : params) : list nat := [rW1 w; rb1 w; rW2 w; rb2 w].

(** Every array of [w] is in the store. *)
Definition allocated (h : store) (w : params) : Prop :=
  forall r, In r (refs_of w) -> h !! r <> None.

(** No array of [w] is in the store. *)
Definition fresh_for (h : store) (w : params) : Prop :=
  forall r, In r (refs_of w) -> h !! r = None.

(** [a] and [b] share no array. *)
Definition disjoint_params (a b : params) : Prop :=
  forall r, In r (refs_of a) -> ~ In r (refs_of b).

(** From [h] to [h'] only arrays of [w] changed. *)
Definition preserves_outside (w : params) (h h' : store) : Prop :=
  forall r, ~ In r (refs_of w) -> h' !! r = h !! r.

(** The working arrays have the shapes of the network: (16,8), (16,),
    (4,16), (4,). *)
Definition wf_params (h : store) (w : params) : Prop :=
  NoDup (refs_of w) /\
  (exists W1, h !! rW1 w = Some (Mat W1) /\ has_shape 16 8 W1) /\
  (exists b1, h !! rb1 w = Some (Vec b1) /\ length b1 = 16%nat) /\
  (exists W2, h !! rW2 w = Some (Mat W2) /\ has_shape 4 16 W2) /\
  (exists b2, h !! rb2 w = Some (Vec b2) /\ length b2 = 4%nat).

Definition label_ok (l : Z) : Prop := 0 <= l < 4.

(** The invariant of the loop over epochs: the working arrays are well
    shaped, the best snapshot is in the store, and the snapshot shares no
    array with the working parameters. *)
Definition train_inv `{Numpy} (st : train_state) : Prop :=
  wf_params (heap st) (working st) /\
  allocated (heap st) (best_params st) /\
  disjoint_params (best_params st) (working st).

(** What one epoch does to the best snapshot. *)
Definition epoch_outcome `{Numpy} (X_val : list (list Q)) (y_val : list Z)
    (st st' : train_state) : Prop :=
  let a := validation_accuracy (heap st') (working st') X_val y_val in
  working st' = working st /\
  ((best_val_acc st < a)%Q ->
     best_val_acc st' = a /\
     fresh_for (heap st) (best_params st') /\
     NoDup (refs_of (best_params st')) /\
     read_params (heap st') (best_params st')
       = read_params (heap st') (working st')) /\
  ((a <= best_val_acc st)%Q ->
     best_val_acc st' = best_val_acc st /\ best_params st' = best_params st) /\
  (forall r, heap st !! r <> None -> ~ In r (refs_of (working st)) ->
     heap st' !! r = heap st !! r).

(** A call that does not leave through [sys.exit]. *)
Definition no_exit {A : Type} (r : result A) : Prop :=
  forall code, r <> Raise (SystemExit code).

(** ** Evaluator *)

(** [evaluate_quantized(X, y, W1_q, b1_q, W2_q, b2_q)]: the forward pass on
    the integer tensors cast to floats ([.astype(np.float64)], no scale
    applied), and the share of rows whose arg-max is the label. *)
Definition evaluate_quantized `{Numpy} (X : list (list Q)) (y : list Z)
    (W1_q : list (list Z)) (b1_q : list Z) (W2_q : list (list Z))
    (b2_q : list Z) : Q :=
  let '(_, _, _, probs) :=
    forward X (map (map inject_Z) W1_q) (map inject_Z b1_q)
              (map (map inject_Z) W2_q) (map inject_Z b2_q) in
  accuracy probs y.

(** The value the normalisation loop writes for an entry [v] of a column
    [col]: the position of [v] between the column's minimum and maximum,
    scaled to 255, or 0 for a constant column. *)
Definition normalized (col : list Q) (v : Q) : Q :=
  if Qgt_bool (np_max col) (np_min col) then
    ((v - np_min col) / (np_max col - np_min col) * 255)%Q
  else 0%Q.

(** Every collected sample has eight features and carries the label of a
    file that is present and has a [_DE_time] key. *)
Definition collected_from `{Numpy} (data_dir : string) (p : process)
    (acc : list (list Q) * list Z) : Prop :=
  length (fst acc) = length (snd acc) /\
  Forall (fun f => length f = 8%nat) (fst acc) /\
  Forall (fun l =>
            exists fname mat key signal,
              In (fname, l) file_class_map /\
              filesystem p !! os_path_join data_dir fname = Some mat /\
              find (fun kv => ends_with "_DE_time" (fst kv)) mat
                = Some (key, signal))
         (snd acc).

(** One row of [softmax]. *)
Definition softmax_row `{Numpy} (row : list Q) : list Q :=
  map (fun v => (v / np_sum (map (fun v => np_exp (v - np_max row)) row))%Q)
      (map (fun v => np_exp (v - np_max row)) row).

(** The logits of the network with the integer tensors as its weights. *)
Definition integer_logits (X : list (list Q)) (W1_q : list (list Z))
    (b1_q : list Z) (W2_q : list (list Z)) (b2_q : list Z) : list (list Q) :=
  add_rows
    (matmul (relu (add_rows (matmul X (transpose (map (map inject_Z) W1_q)))
                            (map inject_Z b1_q)))
            (transpose (map (map inject_Z) W2_q)))
    (map inject_Z b2_q).

(** The parameters [train] starts from: the scaled draws of the generator
    seeded with [seed] and the zero biases. *)
Definition initial_params `{Numpy} (seed : Z)
  : list (list Q) * list Q * list (list Q) * list Q :=
  let '(w1, rng) := randn 16 8 (RandomState seed) in
  let '(w2, _) := randn 4 16 rng in
  (map (map (fun v => (v * np_sqrt (2 / 8))%Q)) w1, repeat 0%Q 16,
   map (map (fun v => (v * np_sqrt (2 / 16))%Q)) w2, repeat 0%Q 4).

(** ** The reference instance satisfies the interface *)

Lemma reference_random_sample_range (s : Z) :
  (0 <= fst (Reference.random_sample s) <= 1)%Q.
Proof.
  unfold Reference.random_sample. cbn [fst].
  pose proof (Z.mod_pos_bound (Reference.lcg_next s / 65536) 16 ltac:(lia)) as Hb.
  set (m := (Reference.lcg_next s / 65536) mod 16) in *.
  unfold Qle. cbn [Qnum Qden]. lia.
Qed.

Lemma reference_random_samples_spec (n : nat) (s : Z) :
  length (fst (Reference.random_samples n s)) = n /\
  Forall (fun u => (0 <= u <= 1)%Q) (fst (Reference.random_samples n s)).
Proof.
  revert s. induction n as [|n IH]; intros s.
  - split; [reflexivity | constructor].
  - cbn [Reference.random_samples].
    pose proof (reference_random_sample_range s) as Hu.
    destruct (Reference.random_sample s) as [u s1].
    specialize (IH s1).
    destruct (Reference.random_samples n s1) as [us s2]. cbn [fst] in *.
    destruct IH as [IH1 IH2]. split; [simpl; lia | constructor; assumption].
Qed.

Lemma reference_uniform_length lo hi n s :
  length (fst (Reference.uniform lo hi n s)) = n.
Proof.
  unfold Reference.uniform.
  pose proof (reference_random_samples_spec n s) as [Hl _].
  destruct (Reference.random_samples n s) as [us s']. simpl in *.
  rewrite length_map. exact Hl.
Qed.

Lemma reference_uniform_range lo hi n s :
  (lo <= hi)%Q ->
  Forall (fun v => (lo <= v <= hi)%Q) (fst (Reference.uniform lo hi n s)).
Proof.
  intros Hle. unfold Reference.uniform.
  pose proof (reference_random_samples_spec n s) as [_ Hr].
  destruct (Reference.random_samples n s) as [us s']. simpl in *.
  apply List.Forall_forall. intros v Hv.
  apply in_map_iff in Hv. destruct Hv as (u & <- & Hu).
  rewrite List.Forall_forall in Hr. specialize (Hr u Hu).
  destruct Hr as [Hu0 Hu1].
  assert (H0 : (0 <= (hi - lo) * u)%Q) by (apply Qmult_le_0_compat; lra).
  assert (H1 : (0 <= (hi - lo) * (1 - u))%Q) by (apply Qmult_le_0_compat; lra).
  split; lra.
Qed.

Lemma reference_permutation_perm n s :
  Permutation (fst (Reference.permutation n s)) (seq 0 n).
Proof.
  unfold Reference.permutation. simpl.
  set (k := Z.to_nat _).
  rewrite Permutation_app_comm, firstn_skipn. reflexivity.
Qed.

Lemma reference_randn_shape r c s :
  has_shape r c (fst (Reference.randn r c s)).
Proof.
  revert s. induction r as [|r IH]; intros s.
  - split; [reflexivity | constructor].
  - cbn [Reference.randn].
    pose proof (reference_random_samples_spec c s) as [Hl _].
    destruct (Reference.random_samples c s) as [us s1].
    specialize (IH s1).
    destruct (Reference.randn r c s1) as [rows s2]. cbn [fst] in *.
    destruct IH as [IH1 IH2]. split; [simpl; lia|].
    constructor; [rewrite length_map; exact Hl | exact IH2].
Qed.

Definition reference_numpy : Numpy := {|
  rng_state := Z;
  RandomState := fun seed => seed;
  uniform := Reference.uniform;
  permutation := Reference.permutation;
  randn := Reference.randn;
  rfft_abs := Reference.rfft_abs;
  np_exp := Reference.np_exp;
  np_sqrt := Reference.np_sqrt;
  uniform_length := reference_uniform_length;
  uniform_range := reference_uniform_range;
  permutation_perm := reference_permutation_perm;
  randn_shape := reference_randn_shape
|}.
(** ** Lemmas on rounding and on the maximum *)

Lemma np_round_floor_bounds (x : Q) :
  (inject_Z (Qfloor x) <= x)%Q /\ (x < inject_Z (Qfloor x) + 1)%Q.
Proof.
  split; [apply Qfloor_le|].
  pose proof (Qlt_floor x) as H.
  rewrite inject_Z_plus in H. exact H.
Qed.

Lemma np_round_cases (x : Q) :
  np_round x = Qfloor x \/ np_round x = Qfloor x + 1.
Proof.
  unfold np_round. destruct (Qcompare _ _); [destruct (Z.even _)|..]; auto.
Qed.

(** The rounded value is within one half of the argument. *)
Lemma np_round_error (x : Q) :
  (Qabs (x - inject_Z (np_round x)) <= 1 # 2)%Q.
Proof.
  destruct (np_round_floor_bounds x) as [Hlo Hhi].
  apply Qabs_Qle_condition. unfold np_round.
  destruct (Qcompare (x - inject_Z (Qfloor x)) (1 # 2)) eqn:Hc.
  - apply Qeq_alt in Hc.
    destruct (Z.even (Qfloor x)); [|rewrite inject_Z_plus; change (inject_Z 1) with 1%Q]; lra.
  - apply Qlt_alt in Hc. lra.
  - apply Qgt_alt in Hc. rewrite inject_Z_plus; change (inject_Z 1) with 1%Q. lra.
Qed.

Example np_round_halves :
  (np_round (5 # 2), np_round (7 # 2), np_round (-5 # 2), np_round (26 # 10))
  = (2, 4, -2, 3).
Proof. reflexivity. Qed.

Lemma np_round_comp (x y : Q) : (x == y)%Q -> np_round x = np_round y.
Proof.
  intros E. unfold np_round.
  rewrite (Qfloor_comp _ _ E).
  assert (Hc : Qcompare (x - inject_Z (Qfloor y)) (1 # 2)
               = Qcompare (y - inject_Z (Qfloor y)) (1 # 2)).
  { apply Qcompare_comp; [rewrite E|]; reflexivity. }
  rewrite Hc. reflexivity.
Qed.

Lemma inject_Z_le_half (z b : Z) :
  (inject_Z z <= inject_Z b + (1 # 2))%Q -> z <= b.
Proof.
  intros H. apply Z.lt_succ_r. rewrite Zlt_Qlt.
  unfold Z.succ. rewrite inject_Z_plus. change (inject_Z 1) with 1%Q. lra.
Qed.

Lemma inject_Z_ge_half (z b : Z) :
  (inject_Z b - (1 # 2) <= inject_Z z)%Q -> b <= z.
Proof.
  intros H. apply Z.lt_pred_le. rewrite Zlt_Qlt.
  unfold Z.pred. rewrite inject_Z_plus. change (inject_Z (-1)) with (-1)%Q. lra.
Qed.

(** Rounding keeps a value inside an interval with integer end points. *)
Lemma np_round_between (lo hi : Z) (x : Q) :
  (inject_Z lo <= x <= inject_Z hi)%Q -> lo <= np_round x <= hi.
Proof.
  intros [Hlo Hhi].
  pose proof (np_round_error x) as He.
  apply Qabs_Qle_condition in He. destruct He as [He1 He2].
  split; [apply inject_Z_ge_half | apply inject_Z_le_half]; lra.
Qed.

Lemma np_clip_range (lo hi x : Z) : lo <= hi -> lo <= np_clip lo hi x <= hi.
Proof.
  intros H. unfold np_clip.
  destruct (Z.ltb_spec x lo); [lia|]. destruct (Z.ltb_spec hi x); lia.
Qed.

Lemma np_clip_id (lo hi x : Z) : lo <= x <= hi -> np_clip lo hi x = x.
Proof.
  intros H. unfold np_clip.
  destruct (Z.ltb_spec x lo); [lia|]. destruct (Z.ltb_spec hi x); lia.
Qed.

Lemma astype_int8_id (x : Z) : -128 <= x <= 127 -> astype_int8 x = x.
Proof.
  intros H. unfold astype_int8. rewrite Z.mod_small; lia.
Qed.

Lemma Qmax_cases (a b : Q) : Qmax a b = a \/ Qmax a b = b.
Proof.
  unfold Qmax, GenericMinMax.gmax. destruct (Qcompare a b); auto.
Qed.

Lemma fold_Qmax_ge_init (l : list Q) (a : Q) : (a <= fold_left Qmax l a)%Q.
Proof.
  revert a. induction l as [|b l IH]; intros a; simpl.
  - apply Qle_refl.
  - eapply Qle_trans; [apply Q.le_max_l | apply IH].
Qed.

Lemma fold_Qmax_ge (l : list Q) (a x : Q) :
  In x l -> (x <= fold_left Qmax l a)%Q.
Proof.
  revert a. induction l as [|b l IH]; intros a Hin; simpl in *; [tauto|].
  destruct Hin as [->|Hin].
  - eapply Qle_trans; [apply Q.le_max_r | apply fold_Qmax_ge_init].
  - apply IH, Hin.
Qed.

Lemma fold_Qmax_in (l : list Q) (a : Q) :
  fold_left Qmax l a = a \/ In (fold_left Qmax l a) l.
Proof.
  revert a. induction l as [|b l IH]; intros a; simpl; [auto|].
  destruct (IH (Qmax a b)) as [E|Hin]; [|auto].
  rewrite E. destruct (Qmax_cases a b) as [->| ->]; auto.
Qed.

(** [np.max(np.abs(w))] of a non-empty tensor is attained and bounds every
    entry. *)
Lemma np_max_abs_spec (w : list Q) :
  w <> [] ->
  exists m, np_max_abs w = Some m /\ In m (map Qabs w) /\
            forall x, In x w -> (Qabs x <= m)%Q.
Proof.
  destruct w as [|x xs]; [congruence|]. intros _.
  eexists; split; [reflexivity|]. split.
  - simpl. destruct (fold_Qmax_in (map Qabs xs) (Qabs x)) as [->|H]; auto.
  - intros y [->|Hy].
    + apply fold_Qmax_ge_init.
    + apply fold_Qmax_ge, in_map, Hy.
Qed.

Lemma np_max_abs_nonneg (w : list Q) (m : Q) :
  np_max_abs w = Some m -> (0 <= m)%Q.
Proof.
  destruct w as [|x xs]; [discriminate|]. intros [= <-].
  eapply Qle_trans; [apply Qabs_nonneg | apply fold_Qmax_ge_init].
Qed.

(** With a positive maximum, every scaled entry lies in [-127, 127]. *)
Lemma scaled_entry_range (w m : Q) :
  (0 < m)%Q -> (Qabs w <= m)%Q ->
  (inject_Z (-127) <= w * (127 / m) <= inject_Z 127)%Q.
Proof.
  intros Hm Hw. apply Qabs_Qle_condition in Hw. destruct Hw as [Hw1 Hw2].
  change (inject_Z (-127)) with (-(127))%Q. change (inject_Z 127) with 127%Q.
  assert (Hinv : (0 < / m)%Q) by (apply Qinv_lt_0_compat; exact Hm).
  assert (Hone : (m * / m == 1)%Q) by (apply Qmult_inv_r; lra).
  unfold Qdiv. set (k := (/ m)%Q) in *.
  split; nra.
Qed.

(** The round trip through the quantised value loses at most half a step. *)
Lemma round_trip_half_step (w s : Q) :
  (0 < s)%Q ->
  (Qabs (w - inject_Z (np_round (w * s)) / s) <= (1 # 2) / s)%Q.
Proof.
  intros Hs.
  pose proof (np_round_error (w * s)) as He.
  apply Qabs_Qle_condition in He. destruct He as [He1 He2].
  set (r := inject_Z (np_round (w * s))) in *.
  assert (Hinv : (0 < / s)%Q) by (apply Qinv_lt_0_compat; exact Hs).
  assert (Hone : (s * / s == 1)%Q) by (apply Qmult_inv_r; lra).
  apply Qabs_Qle_condition. unfold Qdiv. set (k := (/ s)%Q) in *.
  assert (E : (w - r * k == (w * s - r) * k)%Q).
  { transitivity (w * (s * k) - r * k)%Q; [rewrite Hone|]; ring. }
  rewrite E.
  assert (H1 : (0 <= (w * s - r + (1 # 2)) * k)%Q) by (apply Qmult_le_0_compat; lra).
  assert (H2 : (0 <= ((1 # 2) - (w * s - r)) * k)%Q) by (apply Qmult_le_0_compat; lra).
  split; lra.
Qed.

(** ** Quantizer: the specification's properties *)

(** C4.  For every (non-empty) tensor [quantize_int8] returns; the scale is
    [127 / max|tensor|], or [1] with an all-zero output when the tensor is
    all zero; every output entry is [round (value * scale)] clipped to
    [-128, 127] and lies in that range; and the round-trip error of every
    entry is at most [1 / scale]. *)
Theorem quantize_int8_spec (weights : list Q) :
  weights <> [] ->
  exists w_max q scale,
    np_max_abs weights = Some w_max /\
    In w_max (map Qabs weights) /\
    (forall w, In w weights -> (Qabs w <= w_max)%Q) /\
    quantize_int8 weights = Some (q, scale) /\
    ((w_max == 0)%Q <-> Forall (fun w => (w == 0)%Q) weights) /\
    ((w_max == 0)%Q -> scale = 1%Q /\ Forall (fun v => v = 0) q) /\
    (~ (w_max == 0)%Q -> scale = (127 / w_max)%Q) /\
    length q = length weights /\
    forall i w, nth_error weights i = Some w ->
      exists qi, nth_error q i = Some qi /\
        qi = np_clip (-128) 127 (np_round (w * scale)) /\
        -128 <= qi <= 127 /\
        (Qabs (w - inject_Z qi / scale) <= 1 / scale)%Q.
Proof.
  intros Hne.
  destruct (np_max_abs_spec weights Hne) as (m & Hm & Hin & Hub).
  pose proof (np_max_abs_nonneg _ _ Hm) as Hm0.
  assert (Hzero : (m == 0)%Q <-> Forall (fun w => (w == 0)%Q) weights).
  { split.
    - intros E. apply List.Forall_forall. intros w Hw.
      pose proof (Hub w Hw) as Hb. rewrite E in Hb.
      apply Qabs_Qle_condition in Hb. lra.
    - intros Hall. apply in_map_iff in Hin. destruct Hin as (w & <- & Hw).
      rewrite List.Forall_forall in Hall. rewrite (Hall w Hw). reflexivity. }
  unfold quantize_int8. rewrite Hm.
  destruct (Qeq_bool m 0) eqn:Hb.
  - apply Qeq_bool_iff in Hb.
    exists m, (map (fun _ => 0) weights), 1%Q.
    split_and!; try assumption; try reflexivity.
    + intros _. split; [reflexivity|].
      apply List.Forall_forall. intros v Hv. apply in_map_iff in Hv.
      destruct Hv as (? & <- & _). reflexivity.
    + intros Hn. contradiction.
    + apply length_map.
    + intros i w Hw. exists 0. split; [|split; [|split]].
      * rewrite nth_error_map, Hw. reflexivity.
      * assert (Ew : (w == 0)%Q).
        { apply Hzero in Hb. rewrite List.Forall_forall in Hb.
          apply Hb. eapply nth_error_In, Hw. }
        rewrite (np_round_comp (w * 1) 0) by (rewrite Ew; ring).
        reflexivity.
      * lia.
      * assert (Ew : (w == 0)%Q).
        { apply Hzero in Hb. rewrite List.Forall_forall in Hb.
          apply Hb. eapply nth_error_In, Hw. }
        rewrite Ew. vm_compute. discriminate.
  - assert (Hnz : ~ (m == 0)%Q).
    { intros E. apply Qeq_bool_iff in E. congruence. }
    assert (Hpos : (0 < m)%Q) by lra.
    assert (Hs : (0 < 127 / m)%Q).
    { unfold Qdiv. apply Qmult_lt_0_compat; [reflexivity|].
      apply Qinv_lt_0_compat, Hpos. }
    eexists m, _, (127 / m)%Q.
    split_and!; try assumption; try reflexivity.
    + intros E. contradiction.
    + rewrite !length_map. reflexivity.
    + intros i w Hw.
      pose proof (scaled_entry_range w m Hpos (Hub w (nth_error_In _ _ Hw))) as Hr.
      pose proof (np_round_between _ _ _ Hr) as Hq.
      exists (np_round (w * (127 / m))). split; [|split; [|split]].
      * rewrite !nth_error_map, Hw. simpl.
        rewrite np_clip_id by lia. rewrite astype_int8_id by lia. reflexivity.
      * rewrite np_clip_id by lia. reflexivity.
      * lia.
      * eapply Qle_trans; [apply round_trip_half_step, Hs|].
        unfold Qdiv. apply Qmult_le_compat_r; [discriminate|].
        apply Qlt_le_weak, Qinv_lt_0_compat, Hs.
Qed.

(** A witness for C4: the tensor [1.5, -3, 0.25]. *)
Lemma quantize_int8_spec_witness :
  exists w_max q scale,
    np_max_abs [3 # 2; -3; 1 # 4]%Q = Some w_max /\
    In w_max (map Qabs [3 # 2; -3; 1 # 4]%Q) /\
    (forall w, In w [3 # 2; -3; 1 # 4]%Q -> (Qabs w <= w_max)%Q) /\
    quantize_int8 [3 # 2; -3; 1 # 4]%Q = Some (q, scale) /\
    ((w_max == 0)%Q <-> Forall (fun w => (w == 0)%Q) [3 # 2; -3; 1 # 4]%Q) /\
    ((w_max == 0)%Q -> scale = 1%Q /\ Forall (fun v => v = 0) q) /\
    (~ (w_max == 0)%Q -> scale = (127 / w_max)%Q) /\
    length q = length [3 # 2; -3; 1 # 4]%Q /\
    forall i w, nth_error [3 # 2; -3; 1 # 4]%Q i = Some w ->
      exists qi, nth_error q i = Some qi /\
        qi = np_clip (-128) 127 (np_round (w * scale)) /\
        -128 <= qi <= 127 /\
        (Qabs (w - inject_Z qi / scale) <= 1 / scale)%Q.
Proof. apply (quantize_int8_spec [3 # 2; -3; 1 # 4]%Q). discriminate. Defined.

(** C10.  The quantised output never contains [-128]: every entry lies in
    [-127, 127], each rounded product does already, and the clip (and the
    final cast to int8) leaves it unchanged. *)
Theorem quantize_int8_symmetric_range (weights : list Q) :
  weights <> [] ->
  exists q scale,
    quantize_int8 weights = Some (q, scale) /\
    Forall (fun v => -127 <= v <= 127) q /\
    forall w, In w weights ->
      (inject_Z (-127) <= w * scale <= inject_Z 127)%Q /\
      -127 <= np_round (w * scale) <= 127 /\
      np_clip (-128) 127 (np_round (w * scale)) = np_round (w * scale).
Proof.
  intros Hne.
  destruct (np_max_abs_spec weights Hne) as (m & Hm & Hin & Hub).
  pose proof (np_max_abs_nonneg _ _ Hm) as Hm0.
  unfold quantize_int8. rewrite Hm.
  destruct (Qeq_bool m 0) eqn:Hb.
  - apply Qeq_bool_iff in Hb.
    eexists _, _. split; [reflexivity|]. split.
    + apply List.Forall_forall. intros v Hv. apply in_map_iff in Hv.
      destruct Hv as (? & <- & _). lia.
    + intros w Hw.
      assert (Ew : (w == 0)%Q).
      { pose proof (Hub w Hw) as Hle. rewrite Hb in Hle.
        apply Qabs_Qle_condition in Hle. lra. }
      assert (Hr : (inject_Z (-127) <= w * 1 <= inject_Z 127)%Q).
      { rewrite Ew. split; discriminate. }
      pose proof (np_round_between _ _ _ Hr) as Hq.
      split; [exact Hr|]. split; [exact Hq|]. apply np_clip_id. lia.
  - assert (Hpos : (0 < m)%Q).
    { assert (~ (m == 0)%Q) by (intros E; apply Qeq_bool_iff in E; congruence). lra. }
    assert (Hall : forall w, In w weights ->
      (inject_Z (-127) <= w * (127 / m) <= inject_Z 127)%Q /\
      -127 <= np_round (w * (127 / m)) <= 127 /\
      np_clip (-128) 127 (np_round (w * (127 / m))) = np_round (w * (127 / m))).
    { intros w Hw.
      pose proof (scaled_entry_range w m Hpos (Hub w Hw)) as Hr.
      pose proof (np_round_between _ _ _ Hr) as Hq.
      split; [exact Hr|]. split; [exact Hq|]. apply np_clip_id. lia. }
    eexists _, _. split; [reflexivity|]. split; [|exact Hall].
    apply List.Forall_forall. intros v Hv.
    apply in_map_iff in Hv. destruct Hv as (r & <- & Hr).
    apply in_map_iff in Hr. destruct Hr as (w & <- & Hw).
    destruct (Hall w Hw) as (_ & Hq & Hc).
    rewrite Hc. rewrite astype_int8_id by lia. exact Hq.
Qed.

(** A witness for C10: a tensor whose most negative entry is the one of
    largest magnitude. *)
Lemma quantize_int8_symmetric_range_witness :
  exists q scale,
    quantize_int8 [-4; 1; 3 # 7]%Q = Some (q, scale) /\
    Forall (fun v => -127 <= v <= 127) q /\
    forall w, In w [-4; 1; 3 # 7]%Q ->
      (inject_Z (-127) <= w * scale <= inject_Z 127)%Q /\
      -127 <= np_round (w * scale) <= 127 /\
      np_clip (-128) 127 (np_round (w * scale)) = np_round (w * scale).
Proof. apply (quantize_int8_symmetric_range [-4; 1; 3 # 7]%Q). discriminate. Defined.

Example quantize_int8_example :
  quantize_int8 [-4; 1; 3 # 7]%Q = Some ([-127; 32; 14], (127 / 4)%Q).
Proof. reflexivity. Qed.

(** ** Serializer: the 212-entry layout *)

Lemma length_concat_shape {A : Type} (r c : nat) (m : list (list A)) :
  has_shape r c m -> length (concat m) = (r * c)%nat.
Proof.
  intros [Hr Hc]. subst r.
  induction m as [|row m IH]; [reflexivity|].
  apply Forall_cons_1 in Hc as [Hrow Hc].
  simpl. rewrite length_app, Hrow, (IH Hc). reflexivity.
Qed.

Lemma map_astype_int8_id (l : list Z) :
  Forall is_int8 l -> map astype_int8 l = l.
Proof.
  induction 1 as [|v l Hv _ IH]; [reflexivity|].
  simpl. rewrite astype_int8_id by exact Hv. rewrite IH. reflexivity.
Qed.

Lemma save_weights_length_check W1_q b1_q W2_q b2_q sc :
  save_weights W1_q b1_q W2_q b2_q sc = Raise AssertionError <->
  (length (concat W1_q) + length b1_q + length (concat W2_q) + length b2_q
   <> 212)%nat.
Proof.
  unfold save_weights. rewrite length_map, !length_app.
  destruct (Nat.eqb_spec
    (length (concat W1_q) + (length b1_q + (length (concat W2_q) + length b2_q)))
    212) as [E|E].
  - split; [discriminate | lia].
  - split; [lia | reflexivity].
Qed.

(** C3 (amended).  On the shapes (16,8), (16,), (4,16), (4,) the flat
    sequence has exactly 212 signed 8-bit entries: W1 row-major (128), b1
    (16), W2 row-major (64), b2 (4), in that order.  The size assertion
    fails exactly when the four tensors hold another number of entries than
    212 in total; shapes are not compared. *)
Theorem save_weights_layout W1_q b1_q W2_q b2_q sc :
  (has_shape 16 8 W1_q -> length b1_q = 16%nat ->
   has_shape 4 16 W2_q -> length b2_q = 4%nat ->
   Forall is_int8 (concat W1_q ++ b1_q ++ concat W2_q ++ b2_q) ->
   exists art,
     save_weights W1_q b1_q W2_q b2_q sc = Ok art /\
     all_weights art = concat W1_q ++ b1_q ++ concat W2_q ++ b2_q /\
     length (all_weights art) = 212%nat /\
     Forall is_int8 (all_weights art) /\
     length (concat W1_q) = 128%nat /\ length (concat W2_q) = 64%nat /\
     layer1_weights art = W1_q /\ layer1_biases art = b1_q /\
     layer2_weights art = W2_q /\ layer2_biases art = b2_q /\
     scales art = sc) /\
  (save_weights W1_q b1_q W2_q b2_q sc = Raise AssertionError <->
   (length (concat W1_q) + length b1_q + length (concat W2_q) + length b2_q
    <> 212)%nat) /\
  ((length (concat W1_q) + length b1_q + length (concat W2_q) + length b2_q
    = 212)%nat ->
   exists art, save_weights W1_q b1_q W2_q b2_q sc = Ok art).
Proof.
  split; [|split].
  - intros H1 Hb1 H2 Hb2 Hint.
    pose proof (length_concat_shape _ _ _ H1) as L1.
    pose proof (length_concat_shape _ _ _ H2) as L2.
    simpl in L1, L2.
    unfold save_weights.
    rewrite (map_astype_int8_id _ Hint).
    rewrite !length_app, L1, L2, Hb1, Hb2. simpl.
    eexists. split; [reflexivity|]. simpl.
    rewrite !length_app, L1, L2, Hb1, Hb2.
    split_and!; auto.
  - apply save_weights_length_check.
  - intros E. unfold save_weights. rewrite length_map, !length_app.
    replace (length (concat W1_q) + (length b1_q + (length (concat W2_q) + length b2_q)))%nat
      with 212%nat by lia.
    simpl. eexists. reflexivity.
Qed.

(** A witness for C3: all-zero tensors of the documented shapes. *)
Lemma save_weights_layout_witness :
  exists art,
    save_weights (repeat (repeat 0 8) 16) (repeat 0 16)
                 (repeat (repeat 0 16) 4) (repeat 0 4) [] = Ok art /\
    length (all_weights art) = 212%nat.
Proof.
  destruct (save_weights_layout (repeat (repeat 0 8) 16) (repeat 0 16)
              (repeat (repeat 0 16) 4) (repeat 0 4) []) as [H _].
  destruct H as (art & E & _ & L & _).
  - split; [reflexivity|]. repeat constructor.
  - reflexivity.
  - split; [reflexivity|]. repeat constructor.
  - reflexivity.
  - vm_compute. repeat constructor; discriminate.
  - exists art. split; assumption.
Defined.

(** The claim of C3 as written fails: with the two bias vectors exchanged
    (shapes (16,8), (4,), (4,16), (16,)) nothing is raised. *)
Lemma save_weights_accepts_other_shapes :
  length (repeat 0 4) = 4%nat /\ length (repeat 0 16) = 16%nat /\
  exists art,
    save_weights (repeat (repeat 1 8) 16) (repeat 0 4)
                 (repeat (repeat 1 16) 4) (repeat 0 16) [] = Ok art /\
    length (all_weights art) = 212%nat.
Proof.
  split; [reflexivity|]. split; [reflexivity|].
  eexists. split; reflexivity.
Qed.

(** ** Feature Source: the real-signal provider *)

Lemma Qgt_bool_true (a b : Q) : Qgt_bool a b = true <-> (b < a)%Q.
Proof.
  unfold Qgt_bool. rewrite negb_true_iff.
  split; intros H.
  - apply Qnot_le_lt. intros Hle. apply Qle_bool_iff in Hle. congruence.
  - destruct (Qle_bool a b) eqn:E; [|reflexivity].
    apply Qle_bool_iff in E. lra.
Qed.

Lemma Qgt_bool_false (a b : Q) : Qgt_bool a b = false <-> (a <= b)%Q.
Proof.
  unfold Qgt_bool. rewrite negb_false_iff. apply Qle_bool_iff.
Qed.

Lemma py_div_nonzero (a b : Q) : ~ (b == 0)%Q -> py_div a b = Ok (a / b)%Q.
Proof.
  intros Hb. unfold py_div. destruct (Qeq_bool b 0) eqn:E; [|reflexivity].
  apply Qeq_bool_iff in E. contradiction.
Qed.

(** The guard [total > 0] keeps the division away from a zero divisor: the
    extraction returns a feature vector of 8 entries for every spectrum. *)
Lemma features_from_magnitude_total (mag : list Q) :
  exists f, features_from_magnitude mag = Ok f /\ length f = 8%nat.
Proof.
  unfold features_from_magnitude.
  destruct (Qgt_bool (np_sum mag) 0) eqn:G.
  - apply Qgt_bool_true in G.
    rewrite py_div_nonzero by lra. simpl. eexists. split; reflexivity.
  - simpl. eexists. split; reflexivity.
Qed.

Lemma np_sum_zero (l : list Q) :
  Forall (fun m => (m == 0)%Q) l -> (np_sum l == 0)%Q.
Proof.
  induction 1 as [|m l Hm _ IH]; simpl; [reflexivity|].
  rewrite Hm, IH. reflexivity.
Qed.

(** C9.  A window whose 32-bin magnitude spectrum is all zero has centroid
    feature 0, and the extraction returns: the division by the total
    magnitude is not reached (and for no spectrum is it reached with a zero
    divisor). *)
Theorem centroid_of_zero_spectrum `{Numpy} (segment : list Q) :
  Forall (fun m => (m == 0)%Q) (firstn 32 (rfft_abs (firstn 64 segment))) ->
  (exists features,
     extract_features_from_signal segment = Ok features /\
     length features = 8%nat /\
     (nth 6 features 1 == 0)%Q) /\
  (forall seg, extract_features_from_signal seg <> Raise ZeroDivisionError).
Proof.
  intros Hz. split.
  - unfold extract_features_from_signal, features_from_magnitude.
    set (mag := firstn 32 (rfft_abs (firstn 64 segment))) in *.
    pose proof (np_sum_zero mag Hz) as Htot.
    assert (G : Qgt_bool (np_sum mag) 0 = false).
    { apply Qgt_bool_false. rewrite Htot. apply Qle_refl. }
    rewrite G. simpl. eexists. split; [reflexivity|].
    split; [reflexivity|]. simpl. ring.
  - intros seg. unfold extract_features_from_signal.
    destruct (features_from_magnitude_total (firstn 32 (rfft_abs (firstn 64 seg))))
      as (f & -> & _).
    discriminate.
Qed.

Lemma extract_features_total `{Numpy} (segment : list Q) :
  exists f, extract_features_from_signal segment = Ok f /\ length f = 8%nat.
Proof. apply features_from_magnitude_total. Qed.

(** The loop over windows, as the list of the features of the visited
    windows. *)
Lemma load_windows_loop `{Numpy} (signal : list Q) (label : Z)
    (idx : list nat) (X_all : list (list Q)) (y_all : list Z) :
  exists feats,
    fold_left
      (fun acc i =>
         let* (X_all, y_all) := acc in
         let seg := slice (i * hop) (i * hop + window_size) signal in
         let* features := extract_features_from_signal seg in
         Ok (X_all ++ [features], y_all ++ [label]))
      idx (Ok (X_all, y_all))
    = Ok (X_all ++ feats, y_all ++ repeat label (length idx)) /\
    Forall2 (fun i f =>
               extract_features_from_signal
                 (slice (i * hop) (i * hop + window_size) signal) = Ok f)
            idx feats.
Proof.
  revert X_all y_all. induction idx as [|i idx IH]; intros X_all y_all.
  - exists []. simpl. rewrite !app_nil_r. split; [reflexivity | constructor].
  - destruct (extract_features_total
                (slice (i * hop) (i * hop + window_size) signal)) as (f & Ef & _).
    destruct (IH (X_all ++ [f]) (y_all ++ [label])) as (feats & E & HF).
    exists (f :: feats). split.
    + match goal with |- context [fold_left ?f _ _] => set (step := f) in * end.
      assert (Step : step (Ok (X_all, y_all)) i = Ok (X_all ++ [f], y_all ++ [label])).
      { unfold step. cbn [bind]. rewrite Ef. reflexivity. }
      change (fold_left step (i :: idx) (Ok (X_all, y_all)))
        with (fold_left step idx (step (Ok (X_all, y_all)) i)).
      rewrite Step, E. rewrite <- !app_assoc. reflexivity.
    + constructor; assumption.
Qed.

Lemma n_windows_spec (len : nat) (i : nat) :
  (Z.of_nat i < n_windows len)%Z <-> (i * 512 + 1024 + 512 <= len)%nat.
Proof.
  unfold n_windows, window_size, hop.
  assert (H512 : (0 < 512)%Z) by lia.
  pose proof (Z.div_mod (Z.of_nat len - 1024) 512 ltac:(lia)) as Hdm.
  pose proof (Z.mod_pos_bound (Z.of_nat len - 1024) 512 H512) as Hmod.
  change (Z.of_nat 1024) with 1024%Z. change (Z.of_nat 512) with 512%Z.
  split; intros Hi; nia.
Qed.

Lemma in_py_range (n : Z) (i : nat) : In i (py_range n) <-> (Z.of_nat i < n)%Z.
Proof.
  unfold py_range. rewrite in_seq. lia.
Qed.

(** The offsets the loop visits are the multiples [s] of 512 with
    [s + 1024 + 512 <= len]. *)
Lemma window_starts_spec (len s : nat) :
  In s (window_starts len) <->
  (exists i, s = (i * 512)%nat) /\ (s + 1024 + 512 <= len)%nat.
Proof.
  unfold window_starts. rewrite in_map_iff. split.
  - intros (i & <- & Hi). apply in_py_range, n_windows_spec in Hi.
    unfold hop. split; [eauto | lia].
  - intros [[i ->] Hs]. exists i. split; [reflexivity|].
    apply in_py_range, n_windows_spec. lia.
Qed.

(** C5 (what the code does).  The loop produces one feature vector per
    start offset [0, 512, 1024, ...] with [start + 1024 + 512 <= len]: the
    window count is [(len - 1024) // 512], one less than the number of
    windows that fit.  A signal of exactly 1024 samples (and any signal
    shorter than 1536) produces no window. *)
Theorem load_windows_misses_last_window `{Numpy}
    (signal : list Q) (label : Z) (X_all : list (list Q)) (y_all : list Z) :
  (exists feats,
     load_windows signal label (X_all, y_all)
       = Ok (X_all ++ feats, y_all ++ repeat label (length feats)) /\
     Forall2 (fun s f =>
                extract_features_from_signal (slice s (s + 1024) signal) = Ok f)
             (window_starts (length signal)) feats) /\
  (forall s, In s (window_starts (length signal)) <->
             (exists i, s = (i * 512)%nat) /\
             (s + 1024 + 512 <= length signal)%nat) /\
  ((length signal < 1536)%nat ->
     window_starts (length signal) = [] /\
     load_windows signal label (X_all, y_all) = Ok (X_all, y_all)).
Proof.
  split; [|split].
  - unfold load_windows.
    destruct (load_windows_loop signal label
                (py_range (n_windows (length signal))) X_all y_all)
      as (feats & E & HF).
    assert (L : length feats = length (py_range (n_windows (length signal)))).
    { symmetry. eapply Forall2_length, HF. }
    exists feats. split; [rewrite L; exact E|].
    unfold window_starts. apply Forall2_fmap_l.
    eapply Forall2_impl; [exact HF|]. intros i f Hf. exact Hf.
  - intros s. apply window_starts_spec.
  - intros Hlen.
    assert (E : py_range (n_windows (length signal)) = []).
    { destruct (py_range (n_windows (length signal))) as [|i l] eqn:E; [reflexivity|].
      assert (Hi : In i (py_range (n_windows (length signal)))) by (rewrite E; left; reflexivity).
      apply in_py_range, n_windows_spec in Hi. lia. }
    unfold window_starts, load_windows. rewrite E. split; reflexivity.
Qed.

Example window_starts_1024 : window_starts 1024 = [].
Proof. reflexivity. Qed.

Example window_starts_2048 : window_starts 2048 = [0%nat; 512%nat].
Proof. reflexivity. Qed.

(** A witness for C9: the all-zero window under the reference spectrum. *)
Lemma centroid_of_zero_spectrum_witness :
  (exists features,
     @extract_features_from_signal reference_numpy (repeat 0%Q 1024) = Ok features /\
     length features = 8%nat /\
     (nth 6 features 1 == 0)%Q) /\
  (forall seg, @extract_features_from_signal reference_numpy seg
               <> Raise ZeroDivisionError).
Proof.
  apply (@centroid_of_zero_spectrum reference_numpy (repeat 0%Q 1024)).
  vm_compute. repeat constructor.
Defined.

(** ** Feature Source: the synthetic provider *)

(** Every documented range is non-empty and inside [0, 255]; there are
    eight per class. *)
Lemma class_ranges_ok (c : Z) :
  Forall range_ok (class_ranges c) /\ length (class_ranges c) = 8%nat.
Proof.
  unfold class_ranges.
  destruct (c =? 0); [|destruct (c =? 1); [|destruct (c =? 2)]];
    (split; [|reflexivity]);
    repeat constructor; simpl; discriminate.
Qed.

Lemma np_take_length {A : Type} (d : A) (idx : list nat) (l : list A) :
  length (np_take d idx l) = length idx.
Proof. apply length_map. Qed.

Lemma np_take_seq {A : Type} (d : A) (l : list A) :
  np_take d (seq 0 (length l)) l = l.
Proof.
  unfold np_take. apply nth_ext with (d := d) (d' := d).
  - rewrite length_map, length_seq. reflexivity.
  - intros i Hi. rewrite length_map, length_seq in Hi.
    rewrite (nth_indep _ d (nth 0 l d)) by (rewrite length_map, length_seq; exact Hi).
    rewrite (map_nth (fun i => nth i l d) (seq 0 (length l)) 0%nat i).
    rewrite seq_nth by exact Hi. reflexivity.
Qed.

(** Indexing by a permutation of the positions permutes the array. *)
Lemma np_take_permutation {A : Type} (d : A) (idx : list nat) (l : list A) :
  Permutation idx (seq 0 (length l)) -> Permutation (np_take d idx l) l.
Proof.
  intros Hp. rewrite <- (np_take_seq d l) at 2.
  unfold np_take. apply Permutation_map, Hp.
Qed.

Lemma np_take_Forall2 {A B : Type} (R : A -> B -> Prop) (da : A) (db : B)
    (idx : list nat) (la : list A) (lb : list B) :
  Forall2 R la lb ->
  Forall (fun i => (i < length la)%nat) idx ->
  Forall2 R (np_take da idx la) (np_take db idx lb).
Proof.
  intros HR Hidx. unfold np_take.
  induction Hidx as [|i idx Hi _ IH]; simpl; constructor; [|exact IH].
  clear IH. revert i Hi.
  induction HR as [|a b la lb Hab _ IH]; intros i Hi; simpl in *; [lia|].
  destruct i as [|i]; [exact Hab|]. apply IH. lia.
Qed.

Lemma Forall2_left_Forall {A B : Type} (R : A -> B -> Prop) (P : A -> Prop)
    (la : list A) (lb : list B) :
  Forall2 R la lb -> (forall a b, R a b -> P a) -> Forall P la.
Proof.
  intros HR HP. induction HR; constructor; eauto.
Qed.

Lemma draw_columns_spec `{Numpy} (ranges : list (Q * Q)) (n : nat) (s : rng_state) :
  Forall range_ok ranges ->
  Forall2 (fun col r => length col = n /\
                        Forall (fun v => (fst r <= v <= snd r)%Q) col)
          (fst (draw_columns ranges n s)) ranges.
Proof.
  intros Hok. revert s.
  induction Hok as [|[lo hi] ranges (H0 & Hle & H255) _ IH]; intros s.
  - constructor.
  - cbn [draw_columns].
    pose proof (uniform_length lo hi n s) as Hl.
    pose proof (uniform_range lo hi n s Hle) as Hr.
    destruct (uniform lo hi n s) as [col s1].
    specialize (IH s1).
    destruct (draw_columns ranges n s1) as [cols s2].
    cbn [fst] in *. constructor; [split; assumption | exact IH].
Qed.

Lemma column_stack_spec (P : Q * Q -> Q -> Prop) (n : nat)
    (cols : list (list Q)) (ranges : list (Q * Q)) :
  Forall2 (fun col r => length col = n /\ Forall (P r) col) cols ranges ->
  length (column_stack n cols) = n /\
  Forall (fun row => Forall2 (fun v r => P r v) row ranges) (column_stack n cols).
Proof.
  intros HF. unfold column_stack. split.
  - rewrite length_map, length_seq. reflexivity.
  - apply List.Forall_forall. intros row Hrow.
    apply in_map_iff in Hrow. destruct Hrow as (i & <- & Hi).
    apply in_seq in Hi.
    induction HF as [|col r cols ranges [Hlen Hcol] _ IH]; simpl; constructor.
    + rewrite List.Forall_forall in Hcol. apply Hcol, nth_In. lia.
    + exact IH.
Qed.

Lemma draw_classes_spec `{Numpy} (classes : list Z) (n : nat) (s : rng_state) :
  Forall2 (fun block c => length block = n /\
                          Forall (fun row => sample_in_class row c) block)
          (fst (fst (draw_classes classes n s))) classes /\
  snd (fst (draw_classes classes n s)) = map (fun c => repeat c n) classes.
Proof.
  revert s. induction classes as [|c classes IH]; intros s.
  - split; [constructor | reflexivity].
  - cbn [draw_classes].
    pose proof (draw_columns_spec (class_ranges c) n s
                  (proj1 (class_ranges_ok c))) as Hc.
    destruct (draw_columns (class_ranges c) n s) as [cols s1].
    specialize (IH s1).
    destruct (draw_classes classes n s1) as [[X_all y_all] s2].
    cbn [fst snd] in *. destruct IH as [IH1 IH2].
    apply (column_stack_spec (fun r v => (fst r <= v <= snd r)%Q)) in Hc.
    split; [constructor; [exact Hc | exact IH1] | rewrite IH2; reflexivity].
Qed.

Lemma blocks_concat_Forall2 (n : nat) (blocks : list (list (list Q)))
    (classes : list Z) :
  Forall2 (fun block c => length block = n /\
                          Forall (fun row => sample_in_class row c) block)
          blocks classes ->
  Forall2 sample_in_class (concat blocks)
          (concat (map (fun c => repeat c n) classes)).
Proof.
  induction 1 as [|block c blocks classes [Hlen Hblock] _ IH]; simpl.
  - constructor.
  - apply Forall2_app; [|exact IH].
    subst n. clear IH.
    induction Hblock as [|row block Hrow _ IHb]; simpl; constructor; assumption.
Qed.

Lemma sample_in_class_bounds (row : list Q) (c : Z) :
  sample_in_class row c ->
  length row = 8%nat /\ Forall (fun v => (0 <= v <= 255)%Q) row.
Proof.
  intros Hs. destruct (class_ranges_ok c) as [Hok Hlen].
  unfold sample_in_class in Hs. split.
  - rewrite <- Hlen. eapply Forall2_length, Hs.
  - revert Hok. generalize (class_ranges c) Hs. clear.
    intros ranges Hs.
    induction Hs as [|v r row ranges Hv _ IH]; intros Hok; constructor.
    + apply Forall_cons_1 in Hok as [(H0 & _ & H255) _]. lra.
    + apply IH. apply Forall_cons_1 in Hok as [_ Hok]. exact Hok.
Qed.

Lemma count_occ_class_blocks (n : nat) (c : Z) :
  In c [0; 1; 2; 3] ->
  count_occ Z.eq_dec (concat (map (fun c => repeat c n) [0; 1; 2; 3])) c = n.
Proof.
  intros Hc. cbn [concat map]. rewrite !count_occ_app. cbn [count_occ].
  simpl in Hc.
  destruct Hc as [<-|[<-|[<-|[<-|[]]]]];
    repeat first
      [ rewrite (count_occ_repeat_eq Z.eq_dec n eq_refl)
      | rewrite (count_occ_repeat_neq Z.eq_dec n) by discriminate ];
    lia.
Qed.

(** C8.  [generate_synthetic_data n seed] yields exactly [n] samples
    labelled [c] for each class [c] of 0..3, each sample lies in the ranges
    of its label so every feature is in [0, 255], and the result is a
    function of [n] and [seed] alone: the state of the process is neither
    read nor changed, and a second call returns the same dataset. *)
Theorem generate_synthetic_data_spec `{Numpy} (n : nat) (seed : Z) (p : process) :
  (forall c, In c [0; 1; 2; 3] ->
     count_occ Z.eq_dec (snd (fst (generate_synthetic_data n seed p))) c = n) /\
  length (snd (fst (generate_synthetic_data n seed p))) = (4 * n)%nat /\
  Forall2 sample_in_class
    (fst (fst (generate_synthetic_data n seed p)))
    (snd (fst (generate_synthetic_data n seed p))) /\
  Forall (fun row => length row = 8%nat /\ Forall (fun v => (0 <= v <= 255)%Q) row)
    (fst (fst (generate_synthetic_data n seed p))) /\
  snd (generate_synthetic_data n seed p) = p /\
  (forall p', fst (generate_synthetic_data n seed p')
              = fst (generate_synthetic_data n seed p)) /\
  fst (generate_synthetic_data n seed (snd (generate_synthetic_data n seed p)))
    = fst (generate_synthetic_data n seed p).
Proof.
  unfold generate_synthetic_data.
  pose proof (draw_classes_spec [0; 1; 2; 3] n (RandomState seed)) as [HX Hy].
  destruct (draw_classes [0; 1; 2; 3] n (RandomState seed)) as [[X_all y_all] rng].
  cbn [fst snd] in HX, Hy. subst y_all.
  pose proof (permutation_perm
    (length (concat (map (fun c => repeat c n) [0; 1; 2; 3]))) rng) as Hp.
  destruct (permutation _ rng) as [idx rng'].
  cbn [fst snd] in *.
  set (y := concat (map (fun c => repeat c n) [0; 1; 2; 3])) in *.
  assert (Hpairs : Forall2 sample_in_class (concat X_all) y)
    by (apply (blocks_concat_Forall2 n), HX).
  assert (Hlen : length y = (4 * n)%nat).
  { unfold y. simpl. rewrite !length_app, !repeat_length. simpl. lia. }
  assert (Htake : Forall2 sample_in_class (np_take [] idx (concat X_all)) (np_take 0 idx y)).
  { apply np_take_Forall2; [exact Hpairs|].
    rewrite (Forall2_length _ _ _ Hpairs).
    apply List.Forall_forall. intros i Hi.
    eapply Permutation_in in Hi; [|exact Hp]. apply in_seq in Hi. lia. }
  split_and!.
  - intros c Hc.
    rewrite (proj1 (Permutation_count_occ Z.eq_dec _ _) (np_take_permutation 0 idx y Hp)).
    apply count_occ_class_blocks, Hc.
  - rewrite np_take_length, (Permutation_length Hp), length_seq. exact Hlen.
  - exact Htake.
  - eapply Forall2_left_Forall; [exact Htake|].
    intros row c Hs. eapply sample_in_class_bounds, Hs.
  - reflexivity.
  - reflexivity.
  - reflexivity.
Qed.

(** Two samples per class from the reference generator: the labels after
    the shuffle. *)
Example generate_synthetic_data_labels :
  snd (fst (@generate_synthetic_data reference_numpy 2 42
              (@Build_process reference_numpy 1 true ∅)))
  = [3; 0; 0; 1; 1; 2; 2; 3].
Proof. vm_compute. reflexivity. Qed.

(** ** The real-signal provider and the generator of the process *)

Lemma collected_set_np_random `{Numpy} (data_dir : string) (p : process)
    (g : rng_state) :
  collected data_dir (set_np_random p g) = collected data_dir p.
Proof. reflexivity. Qed.

Lemma load_cwru_data_unfold `{Numpy} (data_dir : string) (p : process) :
  load_cwru_data data_dir p =
  if negb (scipy_installed p) then (Raise (SystemExit 1), p)
  else
    match collected data_dir p with
    | Raise e => (Raise e, p)
    | Ok (X_all, y_all) =>
        match X_all with
        | [] => (Raise (SystemExit 1), p)
        | _ :: _ =>
            (Ok (np_take [] (fst (permutation (length y_all) (np_random p)))
                      (fold_left normalize_column (seq 0 8) X_all),
                 np_take 0 (fst (permutation (length y_all) (np_random p))) y_all),
             set_np_random p (snd (permutation (length y_all) (np_random p))))
        end
    end.
Proof.
  unfold load_cwru_data, collected.
  destruct (negb (scipy_installed p)); [reflexivity|].
  destruct (fold_left _ file_class_map _) as [[X_all y_all]|e]; [|reflexivity].
  destruct X_all as [|row X_all]; [reflexivity|].
  destruct (permutation (length y_all) (np_random p)) as [idx g]. reflexivity.
Qed.

(** C2 (what the code does).  The dataset returned by [load_cwru_data] is
    the normalised data [Xn], [yn] indexed by the permutation drawn from the
    generator of the process, whatever its state [g], and the call advances
    that state: the order of the samples is a function of the state of the
    process, not of the directory alone. *)
Theorem load_cwru_data_draws_from_process_generator `{Numpy}
    (data_dir : string) (p : process) (X : list (list Q)) (y : list Z)
    (p' : process) :
  load_cwru_data data_dir p = (Ok (X, y), p') ->
  exists Xn yn,
    forall g,
      load_cwru_data data_dir (set_np_random p g) =
      (Ok (np_take [] (fst (permutation (length yn) g)) Xn,
           np_take 0 (fst (permutation (length yn) g)) yn),
       set_np_random p (snd (permutation (length yn) g))).
Proof.
  rewrite load_cwru_data_unfold.
  destruct (negb (scipy_installed p)) eqn:Hs; [discriminate|].
  destruct (collected data_dir p) as [[X_all y_all]|e] eqn:Hc; [|discriminate].
  destruct X_all as [|row X_all]; [discriminate|]. intros _.
  exists (fold_left normalize_column (seq 0 8) (row :: X_all)), y_all.
  intros g. rewrite load_cwru_data_unfold.
  cbn [scipy_installed set_np_random np_random].
  rewrite Hs, collected_set_np_random, Hc. reflexivity.
Qed.

(** A directory with two files of one window each (1536 samples). *)
Definition two_file_directory : gmap string mat_file :=
  <[ "data/Normal.mat"%string :=
       [("__header__"%string, []); ("X097_DE_time"%string, repeat 1%Q 1536)] ]>
  (<[ "data/B007.mat"%string :=
       [("X118_DE_time"%string, repeat 2%Q 1536)] ]> ∅).

Definition two_file_process (g : Z) : @process reference_numpy :=
  @Build_process reference_numpy g true two_file_directory.

(** A witness for C2, on the two-file directory. *)
Lemma load_cwru_data_draws_from_process_generator_witness :
  exists Xn yn,
    forall g,
      @load_cwru_data reference_numpy "data"
        (@set_np_random reference_numpy (two_file_process 1) g) =
      (Ok (np_take [] (fst (Reference.permutation (length yn) g)) Xn,
           np_take 0 (fst (Reference.permutation (length yn) g)) yn),
       @set_np_random reference_numpy (two_file_process 1)
         (snd (Reference.permutation (length yn) g))).
Proof.
  assert (Hok : match fst (@load_cwru_data reference_numpy "data" (two_file_process 1))
                with Ok _ => true | Raise _ => false end = true)
    by (vm_compute; reflexivity).
  destruct (@load_cwru_data reference_numpy "data" (two_file_process 1))
    as [[[X y]|e] p'] eqn:E.
  - exact (@load_cwru_data_draws_from_process_generator reference_numpy
             "data" (two_file_process 1) X y p' E).
  - discriminate Hok.
Defined.

(** Two calls over the same files, at two states of the generator of the
    process, return the samples in different orders. *)
Example load_cwru_data_order_depends_on_process :
  snd <$> (match fst (@load_cwru_data reference_numpy "data" (two_file_process 1))
           with Ok ds => Some ds | Raise _ => None end) = Some [0; 1] /\
  snd <$> (match fst (@load_cwru_data reference_numpy "data" (two_file_process 3))
           with Ok ds => Some ds | Raise _ => None end) = Some [1; 0].
Proof. vm_compute. split; reflexivity. Qed.

(** ** Model: the backward pass in closed form *)

Lemma nth_map_lt {A B : Type} (f : A -> B) (l : list A) (i : nat) (d : B) (d' : A) :
  (i < length l)%nat -> nth i (map f l) d = f (nth i l d').
Proof.
  intros Hi. rewrite (nth_indep _ d (f d')) by (rewrite length_map; exact Hi).
  apply map_nth.
Qed.

Lemma map_seq_nth {A B : Type} (f : A -> B) (l : list A) (d : A) :
  map f l = map (fun i => f (nth i l d)) (seq 0 (length l)).
Proof.
  rewrite <- (np_take_seq d l) at 1. unfold np_take. apply map_map.
Qed.

Lemma zip_with_seq {A B C : Type} (f : A -> B -> C) (da : A) (db : B)
    (a : list A) (b : list B) (k : nat) :
  length a = k -> length b = k ->
  zip_with f a b = map (fun t => f (nth t a da) (nth t b db)) (seq 0 k).
Proof.
  revert b k. induction a as [|x a IH]; intros b k Ha Hb; simpl in Ha; subst k.
  - reflexivity.
  - destruct b as [|y b]; [discriminate|]. simpl in Hb.
    cbn [zip_with length seq map nth]. f_equal.
    rewrite <- seq_shift, map_map. apply IH; [reflexivity | lia].
Qed.

Lemma has_shape_row {A : Type} (r c : nat) (M : list (list A)) (i : nat) :
  has_shape r c M -> (i < r)%nat -> length (nth i M []) = c.
Proof.
  intros [Hr Hc] Hi. rewrite List.Forall_forall in Hc.
  apply Hc, nth_In. lia.
Qed.

Lemma has_shape_ncols (r c : nat) (M : list (list Q)) :
  has_shape r c M -> (0 < r)%nat -> ncols M = c.
Proof.
  intros [Hr Hc] Hpos. destruct M as [|row M]; simpl in *; [lia|].
  apply Forall_cons_1 in Hc as [Hrow _]. exact Hrow.
Qed.

Lemma has_shape_map_map {A B : Type} (f : A -> B) (r c : nat) (M : list (list A)) :
  has_shape r c M -> has_shape r c (map (map f) M).
Proof.
  intros [Hr Hc]. split; [rewrite length_map; exact Hr|].
  apply List.Forall_forall. intros row Hrow.
  apply in_map_iff in Hrow. destruct Hrow as (row' & <- & Hin).
  rewrite length_map. rewrite List.Forall_forall in Hc. apply Hc, Hin.
Qed.

Lemma entry_map_map (f : Q -> Q) (r c : nat) (M : list (list Q)) (i j : nat) :
  has_shape r c M -> (i < r)%nat -> (j < c)%nat ->
  entry (map (map f) M) i j = f (entry M i j).
Proof.
  intros HM Hi Hj. unfold entry.
  rewrite (nth_map_lt (map f) M i [] []) by (destruct HM; lia).
  apply nth_map_lt. rewrite (has_shape_row r c M i HM Hi). exact Hj.
Qed.

Lemma column_length (j : nat) (M : list (list Q)) : length (column j M) = length M.
Proof. apply length_map. Qed.

Lemma column_nth (j : nat) (M : list (list Q)) (i : nat) :
  (i < length M)%nat -> nth i (column j M) 0%Q = entry M i j.
Proof.
  intros Hi. unfold column, entry.
  apply (nth_map_lt (fun row => nth j row 0%Q) M i 0%Q [] Hi).
Qed.

Lemma transpose_shape (r c : nat) (M : list (list Q)) :
  has_shape r c M -> (0 < r)%nat -> has_shape c r (transpose M).
Proof.
  intros HM Hpos. unfold transpose. rewrite (has_shape_ncols r c M HM Hpos).
  split; [rewrite length_map, length_seq; reflexivity|].
  apply List.Forall_forall. intros col Hcol.
  apply in_map_iff in Hcol. destruct Hcol as (j & <- & _).
  rewrite column_length. apply HM.
Qed.

Lemma transpose_row (r c : nat) (M : list (list Q)) (j : nat) :
  has_shape r c M -> (0 < r)%nat -> (j < c)%nat ->
  nth j (transpose M) [] = column j M.
Proof.
  intros HM Hpos Hj. unfold transpose. rewrite (has_shape_ncols r c M HM Hpos).
  rewrite (nth_map_lt (fun j => column j M) (seq 0 c) j [] 0%nat)
    by (rewrite length_seq; exact Hj).
  rewrite seq_nth by exact Hj. reflexivity.
Qed.

Lemma transpose_entry (r c : nat) (M : list (list Q)) (i j : nat) :
  has_shape r c M -> (i < r)%nat -> (j < c)%nat ->
  entry (transpose M) j i = entry M i j.
Proof.
  intros HM Hi Hj. unfold entry at 1.
  rewrite (transpose_row r c M j HM ltac:(lia) Hj).
  apply column_nth. destruct HM; lia.
Qed.

Lemma dot_big_sum (a b : list Q) (k : nat) :
  length a = k -> length b = k ->
  dot a b = big_sum k (fun t => (nth t a 0 * nth t b 0)%Q).
Proof.
  intros Ha Hb. unfold dot, big_sum.
  rewrite (zip_with_seq Qmult 0%Q 0%Q a b k Ha Hb). reflexivity.
Qed.

Lemma big_sum_ext (n : nat) (f g : nat -> Q) :
  (forall i, (i < n)%nat -> f i = g i) -> big_sum n f = big_sum n g.
Proof.
  intros H. unfold big_sum. f_equal. apply map_ext_in.
  intros i Hi. apply in_seq in Hi. apply H. lia.
Qed.

Lemma matmul_shape (n k k' m : nat) (A B : list (list Q)) :
  has_shape n k A -> has_shape k' m B -> (0 < k')%nat ->
  has_shape n m (matmul A B).
Proof.
  intros HA HB Hpos. unfold matmul.
  split; [rewrite length_map; apply HA|].
  apply List.Forall_forall. intros row Hrow.
  apply in_map_iff in Hrow. destruct Hrow as (a & <- & _).
  rewrite length_map. apply (transpose_shape k' m B HB Hpos).
Qed.

Lemma matmul_entry (n k m : nat) (A B : list (list Q)) (i j : nat) :
  has_shape n k A -> has_shape k m B -> (0 < k)%nat ->
  (i < n)%nat -> (j < m)%nat ->
  entry (matmul A B) i j = big_sum k (fun t => (entry A i t * entry B t j)%Q).
Proof.
  intros HA HB Hpos Hi Hj. unfold entry at 1, matmul.
  rewrite (nth_map_lt _ A i [] []) by (destruct HA; lia).
  rewrite (nth_map_lt (dot (nth i A [])) (transpose B) j 0%Q [])
    by (rewrite (proj1 (transpose_shape k m B HB Hpos)); exact Hj).
  rewrite (transpose_row k m B j HB Hpos Hj).
  rewrite (dot_big_sum _ _ k (has_shape_row n k A i HA Hi))
    by (rewrite column_length; apply HB).
  apply big_sum_ext. intros t Ht.
  rewrite column_nth by (destruct HB; lia). reflexivity.
Qed.

Lemma sum_axis0_length (n c : nat) (M : list (list Q)) :
  has_shape n c M -> (0 < n)%nat -> length (sum_axis0 M) = c.
Proof.
  intros HM Hpos. unfold sum_axis0. rewrite length_map.
  apply (transpose_shape n c M HM Hpos).
Qed.

Lemma sum_axis0_entry (n c : nat) (M : list (list Q)) (j : nat) :
  has_shape n c M -> (0 < n)%nat -> (j < c)%nat ->
  nth j (sum_axis0 M) 0%Q = big_sum n (fun i => entry M i j).
Proof.
  intros HM Hpos Hj. unfold sum_axis0.
  rewrite (nth_map_lt np_sum (transpose M) j 0%Q [])
    by (rewrite (proj1 (transpose_shape n c M HM Hpos)); exact Hj).
  rewrite (transpose_row n c M j HM Hpos Hj).
  unfold column, big_sum, entry.
  rewrite (map_seq_nth (fun row => nth j row 0%Q) M []).
  destruct HM as [-> _]. reflexivity.
Qed.

Lemma nth_insert (row : list Q) (j c : nat) (v d : Q) :
  (j < length row)%nat ->
  nth c (<[j := v]> row) d = if (c =? j)%nat then v else nth c row d.
Proof.
  intros Hj. rewrite !nth_lookup.
  destruct (Nat.eqb_spec c j) as [->|Hne].
  - rewrite list_lookup_insert_eq by exact Hj. reflexivity.
  - rewrite list_lookup_insert_ne by congruence. reflexivity.
Qed.

Lemma np_index_in_range (len : nat) (l : Z) :
  0 <= l < Z.of_nat len -> np_index len l = Ok (Z.to_nat l).
Proof.
  intros H. unfold np_index.
  destruct (Z.leb_spec 0 l); [|lia]. destruct (Z.ltb_spec l (Z.of_nat len)); [|lia].
  reflexivity.
Qed.

(** The decrement at the true-label column, entry by entry. *)
Lemma fancy_decrement_spec (rows : list (list Q)) (labels : list Z) (C : nat) :
  has_shape (length labels) C rows ->
  Forall (fun l => 0 <= l < Z.of_nat C) labels ->
  exists dz,
    fancy_decrement rows labels = Ok dz /\ has_shape (length labels) C dz /\
    forall i c, (i < length labels)%nat -> (c < C)%nat ->
      entry dz i c =
      if Z.of_nat c =? nth i labels 0 then (entry rows i c - 1)%Q
      else entry rows i c.
Proof.
  revert rows. induction labels as [|l labels IH]; intros rows HS Hlab.
  - exists rows. split; [destruct rows; reflexivity|].
    split; [exact HS|]. intros i c Hi. simpl in Hi. lia.
  - destruct HS as [Hr Hc].
    destruct rows as [|r rs]; [discriminate|].
    apply Forall_cons_1 in Hc as [Hrlen Hc].
    apply Forall_cons_1 in Hlab as [Hl Hlab].
    simpl in Hr.
    destruct (IH rs) as (dz & E & HSdz & Hent);
      [split; [lia | exact Hc] | exact Hlab |].
    cbn [fancy_decrement]. unfold decrement_at.
    rewrite Hrlen, (np_index_in_range C l Hl). cbn [bind]. rewrite E. cbn [bind].
    eexists. split; [reflexivity|]. split.
    + destruct HSdz as [Hd1 Hd2]. split; [simpl; lia|].
      constructor; [rewrite length_insert; exact Hrlen | exact Hd2].
    + intros i c Hi Hcc. destruct i as [|i].
      * unfold entry. cbn [nth].
        rewrite nth_insert by lia.
        destruct (Nat.eqb_spec c (Z.to_nat l)) as [->|Hne].
        -- rewrite Z2Nat.id by lia. rewrite Z.eqb_refl. reflexivity.
        -- destruct (Z.eqb_spec (Z.of_nat c) l) as [<-|_]; [|reflexivity].
           rewrite Nat2Z.id in Hne. congruence.
      * simpl in Hi. specialize (Hent i c ltac:(lia) Hcc).
        unfold entry in *. cbn [nth]. exact Hent.
Qed.

Lemma zip_with2_shape (f : Q -> Q -> Q) (n c : nat) (A B : list (list Q)) :
  has_shape n c A -> has_shape n c B ->
  has_shape n c (zip_with (zip_with f) A B).
Proof.
  intros HA HB.
  rewrite (zip_with_seq (zip_with f) [] [] A B n (proj1 HA) (proj1 HB)).
  split; [rewrite length_map, length_seq; reflexivity|].
  apply List.Forall_forall. intros row Hrow.
  apply in_map_iff in Hrow. destruct Hrow as (i & <- & Hi). apply in_seq in Hi.
  rewrite (zip_with_seq f 0%Q 0%Q _ _ c
             (has_shape_row n c A i HA ltac:(lia))
             (has_shape_row n c B i HB ltac:(lia))).
  rewrite length_map, length_seq. reflexivity.
Qed.

Lemma zip_with2_entry (f : Q -> Q -> Q) (n c : nat) (A B : list (list Q)) (i j : nat) :
  has_shape n c A -> has_shape n c B -> (i < n)%nat -> (j < c)%nat ->
  entry (zip_with (zip_with f) A B) i j = f (entry A i j) (entry B i j).
Proof.
  intros HA HB Hi Hj. unfold entry.
  rewrite (zip_with_seq (zip_with f) [] [] A B n (proj1 HA) (proj1 HB)).
  rewrite (nth_map_lt _ (seq 0 n) i [] 0%nat) by (rewrite length_seq; exact Hi).
  rewrite seq_nth by exact Hi. cbn [Nat.add].
  rewrite (zip_with_seq f 0%Q 0%Q _ _ c
             (has_shape_row n c A i HA Hi) (has_shape_row n c B i HB Hi)).
  rewrite (nth_map_lt _ (seq 0 c) j 0%Q 0%nat) by (rewrite length_seq; exact Hj).
  rewrite seq_nth by exact Hj. reflexivity.
Qed.

Lemma relu_grad_entry (n c : nat) (z : list (list Q)) (i j : nat) :
  has_shape n c z -> (i < n)%nat -> (j < c)%nat ->
  entry (relu_grad z) i j = reluGrad_spec (entry z i j).
Proof.
  intros Hz Hi Hj. unfold relu_grad.
  rewrite (entry_map_map _ n c z i j Hz Hi Hj). unfold reluGrad_spec.
  destruct (Qgt_bool (entry z i j) 0) eqn:G.
  - apply Qgt_bool_true in G. destruct (Qlt_le_dec 0 (entry z i j)); [reflexivity | lra].
  - apply Qgt_bool_false in G. destruct (Qlt_le_dec 0 (entry z i j)); [lra | reflexivity].
Qed.

(** C6.  For a batch [X] of [n > 0] rows with one label in range per row,
    [backward] returns gradients of the shapes of the parameters whose
    entries are the closed forms: [dz2] is [probs] with 1 subtracted at each
    row's true-label column, divided by the batch size; [dW2 = dz2^T . h1];
    [db2] the column sums of [dz2]; [dh1 = dz2 . W2]; [dz1 = dh1] times
    [reluGrad(z1)] element-wise; [dW1 = dz1^T . X]; [db1] the column sums of
    [dz1]. *)
Theorem backward_closed_form (n d hd C : nat)
    (X z1 h1 probs : list (list Q)) (labels : list Z) (W2 : list (list Q)) :
  (0 < n)%nat ->
  has_shape n d X -> has_shape n hd z1 -> has_shape n hd h1 ->
  has_shape n C probs -> has_shape C hd W2 ->
  length labels = n -> Forall (fun l => 0 <= l < Z.of_nat C) labels ->
  exists dW1 db1 dW2 db2,
    backward X z1 h1 probs labels W2 = Ok (dW1, db1, dW2, db2) /\
    has_shape hd d dW1 /\ length db1 = hd /\
    has_shape C hd dW2 /\ length db2 = C /\
    (forall c j, (c < C)%nat -> (j < hd)%nat ->
       entry dW2 c j = dW2_spec h1 probs labels n c j) /\
    (forall c, (c < C)%nat -> nth c db2 0%Q = db2_spec probs labels n c) /\
    (forall j m, (j < hd)%nat -> (m < d)%nat ->
       entry dW1 j m = dW1_spec X z1 probs W2 labels n C j m) /\
    (forall j, (j < hd)%nat ->
       nth j db1 0%Q = db1_spec z1 probs W2 labels n C j).
Proof.
  intros Hn HX Hz1 Hh1 Hp HW2 Hlen Hlab.
  assert (HC : (0 < C)%nat).
  { destruct labels as [|l ls]; [simpl in Hlen; lia|].
    apply Forall_cons_1 in Hlab as [Hl _]. lia. }
  subst n.
  destruct (fancy_decrement_spec probs labels C Hp Hlab)
    as (dz & Edz & Hdz & Hent).
  set (n := length labels) in *.
  unfold backward. rewrite (proj1 HX), Nat.eqb_refl. cbn [negb].
  rewrite Edz. cbn [bind].
  set (dz2 := map (map (fun v => (v / inject_Z (Z.of_nat n))%Q)) dz).
  assert (Hdz2 : has_shape n C dz2) by (apply has_shape_map_map, Hdz).
  assert (Edz2 : forall i c, (i < n)%nat -> (c < C)%nat ->
            entry dz2 i c = dz2_spec probs labels n i c).
  { intros i c Hi Hc. unfold dz2.
    rewrite (entry_map_map _ n C dz i c Hdz Hi Hc), (Hent i c Hi Hc).
    unfold dz2_spec. reflexivity. }
  assert (HdzT : has_shape C n (transpose dz2)) by (apply transpose_shape; assumption).
  set (dh1 := matmul dz2 W2).
  assert (Hdh1 : has_shape n hd dh1) by (eapply matmul_shape; eassumption).
  assert (Edh1 : forall i j, (i < n)%nat -> (j < hd)%nat ->
            entry dh1 i j = dh1_spec probs W2 labels n C i j).
  { intros i j Hi Hj. unfold dh1.
    rewrite (matmul_entry n C hd dz2 W2 i j Hdz2 HW2 HC Hi Hj).
    apply big_sum_ext. intros c Hc. rewrite (Edz2 i c Hi Hc). reflexivity. }
  set (dz1 := zip_with (zip_with Qmult) dh1 (relu_grad z1)).
  assert (Hrg : has_shape n hd (relu_grad z1)) by (apply has_shape_map_map, Hz1).
  assert (Hdz1 : has_shape n hd dz1) by (apply zip_with2_shape; assumption).
  assert (Edz1 : forall i j, (i < n)%nat -> (j < hd)%nat ->
            entry dz1 i j = dz1_spec z1 probs W2 labels n C i j).
  { intros i j Hi Hj. unfold dz1.
    rewrite (zip_with2_entry Qmult n hd dh1 (relu_grad z1) i j Hdh1 Hrg Hi Hj).
    rewrite (Edh1 i j Hi Hj), (relu_grad_entry n hd z1 i j Hz1 Hi Hj).
    reflexivity. }
  assert (Hdz1T : has_shape hd n (transpose dz1)) by (apply transpose_shape; assumption).
  eexists _, _, _, _. split; [reflexivity|].
  split_and!.
  - eapply matmul_shape; eassumption.
  - eapply sum_axis0_length; eassumption.
  - eapply matmul_shape; eassumption.
  - eapply sum_axis0_length; eassumption.
  - intros c j Hc Hj.
    rewrite (matmul_entry C n hd (transpose dz2) h1 c j HdzT Hh1 Hn Hc Hj).
    apply big_sum_ext. intros i Hi.
    rewrite (transpose_entry n C dz2 i c Hdz2 Hi Hc), (Edz2 i c Hi Hc). reflexivity.
  - intros c Hc. rewrite (sum_axis0_entry n C dz2 c Hdz2 Hn Hc).
    apply big_sum_ext. intros i Hi. apply Edz2; assumption.
  - intros j m Hj Hm.
    rewrite (matmul_entry hd n d (transpose dz1) X j m Hdz1T HX Hn Hj Hm).
    apply big_sum_ext. intros i Hi.
    rewrite (transpose_entry n hd dz1 i j Hdz1 Hi Hj), (Edz1 i j Hi Hj). reflexivity.
  - intros j Hj. rewrite (sum_axis0_entry n hd dz1 j Hdz1 Hn Hj).
    apply big_sum_ext. intros i Hi. apply Edz1; assumption.
Qed.

(** A witness for C6: a batch of two samples, two inputs, two hidden units
    and two classes. *)
Lemma backward_closed_form_witness :
  exists dW1 db1 dW2 db2,
    backward [[1; 2]; [3; 4]]%Q [[1; -1]; [0; 2]]%Q [[1; 0]; [0; 2]]%Q
             [[1 # 2; 1 # 2]; [1 # 4; 3 # 4]]%Q [0; 1] [[1; 2]; [3; 4]]%Q
      = Ok (dW1, db1, dW2, db2) /\
    has_shape 2 2 dW1 /\ length db1 = 2%nat /\
    has_shape 2 2 dW2 /\ length db2 = 2%nat /\
    (forall c j, (c < 2)%nat -> (j < 2)%nat ->
       entry dW2 c j =
       dW2_spec [[1; 0]; [0; 2]]%Q [[1 # 2; 1 # 2]; [1 # 4; 3 # 4]]%Q [0; 1] 2 c j) /\
    (forall c, (c < 2)%nat ->
       nth c db2 0%Q = db2_spec [[1 # 2; 1 # 2]; [1 # 4; 3 # 4]]%Q [0; 1] 2 c) /\
    (forall j m, (j < 2)%nat -> (m < 2)%nat ->
       entry dW1 j m =
       dW1_spec [[1; 2]; [3; 4]]%Q [[1; -1]; [0; 2]]%Q
                [[1 # 2; 1 # 2]; [1 # 4; 3 # 4]]%Q [[1; 2]; [3; 4]]%Q [0; 1] 2 2 j m) /\
    (forall j, (j < 2)%nat ->
       nth j db1 0%Q =
       db1_spec [[1; -1]; [0; 2]]%Q [[1 # 2; 1 # 2]; [1 # 4; 3 # 4]]%Q
                [[1; 2]; [3; 4]]%Q [0; 1] 2 2 j).
Proof.
  apply (backward_closed_form 2 2 2 2);
    try (split; [reflexivity | repeat constructor]).
  - lia.
  - reflexivity.
  - repeat constructor; lia.
Defined.

(** The gradient of the output bias on that batch: the column sums of
    [(probs - onehot) / 2]. *)
Example backward_example_db2 :
  match backward [[1; 2]; [3; 4]]%Q [[1; -1]; [0; 2]]%Q [[1; 0]; [0; 2]]%Q
                 [[1 # 2; 1 # 2]; [1 # 4; 3 # 4]]%Q [0; 1] [[1; 2]; [3; 4]]%Q with
  | Ok (_, _, _, db2) => map Qred db2 = [(-1 # 8)%Q; (1 # 8)%Q]
  | Raise _ => False
  end.
Proof. vm_compute. reflexivity. Qed.

(** A forward pass by hand: [z1 = X.W1^T + b1], [h1 = relu z1],
    [z2 = h1.W2^T + b2]. *)
Example forward_example :
  fst (@forward reference_numpy [[1; 2]]%Q [[1; 0]; [0; 1]; [1; 1]]%Q
         [0; 0; -10]%Q [[1; 1; 1]; [0; 1; 0]]%Q [0; 0]%Q)
  = ([[1; 2; -7]]%Q, [[1; 2; 0]]%Q, [[3; 2]]%Q).
Proof. vm_compute. reflexivity. Qed.

(** ** Trainer: the store of parameter arrays *)

Lemma wf_params_allocated (h : store) (w : params) :
  wf_params h w -> allocated h w.
Proof.
  intros (_ & (W1 & E1 & _) & (b1 & E2 & _) & (W2 & E3 & _) & (b2 & E4 & _)).
  intros r [<-|[<-|[<-|[<-|[]]]]]; congruence.
Qed.

Lemma alloc_spec (h : store) (a : ndarray) (r : nat) (h' : store) :
  alloc h a = (r, h') -> h !! r = None /\ h' = <[r := a]> h.
Proof.
  unfold alloc. intros [= <- <-]. split; [|reflexivity].
  apply not_elem_of_dom, is_fresh.
Qed.

Lemma copy_spec (h : store) (r c : nat) (h' : store) :
  copy h r = (c, h') ->
  h !! c = None /\ h' = <[c := default (Vec []) (h !! r)]> h.
Proof.
  unfold copy. destruct (h !! r) as [a|]; apply alloc_spec.
Qed.

Lemma read_mat_default (h h' : store) (r c : nat) :
  h' !! c = Some (default (Vec []) (h !! r)) -> read_mat h' c = read_mat h r.
Proof.
  unfold read_mat. intros ->. destruct (h !! r) as [[v|m]|]; reflexivity.
Qed.

Lemma read_vec_default (h h' : store) (r c : nat) :
  h' !! c = Some (default (Vec []) (h !! r)) -> read_vec h' c = read_vec h r.
Proof.
  unfold read_vec. intros ->. destruct (h !! r) as [[v|m]|]; reflexivity.
Qed.

(** The four copies are new arrays, distinct from each other, holding the
    values of the originals; nothing else changes. *)
Lemma copy_params_spec (h : store) (w b : params) (h' : store) :
  allocated h w ->
  copy_params h w = (b, h') ->
  fresh_for h b /\ NoDup (refs_of b) /\ preserves_outside b h h' /\
  allocated h' b /\
  read_params h' b = read_params h w /\
  (forall r, In r (refs_of b) ->
     exists r0, In r0 (refs_of w) /\ h' !! r = h !! r0).
Proof.
  intros Hall. unfold copy_params.
  destruct (copy h (rW1 w)) as [c1 h1] eqn:E1.
  destruct (copy h1 (rb1 w)) as [c2 h2] eqn:E2.
  destruct (copy h2 (rW2 w)) as [c3 h3] eqn:E3.
  destruct (copy h3 (rb2 w)) as [c4 h4] eqn:E4.
  intros [= <- <-].
  apply copy_spec in E1 as [F1 ->]. apply copy_spec in E2 as [F2 ->].
  apply copy_spec in E3 as [F3 ->]. apply copy_spec in E4 as [F4 ->].
  assert (A1 : h !! rW1 w <> None) by (apply Hall; simpl; auto).
  assert (A2 : h !! rb1 w <> None) by (apply Hall; simpl; auto).
  assert (A3 : h !! rW2 w <> None) by (apply Hall; simpl; auto).
  assert (A4 : h !! rb2 w <> None) by (apply Hall; simpl; auto).
  assert (N12 : c1 <> c2) by (intros ->; rewrite lookup_insert_eq in F2; discriminate).
  rewrite lookup_insert_ne in F2 by exact N12.
  assert (N23 : c2 <> c3) by (intros ->; rewrite lookup_insert_eq in F3; discriminate).
  rewrite lookup_insert_ne in F3 by exact N23.
  assert (N13 : c1 <> c3) by (intros ->; rewrite lookup_insert_eq in F3; discriminate).
  rewrite lookup_insert_ne in F3 by exact N13.
  assert (N34 : c3 <> c4) by (intros ->; rewrite lookup_insert_eq in F4; discriminate).
  rewrite lookup_insert_ne in F4 by exact N34.
  assert (N24 : c2 <> c4) by (intros ->; rewrite lookup_insert_eq in F4; discriminate).
  rewrite lookup_insert_ne in F4 by exact N24.
  assert (N14 : c1 <> c4) by (intros ->; rewrite lookup_insert_eq in F4; discriminate).
  rewrite lookup_insert_ne in F4 by exact N14.
  assert (V2 : <[c1 := default (Vec []) (h !! rW1 w)]> h !! rb1 w = h !! rb1 w)
    by (apply lookup_insert_ne; congruence).
  rewrite V2 in *.
  assert (V3 : <[c2 := default (Vec []) (h !! rb1 w)]>
                 (<[c1 := default (Vec []) (h !! rW1 w)]> h) !! rW2 w = h !! rW2 w)
    by (rewrite !lookup_insert_ne by congruence; reflexivity).
  rewrite V3 in *.
  assert (V4 : <[c3 := default (Vec []) (h !! rW2 w)]>
                 (<[c2 := default (Vec []) (h !! rb1 w)]>
                    (<[c1 := default (Vec []) (h !! rW1 w)]> h)) !! rb2 w = h !! rb2 w)
    by (rewrite !lookup_insert_ne by congruence; reflexivity).
  rewrite V4 in *.
  set (hf := <[c4 := _]> _).
  assert (L1 : hf !! c1 = Some (default (Vec []) (h !! rW1 w))).
  { unfold hf. rewrite !lookup_insert_ne by congruence. apply lookup_insert_eq. }
  assert (L2 : hf !! c2 = Some (default (Vec []) (h !! rb1 w))).
  { unfold hf. rewrite !lookup_insert_ne by congruence. apply lookup_insert_eq. }
  assert (L3 : hf !! c3 = Some (default (Vec []) (h !! rW2 w))).
  { unfold hf. rewrite !lookup_insert_ne by congruence. apply lookup_insert_eq. }
  assert (L4 : hf !! c4 = Some (default (Vec []) (h !! rb2 w))).
  { unfold hf. apply lookup_insert_eq. }
  split_and!.
  - intros r [<-|[<-|[<-|[<-|[]]]]]; assumption.
  - unfold refs_of. cbn [rW1 rb1 rW2 rb2].
    repeat (apply NoDup_cons_2;
            [rewrite list_elem_of_In; simpl; intuition congruence|]).
    apply NoDup_nil_2.
  - intros r Hr. unfold refs_of in Hr. cbn [rW1 rb1 rW2 rb2 In] in Hr.
    unfold hf. rewrite !lookup_insert_ne by (intros ->; tauto). reflexivity.
  - intros r [<-|[<-|[<-|[<-|[]]]]]; cbn [rW1 rb1 rW2 rb2]; congruence.
  - unfold read_params. cbn [rW1 rb1 rW2 rb2].
    rewrite (read_mat_default h hf _ _ L1), (read_vec_default h hf _ _ L2),
            (read_mat_default h hf _ _ L3), (read_vec_default h hf _ _ L4).
    reflexivity.
  - intros r [<-|[<-|[<-|[<-|[]]]]]; cbn [rW1 rb1 rW2 rb2].
    + exists (rW1 w). split; [simpl; auto|]. rewrite L1.
      destruct (h !! rW1 w); [reflexivity | contradiction].
    + exists (rb1 w). split; [simpl; auto|]. rewrite L2.
      destruct (h !! rb1 w); [reflexivity | contradiction].
    + exists (rW2 w). split; [simpl; auto|]. rewrite L3.
      destruct (h !! rW2 w); [reflexivity | contradiction].
    + exists (rb2 w). split; [simpl; auto|]. rewrite L4.
      destruct (h !! rb2 w); [reflexivity | contradiction].
Qed.

Lemma vec_isub_length (a d : list Q) : length (vec_isub a d) = length a.
Proof. apply length_imap. Qed.

Lemma imap_Forall_length (c : nat) (f : nat -> list Q -> list Q) (m : list (list Q)) :
  (forall i row, length (f i row) = length row) ->
  Forall (fun row => length row = c) m ->
  Forall (fun row => length row = c) (imap f m).
Proof.
  intros Hf Hm. revert f Hf.
  induction Hm as [|row m Hrow _ IH]; intros f Hf; [constructor|].
  rewrite imap_cons. constructor.
  - rewrite Hf. exact Hrow.
  - apply IH. intros i r. apply Hf.
Qed.

(** An in-place update keeps the shape of the array it updates. *)
Lemma mat_isub_shape (r c : nat) (A D : list (list Q)) :
  has_shape r c A -> has_shape r c (mat_isub A D).
Proof.
  intros [Hr Hc]. unfold mat_isub. split; [rewrite length_imap; exact Hr|].
  apply imap_Forall_length; [|exact Hc].
  intros i row. apply vec_isub_length.
Qed.

Lemma isub_lookup_ne (h : store) (r : nat) (d : ndarray) (x : nat) :
  x <> r -> isub h r d !! x = h !! x.
Proof.
  intros Hne. unfold isub.
  destruct (h !! r) as [[v|m]|]; destruct d as [dv|dm]; try reflexivity;
    apply lookup_insert_ne; congruence.
Qed.

Lemma isub_lookup_mat (h : store) (r : nat) (m dm : list (list Q)) :
  h !! r = Some (Mat m) -> isub h r (Mat dm) !! r = Some (Mat (mat_isub m dm)).
Proof. intros E. unfold isub. rewrite E. apply lookup_insert_eq. Qed.

Lemma isub_lookup_vec (h : store) (r : nat) (v dv : list Q) :
  h !! r = Some (Vec v) -> isub h r (Vec dv) !! r = Some (Vec (vec_isub v dv)).
Proof. intros E. unfold isub. rewrite E. apply lookup_insert_eq. Qed.

(** ** Trainer: one batch *)

Lemma matmul_shape_gen (A B : list (list Q)) :
  has_shape (length A) (ncols B) (matmul A B).
Proof.
  unfold matmul. split; [apply length_map|].
  apply List.Forall_forall. intros row Hrow.
  apply in_map_iff in Hrow. destruct Hrow as (a & <- & _).
  unfold transpose. rewrite !length_map, length_seq. reflexivity.
Qed.

Lemma add_rows_shape (r c : nat) (M : list (list Q)) (b : list Q) :
  has_shape r c M -> length b = c -> has_shape r c (add_rows M b).
Proof.
  intros [Hr Hc] Hb. unfold add_rows. split; [rewrite length_map; exact Hr|].
  apply List.Forall_forall. intros row Hrow.
  apply in_map_iff in Hrow. destruct Hrow as (a & <- & Ha).
  rewrite List.Forall_forall in Hc.
  rewrite length_zip_with, (Hc a Ha), Hb. lia.
Qed.

Lemma softmax_shape `{Numpy} (r c : nat) (z : list (list Q)) :
  has_shape r c z -> has_shape r c (softmax z).
Proof.
  intros [Hr Hc]. unfold softmax. split; [rewrite length_map; exact Hr|].
  apply List.Forall_forall. intros row Hrow.
  apply in_map_iff in Hrow. destruct Hrow as (a & <- & Ha).
  rewrite List.Forall_forall in Hc. rewrite !length_map. apply Hc, Ha.
Qed.

(** The class probabilities have one row per sample and one column per row
    of [W2]. *)
Lemma forward_probs_shape `{Numpy} (X W1 : list (list Q)) (b1 : list Q)
    (W2 : list (list Q)) (b2 : list Q) :
  has_shape 4 16 W2 -> length b2 = 4%nat ->
  has_shape (length X) 4 (snd (forward X W1 b1 W2 b2)).
Proof.
  intros HW2 Hb2. unfold forward. cbn [snd].
  apply softmax_shape, add_rows_shape; [|exact Hb2].
  pose proof (matmul_shape_gen (relu (add_rows (matmul X (transpose W1)) b1))
                               (transpose W2)) as HS.
  rewrite (has_shape_ncols 16 4 (transpose W2)) in HS
    by (try apply transpose_shape; try exact HW2; lia).
  replace (length (relu (add_rows (matmul X (transpose W1)) b1)))
    with (length X) in HS
    by (unfold relu, add_rows, matmul; rewrite !length_map; reflexivity).
  exact HS.
Qed.

Lemma backward_ok (X z1 h1 probs : list (list Q)) (labels : list Z)
    (W2 : list (list Q)) (C : nat) :
  length labels = length X ->
  has_shape (length labels) C probs ->
  Forall (fun l => 0 <= l < Z.of_nat C) labels ->
  exists g, backward X z1 h1 probs labels W2 = Ok g.
Proof.
  intros Hlen Hp Hlab.
  destruct (fancy_decrement_spec probs labels C Hp Hlab) as (dz & E & _).
  unfold backward. rewrite Hlen, Nat.eqb_refl. cbn [negb].
  rewrite E. cbn [bind]. eexists. reflexivity.
Qed.

(** A batch step succeeds on labelled rows, keeps the shapes of the working
    arrays and writes no other array. *)
Lemma sgd_batch_spec `{Numpy} (w : params) (lr : Q) (Xb : list (list Q))
    (yb : list Z) (h : store) :
  wf_params h w -> length yb = length Xb -> Forall label_ok yb ->
  exists h', sgd_batch w lr Xb yb h = Ok h' /\ wf_params h' w /\
             preserves_outside w h h'.
Proof.
  intros (Hnd & (W1 & E1 & S1) & (b1 & E2 & S2) & (W2 & E3 & S3) & (b2 & E4 & S4))
         Hlen Hlab.
  unfold sgd_batch, read_mat, read_vec. rewrite E1, E2, E3, E4.
  pose proof (forward_probs_shape Xb W1 b1 W2 b2 S3 S4) as Hp.
  destruct (forward Xb W1 b1 W2 b2) as [[[z1 h1] z2] probs]. cbn [snd] in Hp.
  rewrite <- Hlen in Hp.
  destruct (backward_ok Xb z1 h1 probs yb W2 4 Hlen Hp Hlab)
    as ([[[dW1 db1] dW2] db2] & EB).
  rewrite EB. cbn [bind].
  apply NoDup_cons in Hnd as [N1 Hnd]. apply NoDup_cons in Hnd as [N2 Hnd].
  apply NoDup_cons in Hnd as [N3 _].
  rewrite !list_elem_of_In in N1, N2, N3. simpl in N1, N2, N3.
  set (g1 := Mat (map (map (Qmult lr)) dW1)).
  set (g2 := Vec (map (Qmult lr) db1)).
  set (g3 := Mat (map (map (Qmult lr)) dW2)).
  set (g4 := Vec (map (Qmult lr) db2)).
  set (ha := isub h (rW1 w) g1).
  set (hb := isub ha (rb1 w) g2).
  set (hc := isub hb (rW2 w) g3).
  set (hd := isub hc (rb2 w) g4).
  assert (A1 : ha !! rW1 w = Some (Mat (mat_isub W1 (map (map (Qmult lr)) dW1))))
    by (apply isub_lookup_mat, E1).
  assert (A2 : ha !! rb1 w = Some (Vec b1))
    by (unfold ha; rewrite isub_lookup_ne by (intuition congruence); exact E2).
  assert (A3 : ha !! rW2 w = Some (Mat W2))
    by (unfold ha; rewrite isub_lookup_ne by (intuition congruence); exact E3).
  assert (A4 : ha !! rb2 w = Some (Vec b2))
    by (unfold ha; rewrite isub_lookup_ne by (intuition congruence); exact E4).
  assert (B1 : hb !! rW1 w = Some (Mat (mat_isub W1 (map (map (Qmult lr)) dW1))))
    by (unfold hb; rewrite isub_lookup_ne by (intuition congruence); exact A1).
  assert (B2 : hb !! rb1 w = Some (Vec (vec_isub b1 (map (Qmult lr) db1))))
    by (apply isub_lookup_vec, A2).
  assert (B3 : hb !! rW2 w = Some (Mat W2))
    by (unfold hb; rewrite isub_lookup_ne by (intuition congruence); exact A3).
  assert (B4 : hb !! rb2 w = Some (Vec b2))
    by (unfold hb; rewrite isub_lookup_ne by (intuition congruence); exact A4).
  assert (C1 : hc !! rW1 w = Some (Mat (mat_isub W1 (map (map (Qmult lr)) dW1))))
    by (unfold hc; rewrite isub_lookup_ne by (intuition congruence); exact B1).
  assert (C2 : hc !! rb1 w = Some (Vec (vec_isub b1 (map (Qmult lr) db1))))
    by (unfold hc; rewrite isub_lookup_ne by (intuition congruence); exact B2).
  assert (C3 : hc !! rW2 w = Some (Mat (mat_isub W2 (map (map (Qmult lr)) dW2))))
    by (apply isub_lookup_mat, B3).
  assert (C4 : hc !! rb2 w = Some (Vec b2))
    by (unfold hc; rewrite isub_lookup_ne by (intuition congruence); exact B4).
  exists hd. split; [reflexivity|]. split.
  - split_and!.
    + repeat (apply NoDup_cons_2; [rewrite list_elem_of_In; simpl; intuition congruence|]).
      apply NoDup_nil_2.
    + eexists. split; [unfold hd; rewrite isub_lookup_ne by (intuition congruence); exact C1|].
      apply mat_isub_shape, S1.
    + eexists. split; [unfold hd; rewrite isub_lookup_ne by (intuition congruence); exact C2|].
      rewrite vec_isub_length. exact S2.
    + eexists. split; [unfold hd; rewrite isub_lookup_ne by (intuition congruence); exact C3|].
      apply mat_isub_shape, S3.
    + eexists. split; [apply isub_lookup_vec, C4|].
      rewrite vec_isub_length. exact S4.
  - intros r Hr. unfold refs_of in Hr. simpl in Hr.
    unfold hd, hc, hb, ha. rewrite !isub_lookup_ne by (intuition congruence). reflexivity.
Qed.

(** ** Trainer: one epoch *)

Lemma preserves_outside_trans (w : params) (h1 h2 h3 : store) :
  preserves_outside w h1 h2 -> preserves_outside w h2 h3 ->
  preserves_outside w h1 h3.
Proof.
  intros H12 H23 r Hr. rewrite (H23 r Hr). apply H12, Hr.
Qed.

Lemma slice_length_eq {A B : Type} (a b : nat) (l : list A) (k : list B) :
  length l = length k -> length (slice a b l) = length (slice a b k).
Proof.
  intros E. unfold slice. rewrite !length_firstn, !length_skipn, E. reflexivity.
Qed.

Lemma slice_Forall {A : Type} (P : A -> Prop) (a b : nat) (l : list A) :
  Forall P l -> Forall P (slice a b l).
Proof.
  intros Hl. unfold slice. apply Forall_take, Forall_drop, Hl.
Qed.

Lemma np_take_Forall {A : Type} (P : A -> Prop) (d : A) (idx : list nat) (l : list A) :
  P d -> Forall P l -> Forall P (np_take d idx l).
Proof.
  intros Hd Hl. unfold np_take. apply List.Forall_forall. intros x Hx.
  apply in_map_iff in Hx. destruct Hx as (i & <- & _).
  destruct (nth_in_or_default i l d) as [Hin| ->]; [|exact Hd].
  rewrite List.Forall_forall in Hl. apply Hl, Hin.
Qed.

(** The loop over the batches of one epoch. *)
Lemma sgd_batches_spec `{Numpy} (w : params) (lr : Q) (X_shuf : list (list Q))
    (y_shuf : list Z) (bs : Z) (n_train : nat) (starts : list nat) (h : store) :
  wf_params h w -> length y_shuf = length X_shuf -> Forall label_ok y_shuf ->
  exists h',
    fold_left
      (fun acc start =>
         let* h := acc in
         sgd_batch w lr
           (slice start (Nat.min (start + Z.to_nat bs) n_train) X_shuf)
           (slice start (Nat.min (start + Z.to_nat bs) n_train) y_shuf) h)
      starts (Ok h) = Ok h' /\
    wf_params h' w /\ preserves_outside w h h'.
Proof.
  intros Hwf Hlen Hlab. revert h Hwf.
  induction starts as [|start starts IH]; intros h Hwf.
  - exists h. split; [reflexivity|]. split; [exact Hwf|]. intros r _. reflexivity.
  - match goal with |- context [fold_left ?f _ _] => set (step := f) in * end.
    destruct (sgd_batch_spec w lr
                (slice start (Nat.min (start + Z.to_nat bs) n_train) X_shuf)
                (slice start (Nat.min (start + Z.to_nat bs) n_train) y_shuf) h Hwf
                (slice_length_eq _ _ _ _ Hlen) (slice_Forall _ _ _ _ Hlab))
      as (h1 & E1 & Hwf1 & P1).
    destruct (IH h1 Hwf1) as (h' & E' & Hwf' & P').
    exists h'. split; [|split; [exact Hwf' | eapply preserves_outside_trans; eassumption]].
    change (fold_left step (start :: starts) (Ok h))
      with (fold_left step starts (step (Ok h) start)).
    assert (Es : step (Ok h) start = Ok h1) by (unfold step; cbn [bind]; exact E1).
    rewrite Es. exact E'.
Qed.

Example py_range_step_examples :
  (py_range_step 10 4, py_range_step 8 4, py_range_step 5 (-1), py_range_step 5 0)
  = (Ok [0; 4; 8]%nat, Ok [0; 4]%nat, Ok [], Raise ValueError).
Proof. reflexivity. Qed.

Lemma py_range_step_pos (stop : nat) (step : Z) :
  0 < step -> (0 < stop)%nat ->
  exists starts, py_range_step stop step = Ok starts /\ starts <> [].
Proof.
  intros Hs Hn. unfold py_range_step.
  destruct (Z.eqb_spec step 0); [lia|]. destruct (Z.ltb_spec step 0); [lia|].
  eexists. split; [reflexivity|].
  assert (Hq : (1 <= (stop + Z.to_nat step - 1) / Z.to_nat step)%nat).
  { apply Nat.div_le_lower_bound; lia. }
  destruct ((stop + Z.to_nat step - 1) / Z.to_nat step)%nat as [|q]; [lia|].
  discriminate.
Qed.

(** The validation accuracy reads the working arrays only. *)
Lemma validation_accuracy_ext `{Numpy} (h h' : store) (w : params)
    (X_val : list (list Q)) (y_val : list Z) :
  (forall r, In r (refs_of w) -> h' !! r = h !! r) ->
  validation_accuracy h' w X_val y_val = validation_accuracy h w X_val y_val.
Proof.
  intros E. unfold validation_accuracy, read_mat, read_vec.
  rewrite !E by (simpl; auto). reflexivity.
Qed.

Lemma read_params_ext (h h' : store) (w : params) :
  (forall r, In r (refs_of w) -> h' !! r = h !! r) ->
  read_params h' w = read_params h w.
Proof.
  intros E. unfold read_params, read_mat, read_vec.
  rewrite !E by (simpl; auto). reflexivity.
Qed.

Lemma wf_params_ext (h h' : store) (w : params) :
  (forall r, In r (refs_of w) -> h' !! r = h !! r) ->
  wf_params h w -> wf_params h' w.
Proof.
  intros E (Hnd & H1 & H2 & H3 & H4).
  unfold wf_params. rewrite !E by (simpl; auto). tauto.
Qed.

Lemma bind_Ok {A B : Type} (a : A) (k : A -> result B) : bind (Ok a) k = k a.
Proof. reflexivity. Qed.

Lemma train_epoch_spec `{Numpy} (X_train : list (list Q)) (y_train : list Z)
    (X_val : list (list Q)) (y_val : list Z) (batch_size : Z) (lr_decay : Q)
    (st : train_state) :
  0 < batch_size -> (0 < length X_train)%nat -> Forall label_ok y_train ->
  train_inv st ->
  exists st',
    train_epoch X_train y_train X_val y_val batch_size lr_decay st = Ok st' /\
    train_inv st' /\ epoch_outcome X_val y_val st st'.
Proof.
  intros Hbs Hn Hlab (Hwf & Hball & Hdisj).
  unfold train_epoch.
  destruct (permutation (length X_train) (rng st)) as [perm rng'].
  destruct (py_range_step_pos (length X_train) batch_size Hbs Hn)
    as (starts & -> & Hne).
  rewrite bind_Ok. cbv beta iota zeta.
  destruct (sgd_batches_spec (working st) (lr st)
              (np_take [] perm X_train) (np_take 0 perm y_train)
              batch_size (length X_train) starts (heap st) Hwf)
    as (h1 & -> & Hwf1 & P1).
  { rewrite !np_take_length. reflexivity. }
  { apply np_take_Forall; [unfold label_ok; lia | exact Hlab]. }
  rewrite bind_Ok. cbv beta.
  destruct starts as [|s0 starts]; [congruence|]. cbn [length Nat.eqb].
  pose proof (wf_params_allocated _ _ Hwf1) as Hall1.
  assert (Hold : forall r, heap st !! r <> None ->
                 ~ In r (refs_of (working st)) -> h1 !! r = heap st !! r).
  { intros r _ Hr. apply P1, Hr. }
  destruct (Qgt_bool (validation_accuracy h1 (working st) X_val y_val)
                     (best_val_acc st)) eqn:G.
  - apply Qgt_bool_true in G.
    destruct (copy_params h1 (working st)) as [best h2] eqn:EC.
    destruct (copy_params_spec h1 (working st) best h2 Hall1 EC)
      as (Hfresh & Hnd & P2 & Hall2 & Hread & _).
    assert (Hw2 : forall r, In r (refs_of (working st)) -> h2 !! r = h1 !! r).
    { intros r Hr. apply P2. intros Hb. apply (Hall1 r Hr), Hfresh, Hb. }
    eexists. split; [reflexivity|]. split.
    + unfold train_inv. cbn [heap working best_params].
      split; [eapply wf_params_ext; eassumption|]. split; [exact Hall2|].
      intros r Hb Hr. apply (Hall1 r Hr), Hfresh, Hb.
    + unfold epoch_outcome. cbn [heap working best_params best_val_acc].
      rewrite (validation_accuracy_ext h1 h2 _ _ _ Hw2).
      split; [reflexivity|]. split_and!.
      * intros _. split_and!; [reflexivity | | exact Hnd |].
        -- intros r Hb. destruct (heap st !! r) eqn:Er; [|reflexivity].
           exfalso.
           assert (Hin : In r (refs_of (working st))).
           { destruct (in_dec Nat.eq_dec r (refs_of (working st))) as [Hi|Hi];
               [exact Hi|].
             pose proof (P1 r Hi) as E. rewrite (Hfresh r Hb), Er in E. discriminate. }
           apply (Hall1 r Hin), Hfresh, Hb.
        -- rewrite Hread. symmetry. apply read_params_ext, Hw2.
      * intros Hle. lra.
      * intros r Hr Hnw. rewrite P2; [apply Hold; assumption|].
        intros Hb. pose proof (Hold r Hr Hnw) as E.
        rewrite (Hfresh r Hb) in E. congruence.
  - apply Qgt_bool_false in G.
    eexists. split; [reflexivity|]. split.
    + unfold train_inv. cbn [heap working best_params].
      split; [exact Hwf1|]. split; [|exact Hdisj].
      intros r Hb. rewrite (P1 r (Hdisj r Hb)). apply Hball, Hb.
    + unfold epoch_outcome. cbn [heap working best_params best_val_acc].
      split; [reflexivity|]. split_and!.
      * intros Hlt. lra.
      * intros _. split; reflexivity.
      * exact Hold.
Qed.

(** ** Trainer: the whole run *)

Lemma train_init_spec `{Numpy} (lr0 : Q) (seed : Z) (h : store) :
  train_inv (train_init lr0 seed h) /\
  NoDup (refs_of (best_params (train_init lr0 seed h))) /\
  best_val_acc (train_init lr0 seed h) = 0%Q /\
  read_params (heap (train_init lr0 seed h)) (best_params (train_init lr0 seed h))
    = read_params (heap (train_init lr0 seed h)) (working (train_init lr0 seed h)).
Proof.
  unfold train_init.
  pose proof (randn_shape 16 8 (RandomState seed)) as S1.
  destruct (randn 16 8 (RandomState seed)) as [w1 rng1]. cbn [fst] in S1.
  destruct (alloc h _) as [r1 h1] eqn:E1. apply alloc_spec in E1 as [F1 ->].
  destruct (alloc _ (Vec (repeat 0%Q 16))) as [r2 h2] eqn:E2.
  apply alloc_spec in E2 as [F2 ->].
  pose proof (randn_shape 4 16 rng1) as S3.
  destruct (randn 4 16 rng1) as [w2 rng2]. cbn [fst] in S3.
  destruct (alloc _ (Mat _)) as [r3 h3] eqn:E3. apply alloc_spec in E3 as [F3 ->].
  destruct (alloc _ (Vec (repeat 0%Q 4))) as [r4 h4] eqn:E4.
  apply alloc_spec in E4 as [F4 ->].
  assert (N12 : r1 <> r2) by (intros ->; rewrite lookup_insert_eq in F2; discriminate).
  assert (N23 : r2 <> r3) by (intros ->; rewrite lookup_insert_eq in F3; discriminate).
  rewrite lookup_insert_ne in F3 by exact N23.
  assert (N13 : r1 <> r3) by (intros ->; rewrite lookup_insert_eq in F3; discriminate).
  assert (N34 : r3 <> r4) by (intros ->; rewrite lookup_insert_eq in F4; discriminate).
  rewrite lookup_insert_ne in F4 by exact N34.
  assert (N24 : r2 <> r4) by (intros ->; rewrite lookup_insert_eq in F4; discriminate).
  rewrite lookup_insert_ne in F4 by exact N24.
  assert (N14 : r1 <> r4) by (intros ->; rewrite lookup_insert_eq in F4; discriminate).
  set (w := {| rW1 := r1; rb1 := r2; rW2 := r3; rb2 := r4 |}).
  set (h4 := <[r4 := _]> _).
  assert (Hwf : wf_params h4 w).
  { unfold wf_params, w, h4. cbn [rW1 rb1 rW2 rb2 refs_of]. split_and!.
    - repeat (apply NoDup_cons_2;
              [rewrite list_elem_of_In; simpl; intuition congruence|]).
      apply NoDup_nil_2.
    - eexists. split.
      + rewrite !lookup_insert_ne by congruence. apply lookup_insert_eq.
      + apply has_shape_map_map, S1.
    - eexists. split.
      + rewrite !lookup_insert_ne by congruence. apply lookup_insert_eq.
      + apply repeat_length.
    - eexists. split.
      + rewrite !lookup_insert_ne by congruence. apply lookup_insert_eq.
      + apply has_shape_map_map, S3.
    - eexists. split.
      + apply lookup_insert_eq.
      + apply repeat_length. }
  pose proof (wf_params_allocated _ _ Hwf) as Hall.
  destruct (copy_params h4 w) as [best h5] eqn:EC.
  destruct (copy_params_spec h4 w best h5 Hall EC)
    as (Hfresh & Hnd & P & Hall5 & Hread & _).
  assert (Hw : forall r, In r (refs_of w) -> h5 !! r = h4 !! r).
  { intros r Hr. apply P. intros Hb. apply (Hall r Hr), Hfresh, Hb. }
  cbn [heap working best_params best_val_acc]. split_and!.
  - unfold train_inv. cbn [heap working best_params].
    split; [eapply wf_params_ext; eassumption|]. split; [exact Hall5|].
    intros r Hb Hr. apply (Hall r Hr), Hfresh, Hb.
  - exact Hnd.
  - reflexivity.
  - rewrite Hread. symmetry. apply read_params_ext, Hw.
Qed.

Section Training.
Context `{Numpy}.
Variables (X_train : list (list Q)) (y_train : list Z).
Variables (X_val : list (list Q)) (y_val : list Z).
Variables (epochs batch_size : Z) (lr0 lr_decay : Q) (seed : Z) (h0 : store).

(** The state after [k] epochs, and the validation accuracy measured at
    the end of an epoch. *)
Definition run (k : nat) : result train_state :=
  train_run X_train y_train X_val y_val batch_size lr0 lr_decay seed h0 k.

Definition acc_of (st : train_state) : Q :=
  validation_accuracy (heap st) (working st) X_val y_val.

(** The snapshot held after [k] epochs is the working parameters as they
    were after epoch [j], the first epoch whose validation accuracy is
    the largest seen (the initial parameters, [j = 0], while no epoch
    exceeded 0). *)
Definition best_snapshot (k : nat) (st : train_state) : Prop :=
  exists j sj,
    (j <= k)%nat /\ run j = Ok sj /\
    read_params (heap st) (best_params st) = read_params (heap sj) (working sj) /\
    (j = 0%nat -> best_val_acc st = 0%Q) /\
    ((0 < j)%nat -> best_val_acc st = acc_of sj) /\
    forall i si, (1 <= i <= k)%nat -> run i = Ok si ->
      (acc_of si <= best_val_acc st)%Q /\
      ((i < j)%nat -> (acc_of si < best_val_acc st)%Q).

Hypothesis batch_size_pos : 0 < batch_size.
Hypothesis train_nonempty : (0 < length X_train)%nat.
Hypothesis labels_in_range : Forall label_ok y_train.

Lemma run_spec (k : nat) :
  exists st,
    run k = Ok st /\ train_inv st /\ NoDup (refs_of (best_params st)) /\
    best_snapshot k st.
Proof.
  induction k as [|k IH].
  - destruct (train_init_spec lr0 seed h0) as (Hinv & Hnd & Hacc & Hread).
    exists (train_init lr0 seed h0). split; [reflexivity|].
    split; [exact Hinv|]. split; [exact Hnd|].
    exists 0%nat, (train_init lr0 seed h0).
    split_and!; [lia | reflexivity | exact Hread | intros _; exact Hacc | lia |].
    intros i si Hi. lia.
  - destruct IH as (st & Erun & Hinv & Hnd & j & sj & Hj & Ej & Hread & Hj0 & Hjpos & Hacc).
    destruct (train_epoch_spec X_train y_train X_val y_val batch_size lr_decay st
                batch_size_pos train_nonempty labels_in_range Hinv)
      as (st' & Estep & Hinv' & Hw & Hgt & Hle & Hold).
    assert (Erun' : run (S k) = Ok st').
    { unfold run in *. cbn [train_run]. rewrite Erun. exact Estep. }
    exists st'. split; [exact Erun'|]. split; [exact Hinv'|].
    fold (acc_of st') in Hgt, Hle.
    destruct (Qlt_le_dec (best_val_acc st) (acc_of st')) as [Hlt|Hge].
    + destruct (Hgt Hlt) as (Eb & _ & Hnd' & Hread').
      split; [exact Hnd'|].
      exists (S k), st'. split_and!; [lia | exact Erun' | exact Hread' | lia | |].
      * intros _. exact Eb.
      * intros i si Hi Ei. rewrite Eb.
        destruct (Nat.eq_dec i (S k)) as [->|Hne].
        -- rewrite Erun' in Ei. injection Ei as <-.
           split; [apply Qle_refl | lia].
        -- destruct (Hacc i si ltac:(lia) Ei) as [Hi1 _].
           split; [lra | intros _; lra].
    + destruct (Hle Hge) as (Eb & Ep).
      rewrite Ep. split; [exact Hnd|].
      exists j, sj. split_and!; [lia | exact Ej | | | |].
      * rewrite Ep, <- Hread. apply read_params_ext.
        destruct Hinv as (_ & Hball & Hdisj).
        intros r Hr. apply Hold; [apply Hball, Hr | apply Hdisj, Hr].
      * intros E0. rewrite Eb. apply Hj0, E0.
      * intros Hp. rewrite Eb. apply Hjpos, Hp.
      * intros i si Hi Ei. rewrite Eb.
        destruct (Nat.eq_dec i (S k)) as [->|Hne].
        -- rewrite Erun' in Ei. injection Ei as <-.
           split; [exact Hge | lia].
        -- apply Hacc; [lia | exact Ei].
Qed.

(** C7.  [train] returns; the arrays it returns are the best snapshot:
    the working parameters as they were at the end of the first epoch
    whose validation accuracy is the largest seen.  In every epoch the
    snapshot is replaced only when the epoch's validation accuracy
    strictly exceeds the best so far (on a tie or a lower value the same
    arrays are kept), a replacement consists of new arrays that hold the
    working values, and the arrays of the snapshot are never arrays of the
    working parameters, so the in-place updates of later epochs leave the
    snapshot's values as they were. *)
Theorem train_returns_best_snapshot :
  exists st,
    run (Z.to_nat epochs) = Ok st /\
    train X_train y_train X_val y_val epochs batch_size lr0 lr_decay seed h0
      = Ok (best_params st, heap st) /\
    best_snapshot (Z.to_nat epochs) st /\
    disjoint_params (best_params st) (working st) /\
    NoDup (refs_of (best_params st)) /\
    forall i si si',
      (i < Z.to_nat epochs)%nat -> run i = Ok si -> run (S i) = Ok si' ->
      epoch_outcome X_val y_val si si' /\
      disjoint_params (best_params si) (working si) /\
      disjoint_params (best_params si') (working si') /\
      read_params (heap si') (best_params si)
        = read_params (heap si) (best_params si).
Proof.
  destruct (run_spec (Z.to_nat epochs)) as (st & Erun & Hinv & Hnd & Hbest).
  exists st. split; [exact Erun|]. split.
  { unfold train. unfold run in Erun. rewrite Erun. reflexivity. }
  split; [exact Hbest|]. split; [apply Hinv|]. split; [exact Hnd|].
  intros i si si' Hi Ei Ei'.
  destruct (run_spec i) as (si0 & Ei0 & Hinvi & _).
  rewrite Ei in Ei0. injection Ei0 as <-.
  destruct (train_epoch_spec X_train y_train X_val y_val batch_size lr_decay si
              batch_size_pos train_nonempty labels_in_range Hinvi)
    as (sx & Estep & Hinv' & Hout).
  assert (Ex : run (S i) = Ok sx).
  { unfold run in *. cbn [train_run]. rewrite Ei. exact Estep. }
  rewrite Ei' in Ex. injection Ex as <-.
  split; [exact Hout|]. split; [apply Hinvi|]. split; [apply Hinv'|].
  apply read_params_ext. destruct Hinvi as (_ & Hball & Hdisj).
  destruct Hout as (_ & _ & _ & Hold).
  intros r Hr. apply Hold; [apply Hball, Hr | apply Hdisj, Hr].
Qed.
End Training.

(** A witness for C7: two epochs over three training samples, batches of
    two, with the reference generator and an empty store. *)
Lemma train_returns_best_snapshot_witness :
  exists st,
    @train reference_numpy
      [[200; 30; 10; 5; 20; 40; 20; 50]; [50; 200; 40; 20; 60; 200; 60; 150];
       [30; 40; 200; 30; 120; 120; 120; 120]]%Q [0; 1; 2]
      [[210; 40; 20; 10; 30; 50; 30; 60]]%Q [0]
      2 2 (1 # 100) (995 # 1000) 42 ∅
    = Ok (@best_params reference_numpy st, @heap reference_numpy st) /\
    disjoint_params (@best_params reference_numpy st) (@working reference_numpy st) /\
    NoDup (refs_of (@best_params reference_numpy st)).
Proof.
  destruct (@train_returns_best_snapshot reference_numpy
              [[200; 30; 10; 5; 20; 40; 20; 50]; [50; 200; 40; 20; 60; 200; 60; 150];
               [30; 40; 200; 30; 120; 120; 120; 120]]%Q [0; 1; 2]
              [[210; 40; 20; 10; 30; 50; 30; 60]]%Q [0]
              2 2 (1 # 100) (995 # 1000) 42 ∅)
    as (st & _ & E & _ & D & N & _).
  - lia.
  - simpl. lia.
  - repeat constructor; unfold label_ok; lia.
  - exists st. split; [exact E|]. split; [exact D | exact N].
Defined.

(** ** Orchestration: the exit status *)

Lemma no_exit_Ok {A : Type} (a : A) : no_exit (Ok a).
Proof. intros code. discriminate. Qed.

Lemma no_exit_bind {A B : Type} (r : result A) (k : A -> result B) :
  no_exit r -> (forall a, no_exit (k a)) -> no_exit (bind r k).
Proof.
  intros Hr Hk. destruct r as [a|e]; cbn [bind]; [apply Hk|].
  intros code E. apply (Hr code). injection E as ->. reflexivity.
Qed.

Lemma no_exit_fold {A S : Type} (step : result S -> A -> result S)
    (l : list A) (r : result S) :
  (forall acc a, no_exit acc -> no_exit (step acc a)) ->
  no_exit r -> no_exit (fold_left step l r).
Proof.
  intros Hstep. revert r. induction l as [|a l IH]; intros r Hr; simpl; auto.
Qed.

Lemma bind_Ok_inv {A B : Type} (r : result A) (k : A -> result B) (b : B) :
  bind r k = Ok b -> exists a, r = Ok a /\ k a = Ok b.
Proof.
  destruct r as [a|e]; cbn [bind]; [eauto | discriminate].
Qed.

Lemma fancy_decrement_no_exit (rows : list (list Q)) (labels : list Z) :
  no_exit (fancy_decrement rows labels).
Proof.
  revert rows. induction labels as [|l labels IH]; intros rows.
  - destruct rows; apply no_exit_Ok.
  - destruct rows as [|r rs]; [intros code; discriminate|].
    cbn [fancy_decrement]. apply no_exit_bind.
    + unfold decrement_at, np_index.
      destruct (_ && _); [apply no_exit_Ok|].
      destruct (_ && _); [apply no_exit_Ok | intros code; discriminate].
    + intros r'. apply no_exit_bind; [apply IH | intros; apply no_exit_Ok].
Qed.

Lemma backward_no_exit (X z1 h1 probs : list (list Q)) (labels : list Z)
    (W2 : list (list Q)) :
  no_exit (backward X z1 h1 probs labels W2).
Proof.
  unfold backward. destruct (negb _); [intros code; discriminate|].
  apply no_exit_bind; [apply fancy_decrement_no_exit | intros; apply no_exit_Ok].
Qed.

Lemma sgd_batch_no_exit `{Numpy} (w : params) (lr : Q) (Xb : list (list Q))
    (yb : list Z) (h : store) :
  no_exit (sgd_batch w lr Xb yb h).
Proof.
  unfold sgd_batch. destruct (forward _ _ _ _ _) as [[[z1 h1] z2] probs].
  apply no_exit_bind; [apply backward_no_exit|].
  intros [[[dW1 db1] dW2] db2]. apply no_exit_Ok.
Qed.

Lemma train_epoch_no_exit `{Numpy} (X_train : list (list Q)) (y_train : list Z)
    (X_val : list (list Q)) (y_val : list Z) (batch_size : Z) (lr_decay : Q)
    (st : train_state) :
  no_exit (train_epoch X_train y_train X_val y_val batch_size lr_decay st).
Proof.
  unfold train_epoch.
  destruct (permutation _ _) as [perm rng'].
  apply no_exit_bind.
  { unfold py_range_step. destruct (_ =? _); [intros code; discriminate|].
    destruct (_ <? _); apply no_exit_Ok. }
  intros starts. apply no_exit_bind.
  { apply no_exit_fold; [|apply no_exit_Ok].
    intros acc start Hacc. apply no_exit_bind; [exact Hacc|].
    intros h. apply sgd_batch_no_exit. }
  intros h. destruct (_ =? _)%nat; [intros code; discriminate|].
  destruct (Qgt_bool _ _); [|apply no_exit_Ok].
  destruct (copy_params _ _). apply no_exit_Ok.
Qed.

Lemma train_no_exit `{Numpy} (X_train : list (list Q)) (y_train : list Z)
    (X_val : list (list Q)) (y_val : list Z) (epochs batch_size : Z)
    (lr0 lr_decay : Q) (seed : Z) (h : store) :
  no_exit (train X_train y_train X_val y_val epochs batch_size lr0 lr_decay seed h).
Proof.
  unfold train. apply no_exit_bind; [|intros; apply no_exit_Ok].
  induction (Z.to_nat epochs) as [|k IH]; cbn [train_run]; [apply no_exit_Ok|].
  apply no_exit_bind; [exact IH|]. intros st. apply train_epoch_no_exit.
Qed.

Lemma quantize_vec_no_exit (b : list Q) : no_exit (quantize_vec b).
Proof.
  unfold quantize_vec. destruct (quantize_int8 b); [apply no_exit_Ok|].
  intros code. discriminate.
Qed.

Lemma quantize_mat_no_exit (W : list (list Q)) : no_exit (quantize_mat W).
Proof.
  unfold quantize_mat. apply no_exit_bind; [apply quantize_vec_no_exit|].
  intros [q s]. apply no_exit_Ok.
Qed.

Lemma save_weights_no_exit W1_q b1_q W2_q b2_q sc :
  no_exit (save_weights W1_q b1_q W2_q b2_q sc).
Proof.
  unfold save_weights. destruct (_ =? _)%nat; [apply no_exit_Ok|].
  intros code. discriminate.
Qed.

(** After the data is loaded nothing calls [sys.exit], and the only value
    returned is 0. *)
Lemma pipeline_spec `{Numpy} (args : arguments) (X : list (list Q)) (y : list Z) :
  no_exit (pipeline args X y) /\
  forall v, pipeline args X y = Ok v -> v = 0.
Proof.
  unfold pipeline. split.
  - apply no_exit_bind; [apply train_no_exit|]. intros [best h].
    destruct (read_params h best) as [[[W1 b1] W2] b2].
    apply no_exit_bind; [apply quantize_mat_no_exit|]. intros [W1_q s1w].
    apply no_exit_bind; [apply quantize_vec_no_exit|]. intros [b1_q s1b].
    apply no_exit_bind; [apply quantize_mat_no_exit|]. intros [W2_q s2w].
    apply no_exit_bind; [apply quantize_vec_no_exit|]. intros [b2_q s2b].
    apply no_exit_bind; [apply save_weights_no_exit|]. intros art.
    apply no_exit_Ok.
  - intros v E.
    apply bind_Ok_inv in E as ([best h] & _ & E).
    destruct (read_params h best) as [[[W1 b1] W2] b2].
    apply bind_Ok_inv in E as ([W1_q s1w] & _ & E).
    apply bind_Ok_inv in E as ([b1_q s1b] & _ & E).
    apply bind_Ok_inv in E as ([W2_q s2w] & _ & E).
    apply bind_Ok_inv in E as ([b2_q s2b] & _ & E).
    apply bind_Ok_inv in E as (art & _ & E).
    injection E as <-. reflexivity.
Qed.

(** Collecting the samples of the files never fails: a missing file or key
    is skipped, and the feature extraction is total. *)
Lemma load_file_total `{Numpy} (data_dir : string) (p : process)
    (acc : list (list Q) * list Z) (entry : string * Z) :
  exists acc', load_file data_dir p acc entry = Ok acc'.
Proof.
  unfold load_file. destruct entry as [fname label].
  destruct (filesystem p !! _) as [mat|]; [|eauto].
  destruct (find _ mat) as [[k signal]|]; [|eauto].
  destruct acc as [X_all y_all]. unfold load_windows.
  destruct (load_windows_loop signal label
              (py_range (n_windows (length signal))) X_all y_all)
    as (feats & E & _).
  eexists. exact E.
Qed.

Lemma collected_total `{Numpy} (data_dir : string) (p : process) :
  exists X_all y_all, collected data_dir p = Ok (X_all, y_all).
Proof.
  unfold collected.
  generalize (([], []) : list (list Q) * list Z).
  induction file_class_map as [|entry l IH]; intros acc.
  - destruct acc as [X_all y_all]. exists X_all, y_all. reflexivity.
  - cbn [fold_left bind].
    destruct (load_file_total data_dir p acc entry) as (acc' & ->).
    apply IH.
Qed.

(** C1 (amended).  [main] leaves through [sys.exit] exactly on the
    real-signal path, when scipy cannot be imported or when no sample was
    collected, and the code is then 1; a run that returns from [main]
    returns 0; the synthetic path never calls [sys.exit]. *)
Theorem main_exit_status `{Numpy} (args : arguments) (p : process) :
  (forall code,
     fst (main args p) = Raise (SystemExit code) <->
     code = 1 /\
     exists d, cwru_dir args = Some d /\
       (scipy_installed p = false \/
        exists y_all, collected d p = Ok ([], y_all))) /\
  (forall v, fst (main args p) = Ok v ->
     v = 0 /\ exit_status (fst (main args p)) = 0) /\
  (forall code, fst (main args p) = Raise (SystemExit code) ->
     exit_status (fst (main args p)) = 1).
Proof.
  assert (Main : forall code,
     fst (main args p) = Raise (SystemExit code) <->
     code = 1 /\
     exists d, cwru_dir args = Some d /\
       (scipy_installed p = false \/
        exists y_all, collected d p = Ok ([], y_all))).
  { intros code. unfold main.
    destruct (cwru_dir args) as [d|].
    - rewrite load_cwru_data_unfold.
      destruct (scipy_installed p) eqn:Hs; cbn [negb].
      + destruct (collected_total d p) as (X_all & y_all & Ec). rewrite Ec.
        destruct X_all as [|row X_all]; cbn [fst].
        * split.
          -- intros [= <-]. split; [reflexivity|]. exists d. split; [reflexivity|].
             right. exists y_all. exact Ec.
          -- intros [-> _]. reflexivity.
        * split.
          -- intros E. exfalso. exact (proj1 (pipeline_spec args _ _) code E).
          -- intros (_ & d' & [= <-] & [Hf | (y' & Ey)]); [discriminate|].
             rewrite Ec in Ey. discriminate.
      + cbn [fst]. split.
        * intros [= <-]. split; [reflexivity|]. exists d. split; [reflexivity|].
          left. reflexivity.
        * intros [-> _]. reflexivity.
    - destruct (generate_synthetic_data _ _ p) as [[X y] p']. cbn [fst]. split.
      + intros E. exfalso. exact (proj1 (pipeline_spec args _ _) code E).
      + intros (_ & d & [=] & _). }
  split; [exact Main|]. split.
  - intros v E. rewrite E. cbn [exit_status].
    assert (Hv : v = 0); [|split; [exact Hv | exact Hv]].
    revert E. unfold main.
    destruct (cwru_dir args) as [d|].
    + destruct (load_cwru_data d p) as [[[X y]|e] p']; cbn [fst]; [|discriminate].
      apply (proj2 (pipeline_spec args X y)).
    + destruct (generate_synthetic_data _ _ p) as [[X y] p']. cbn [fst].
      apply (proj2 (pipeline_spec args X y)).
  - intros code E. rewrite E. cbn [exit_status]. apply Main in E. tauto.
Qed.

(** The real-signal run of the witness and of the counterexample:
    [--cwru-dir data]. *)
Definition cwru_arguments : arguments :=
  {| cwru_dir := Some "data"%string; epochs := 1; batch_size := 64;
     lr_arg := 1 # 100; samples := 500; seed := 42 |}.

(** The claim of C1 as written fails: with usable samples in the directory
    and scipy missing, the exit status is 1. *)
Lemma exit_status_without_scipy :
  exit_status (fst (@main reference_numpy cwru_arguments
                      (@Build_process reference_numpy 1 false two_file_directory)))
    = 1 /\
  match @collected reference_numpy "data"
          (@Build_process reference_numpy 1 false two_file_directory) with
  | Ok (X_all, _) => length X_all = 2%nat
  | Raise _ => False
  end.
Proof. split; vm_compute; reflexivity. Qed.

(** * Further properties of the code *)

(** ** Quantizer: rounding *)

(** The rounded value is strictly within one half of the argument, or
    exactly one half away and even. *)
Lemma np_round_spec (x : Q) :
  (Qabs (x - inject_Z (np_round x)) < 1 # 2)%Q \/
  ((Qabs (x - inject_Z (np_round x)) == 1 # 2)%Q /\ Z.even (np_round x) = true).
Proof.
  destruct (np_round_floor_bounds x) as [Hlo Hhi].
  unfold np_round.
  destruct (Qcompare (x - inject_Z (Qfloor x)) (1 # 2)) eqn:Hc.
  - apply Qeq_alt in Hc. right.
    destruct (Z.even (Qfloor x)) eqn:He.
    + split; [|exact He]. rewrite Hc. reflexivity.
    + split.
      * rewrite inject_Z_plus. change (inject_Z 1) with 1%Q.
        setoid_replace (x - (inject_Z (Qfloor x) + 1))%Q with (- (1 # 2))%Q
          using relation Qeq by lra.
        reflexivity.
      * rewrite Z.even_add, He. reflexivity.
  - apply Qlt_alt in Hc. left. apply Qabs_Qlt_condition. lra.
  - apply Qgt_alt in Hc. left. apply Qabs_Qlt_condition.
    rewrite inject_Z_plus. change (inject_Z 1) with 1%Q. lra.
Qed.

Lemma inject_Z_lt_one (a b : Z) :
  (Qabs (inject_Z a - inject_Z b) < 1)%Q -> a = b.
Proof.
  intros H. apply Qabs_Qlt_condition in H. destruct H as [H1 H2].
  assert (Ha : (inject_Z a < inject_Z (b + 1))%Q)
    by (rewrite inject_Z_plus; change (inject_Z 1) with 1%Q; lra).
  assert (Hb : (inject_Z b < inject_Z (a + 1))%Q)
    by (rewrite inject_Z_plus; change (inject_Z 1) with 1%Q; lra).
  rewrite <- Zlt_Qlt in Ha, Hb. lia.
Qed.

(** An integer strictly within one half of [x] is [np_round x]. *)
Lemma np_round_near (x : Q) (r : Z) :
  (Qabs (x - inject_Z r) < 1 # 2)%Q -> np_round x = r.
Proof.
  intros H. apply inject_Z_lt_one.
  pose proof (np_round_error x) as He.
  apply Qabs_Qlt_condition in H. apply Qabs_Qle_condition in He.
  apply Qabs_Qlt_condition. lra.
Qed.

(** An even integer exactly one half away from [x] is [np_round x]. *)
Lemma np_round_half_even (x : Q) (r : Z) :
  (Qabs (x - inject_Z r) == 1 # 2)%Q -> Z.even r = true -> np_round x = r.
Proof.
  intros H Hev.
  destruct (np_round_spec x) as [Hs | [Hs Hes]].
  - apply inject_Z_lt_one.
    assert (Hle : (Qabs (x - inject_Z r) <= 1 # 2)%Q) by (rewrite H; apply Qle_refl).
    apply Qabs_Qlt_condition in Hs. apply Qabs_Qle_condition in Hle.
    apply Qabs_Qlt_condition. lra.
  - (* both at distance one half: equal, or neighbours of distinct parity *)
    assert (Hle1 : (Qabs (x - inject_Z r) <= 1 # 2)%Q) by (rewrite H; apply Qle_refl).
    assert (Hle2 : (Qabs (x - inject_Z (np_round x)) <= 1 # 2)%Q)
      by (rewrite Hs; apply Qle_refl).
    apply Qabs_Qle_condition in Hle1, Hle2.
    assert (Hd : (- 1 <= inject_Z (np_round x) - inject_Z r <= 1)%Q) by lra.
    assert (Hz : -1 <= np_round x - r <= 1).
    { destruct Hd as [Hd1 Hd2]. split.
      - assert (Hq : (inject_Z r <= inject_Z (np_round x + 1))%Q).
        { rewrite inject_Z_plus. change (inject_Z 1) with 1%Q. lra. }
        rewrite <- Zle_Qle in Hq. lia.
      - assert (Hq : (inject_Z (np_round x) <= inject_Z (r + 1))%Q).
        { rewrite inject_Z_plus. change (inject_Z 1) with 1%Q. lra. }
        rewrite <- Zle_Qle in Hq. lia. }
    destruct (Z.eq_dec (np_round x) r) as [E|Hne]; [exact E|exfalso].
    assert (Hodd : Z.even (np_round x) = negb (Z.even r)).
    { assert (Hc : np_round x = r + 1 \/ np_round x = r - 1) by lia.
      destruct Hc as [-> | ->].
      - rewrite Z.even_add. destruct (Z.even r); reflexivity.
      - rewrite Z.even_sub. destruct (Z.even r); reflexivity. }
    rewrite Hes, Hev in Hodd. discriminate.
Qed.

(** Rounding commutes with negation: halves go to the even neighbour on
    both sides. *)
Lemma np_round_opp (x : Q) : np_round (- x) = - np_round x.
Proof.
  assert (E : forall r, (Qabs (- x - inject_Z (- r)) == Qabs (x - inject_Z r))%Q).
  { intros r. rewrite inject_Z_opp.
    setoid_replace (- x - - inject_Z r)%Q with (- (x - inject_Z r))%Q
      using relation Qeq by ring.
    apply Qabs_opp. }
  destruct (np_round_spec x) as [Hs | [Hs Hes]].
  - apply np_round_near. rewrite E. exact Hs.
  - apply np_round_half_even.
    + rewrite E. exact Hs.
    + rewrite Z.even_opp. exact Hes.
Qed.

(** Rounding is monotone. *)
Lemma np_round_monotone (x y : Q) : (x <= y)%Q -> np_round x <= np_round y.
Proof.
  intros Hxy.
  destruct (Z_le_gt_dec (np_round x) (np_round y)) as [Hle|Hgt]; [exact Hle|exfalso].
  pose proof (np_round_error x) as Hx. pose proof (np_round_error y) as Hy.
  apply Qabs_Qle_condition in Hx, Hy.
  assert (Hq : (inject_Z (np_round y + 1) <= inject_Z (np_round x))%Q)
    by (rewrite <- Zle_Qle; lia).
  rewrite inject_Z_plus in Hq. change (inject_Z 1) with 1%Q in Hq.
  (* then x = y, half way between two neighbours that would both be even *)
  assert (Ex : (x - inject_Z (np_round x) == - (1 # 2))%Q) by lra.
  assert (Ey : (y - inject_Z (np_round y) == 1 # 2)%Q) by lra.
  assert (En : np_round x = np_round y + 1).
  { assert (Hq' : (inject_Z (np_round x) <= inject_Z (np_round y + 1))%Q).
    { rewrite inject_Z_plus. change (inject_Z 1) with 1%Q. lra. }
    rewrite <- Zle_Qle in Hq'. lia. }
  destruct (np_round_spec x) as [Hsx | [_ Hex]].
  { apply Qabs_Qlt_condition in Hsx. lra. }
  destruct (np_round_spec y) as [Hsy | [_ Hey]].
  { apply Qabs_Qlt_condition in Hsy. lra. }
  rewrite En, Z.even_add, Hey in Hex. discriminate.
Qed.

Lemma np_round_inject_Z (z : Z) (x : Q) : (x == inject_Z z)%Q -> np_round x = z.
Proof.
  intros E. apply np_round_near.
  setoid_replace (x - inject_Z z)%Q with 0%Q using relation Qeq by lra.
  reflexivity.
Qed.

(** ** Quantizer: what the int8 tensor keeps of the float tensor *)

(** The output of [quantize_int8] is the rounding of the scaled entries:
    the clip and the cast never change a value. *)
Lemma quantize_int8_entries (weights : list Q) :
  weights <> [] ->
  exists m scale,
    np_max_abs weights = Some m /\
    quantize_int8 weights
      = Some (map (fun w => np_round (w * scale)) weights, scale) /\
    (0 < scale)%Q /\
    (((m == 0)%Q /\ scale = 1%Q) \/ ((0 < m)%Q /\ scale = (127 / m)%Q)) /\
    (forall w, In w weights -> (Qabs w <= m)%Q) /\
    In m (map Qabs weights).
Proof.
  intros Hne.
  destruct (np_max_abs_spec weights Hne) as (m & Hm & Hin & Hub).
  pose proof (np_max_abs_nonneg _ _ Hm) as Hm0.
  unfold quantize_int8. rewrite Hm.
  destruct (Qeq_bool m 0) eqn:Hb.
  - apply Qeq_bool_iff in Hb. exists m, 1%Q.
    split_and!; try assumption; try reflexivity; [|left; split; [exact Hb | reflexivity]].
    f_equal. f_equal. apply map_ext_in. intros w Hw.
    assert (Ew : (w == 0)%Q).
    { pose proof (Hub w Hw) as Hle. rewrite Hb in Hle.
      apply Qabs_Qle_condition in Hle. lra. }
    symmetry. apply np_round_inject_Z. rewrite Ew. reflexivity.
  - assert (Hpos : (0 < m)%Q).
    { assert (~ (m == 0)%Q) by (intros E; apply Qeq_bool_iff in E; congruence). lra. }
    exists m, (127 / m)%Q.
    split_and!; try assumption; try reflexivity.
    + f_equal. f_equal. rewrite map_map. apply map_ext_in. intros w Hw.
      pose proof (scaled_entry_range w m Hpos (Hub w Hw)) as Hr.
      pose proof (np_round_between _ _ _ Hr) as Hq.
      rewrite np_clip_id by lia. apply astype_int8_id. lia.
    + unfold Qdiv. apply Qmult_lt_0_compat; [reflexivity|].
      apply Qinv_lt_0_compat, Hpos.
    + right. split; [exact Hpos | reflexivity].
Qed.

(** X1.  On a tensor that is not all zero the scale is positive and the
    whole signed range is used: an entry of largest magnitude is quantised
    to 127 when it is positive and to -127 when it is negative. *)
Theorem quantize_int8_uses_full_range (weights : list Q) :
  Exists (fun w => ~ (w == 0)%Q) weights ->
  exists q scale,
    quantize_int8 weights = Some (q, scale) /\ (0 < scale)%Q /\
    exists i w,
      nth_error weights i = Some w /\
      (forall v, In v weights -> (Qabs v <= Qabs w)%Q) /\
      ((0 < w)%Q /\ nth_error q i = Some 127 \/
       (w < 0)%Q /\ nth_error q i = Some (-127)).
Proof.
  intros Hex.
  assert (Hne : weights <> []) by (destruct Hex; discriminate).
  destruct (quantize_int8_entries weights Hne)
    as (m & scale & Hm & Eq & Hs & Hcase & Hub & Hin).
  apply List.Exists_exists in Hex. destruct Hex as (w0 & Hw0 & Hnz).
  assert (Hpos : (0 < m)%Q).
  { pose proof (Hub w0 Hw0) as Hle.
    assert (0 < Qabs w0)%Q; [|lra].
    destruct (Qlt_le_dec 0 (Qabs w0)) as [Hlt|Hle0]; [exact Hlt|].
    exfalso. apply Hnz.
    pose proof (Qabs_nonneg w0) as Hnn.
    assert (E0 : (Qabs w0 == 0)%Q) by lra.
    apply Qabs_Qle_condition in Hle0. lra. }
  destruct Hcase as [[E0 _] | [_ ->]]; [lra|].
  apply in_map_iff in Hin. destruct Hin as (w & Ew & Hw).
  destruct (In_nth_error _ _ Hw) as (i & Hi).
  eexists _, _. split; [exact Eq|]. split; [exact Hs|].
  exists i, w. split; [exact Hi|]. split.
  { intros v Hv. rewrite Ew. apply Hub, Hv. }
  rewrite nth_error_map, Hi. cbn [option_map].
  assert (Hone : (m * / m == 1)%Q) by (apply Qmult_inv_r; lra).
  destruct (Qlt_le_dec 0 w) as [Hwpos|Hwneg].
  - left. split; [exact Hwpos|]. f_equal. apply np_round_inject_Z.
    assert (Ew' : (w == m)%Q).
    { rewrite <- Ew. symmetry. apply Qabs_pos. lra. }
    rewrite Ew'. change (inject_Z 127) with 127%Q.
    unfold Qdiv. transitivity (127 * (m * / m))%Q; [ring | rewrite Hone; ring].
  - right.
    assert (Ew' : (w == - m)%Q).
    { rewrite <- Ew. rewrite (Qabs_neg w Hwneg). ring. }
    split; [lra|]. f_equal. apply np_round_inject_Z.
    rewrite Ew'. change (inject_Z (-127)) with (- (127))%Q.
    unfold Qdiv. transitivity (- (127 * (m * / m)))%Q; [ring | rewrite Hone; ring].
Qed.

(** A witness for X1. *)
Lemma quantize_int8_uses_full_range_witness :
  exists q scale,
    quantize_int8 [1 # 2; -3; 1]%Q = Some (q, scale) /\ (0 < scale)%Q /\
    exists i w,
      nth_error [1 # 2; -3; 1]%Q i = Some w /\
      (forall v, In v [1 # 2; -3; 1]%Q -> (Qabs v <= Qabs w)%Q) /\
      ((0 < w)%Q /\ nth_error q i = Some 127 \/
       (w < 0)%Q /\ nth_error q i = Some (-127)).
Proof.
  apply (quantize_int8_uses_full_range [1 # 2; -3; 1]%Q).
  apply List.Exists_cons_hd. discriminate.
Defined.

(** X2.  Quantisation keeps the order and the sign of the entries: a
    larger weight never gets a smaller code, a non-negative weight gets a
    non-negative code and a non-positive weight a non-positive one. *)
Theorem quantize_int8_order_preserving (weights : list Q) :
  weights <> [] ->
  exists q scale,
    quantize_int8 weights = Some (q, scale) /\
    forall i j wi wj qi qj,
      nth_error weights i = Some wi -> nth_error weights j = Some wj ->
      nth_error q i = Some qi -> nth_error q j = Some qj ->
      ((wi <= wj)%Q -> qi <= qj) /\
      ((0 <= wi)%Q -> 0 <= qi) /\ ((wi <= 0)%Q -> qi <= 0).
Proof.
  intros Hne.
  destruct (quantize_int8_entries weights Hne)
    as (m & scale & Hm & Eq & Hs & _).
  eexists _, _. split; [exact Eq|].
  intros i j wi wj qi qj Hi Hj Hqi Hqj.
  rewrite nth_error_map, Hi in Hqi. rewrite nth_error_map, Hj in Hqj.
  cbn [option_map] in Hqi, Hqj. injection Hqi as <-. injection Hqj as <-.
  assert (H0 : np_round 0 = 0) by reflexivity.
  split_and!.
  - intros Hle. apply np_round_monotone. apply Qmult_le_compat_r; lra.
  - intros Hle. rewrite <- H0. apply np_round_monotone.
    apply Qmult_le_0_compat; lra.
  - intros Hle. rewrite <- H0. apply np_round_monotone.
    assert (0 <= (- wi) * scale)%Q by (apply Qmult_le_0_compat; lra). lra.
Qed.

(** A witness for X2. *)
Lemma quantize_int8_order_preserving_witness :
  exists q scale,
    quantize_int8 [1 # 2; -3; 1]%Q = Some (q, scale) /\
    forall i j wi wj qi qj,
      nth_error [1 # 2; -3; 1]%Q i = Some wi ->
      nth_error [1 # 2; -3; 1]%Q j = Some wj ->
      nth_error q i = Some qi -> nth_error q j = Some qj ->
      ((wi <= wj)%Q -> qi <= qj) /\
      ((0 <= wi)%Q -> 0 <= qi) /\ ((wi <= 0)%Q -> qi <= 0).
Proof.
  apply (quantize_int8_order_preserving [1 # 2; -3; 1]%Q). discriminate.
Defined.

Lemma Qabs_Qopp_eq (x : Q) : Qabs (- x) = Qabs x.
Proof.
  destruct x as [n d]. unfold Qabs, Qopp. cbn [Qnum Qden].
  rewrite Z.abs_opp. reflexivity.
Qed.

(** X3.  The quantisation is symmetric: negating every weight negates
    every code and leaves the scale unchanged. *)
Theorem quantize_int8_negation (weights : list Q) :
  quantize_int8 (map Qopp weights) =
  match quantize_int8 weights with
  | Some (q, scale) => Some (map Z.opp q, scale)
  | None => None
  end.
Proof.
  destruct weights as [|w0 ws]; [reflexivity|].
  assert (Hne : w0 :: ws <> []) by discriminate.
  assert (Hne' : map Qopp (w0 :: ws) <> []) by discriminate.
  destruct (quantize_int8_entries (w0 :: ws) Hne)
    as (m & scale & Hm & Eq & Hs & Hcase & _).
  destruct (quantize_int8_entries (map Qopp (w0 :: ws)) Hne')
    as (m' & scale' & Hm' & Eq' & Hs' & Hcase' & _).
  assert (Emm : m' = m).
  { cbn [np_max_abs map] in Hm, Hm'.
    rewrite map_map in Hm'.
    rewrite (map_ext (fun x => Qabs (- x)) Qabs Qabs_Qopp_eq), Qabs_Qopp_eq in Hm'.
    congruence. }
  subst m'.
  assert (Ess : scale' = scale).
  { destruct Hcase as [[E0 ->] | [Hp ->]]; destruct Hcase' as [[E0' ->] | [Hp' ->]];
      try reflexivity; lra. }
  subst scale'. rewrite Eq, Eq'. f_equal. f_equal.
  rewrite !map_map. apply map_ext. intros w.
  rewrite <- np_round_opp. apply np_round_comp. ring.
Qed.

(** ** Serializer: the address of every parameter *)

Lemma nth_concat_shape {A : Type} (d : A) (r c : nat) (M : list (list A)) (i j : nat) :
  has_shape r c M -> (i < r)%nat -> (j < c)%nat ->
  nth (c * i + j) (concat M) d = nth j (nth i M []) d.
Proof.
  intros [Hr Hc]. revert r i Hr.
  induction Hc as [|row M Hrow _ IH]; intros r i Hr Hi Hj; simpl in Hr; [lia|].
  cbn [concat]. destruct i as [|i].
  - rewrite Nat.mul_0_r. cbn [Nat.add nth]. apply app_nth1. lia.
  - cbn [nth]. rewrite app_nth2 by nia.
    replace (c * S i + j - length row)%nat with (c * i + j)%nat by nia.
    apply (IH (length M) i eq_refl); lia.
Qed.

(** X4.  The memory layout of the flat sequence, for the shapes of the
    network: entry [8i + j] is [W1[i][j]], entry [128 + i] is [b1[i]], entry
    [144 + 16i + j] is [W2[i][j]] and entry [208 + i] is [b2[i]], each cast
    to int8 (a value outside [-128, 127] wraps around). *)
Theorem save_weights_memory_layout W1_q b1_q W2_q b2_q sc :
  has_shape 16 8 W1_q -> length b1_q = 16%nat ->
  has_shape 4 16 W2_q -> length b2_q = 4%nat ->
  exists art,
    save_weights W1_q b1_q W2_q b2_q sc = Ok art /\
    (forall i j, (i < 16)%nat -> (j < 8)%nat ->
       nth (8 * i + j) (all_weights art) 0 = astype_int8 (nth j (nth i W1_q []) 0)) /\
    (forall i, (i < 16)%nat ->
       nth (128 + i) (all_weights art) 0 = astype_int8 (nth i b1_q 0)) /\
    (forall i j, (i < 4)%nat -> (j < 16)%nat ->
       nth (144 + (16 * i + j)) (all_weights art) 0
       = astype_int8 (nth j (nth i W2_q []) 0)) /\
    (forall i, (i < 4)%nat ->
       nth (208 + i) (all_weights art) 0 = astype_int8 (nth i b2_q 0)).
Proof.
  intros H1 Hb1 H2 Hb2.
  pose proof (length_concat_shape _ _ _ H1) as L1.
  pose proof (length_concat_shape _ _ _ H2) as L2.
  simpl in L1, L2.
  unfold save_weights. rewrite length_map, !length_app, L1, L2, Hb1, Hb2.
  change (128 + (16 + (64 + 4)) =? 212)%nat with true. cbv iota.
  eexists. split; [reflexivity|]. cbn [all_weights].
  assert (Hnth : forall k l, (k < length l)%nat ->
            nth k (map astype_int8 l) 0 = astype_int8 (nth k l 0)).
  { intros k l Hk. apply nth_map_lt, Hk. }
  split_and!.
  - intros i j Hi Hj.
    rewrite Hnth by (rewrite !length_app, L1; lia).
    rewrite app_nth1 by lia.
    rewrite (nth_concat_shape 0 16 8 W1_q i j H1 Hi Hj). reflexivity.
  - intros i Hi.
    rewrite Hnth by (rewrite !length_app, L1, L2, Hb1, Hb2; lia).
    rewrite app_nth2 by lia. rewrite L1.
    replace (128 + i - 128)%nat with i by lia.
    rewrite app_nth1 by lia. reflexivity.
  - intros i j Hi Hj.
    rewrite Hnth by (rewrite !length_app, L1, L2, Hb1, Hb2; lia).
    rewrite app_nth2 by lia. rewrite L1.
    rewrite app_nth2 by lia. rewrite Hb1.
    replace (144 + (16 * i + j) - 128 - 16)%nat with (16 * i + j)%nat by lia.
    rewrite app_nth1 by lia.
    rewrite (nth_concat_shape 0 4 16 W2_q i j H2 Hi Hj). reflexivity.
  - intros i Hi.
    rewrite Hnth by (rewrite !length_app, L1, L2, Hb1, Hb2; lia).
    rewrite app_nth2 by lia. rewrite L1.
    rewrite app_nth2 by lia. rewrite Hb1.
    rewrite app_nth2 by lia. rewrite L2.
    replace (208 + i - 128 - 16 - 64)%nat with i by lia. reflexivity.
Qed.

(** A witness for X4: distinct values in the four blocks. *)
Lemma save_weights_memory_layout_witness :
  exists art,
    save_weights (repeat (repeat 1 8) 16) (repeat 2 16)
                 (repeat (repeat 3 16) 4) (repeat 4 4) [] = Ok art /\
    nth 127 (all_weights art) 0 = 1 /\ nth 128 (all_weights art) 0 = 2 /\
    nth 144 (all_weights art) 0 = 3 /\ nth 211 (all_weights art) 0 = 4.
Proof.
  destruct (save_weights_memory_layout (repeat (repeat 1 8) 16) (repeat 2 16)
              (repeat (repeat 3 16) 4) (repeat 4 4) [])
    as (art & E & HW1 & Hb1 & HW2 & Hb2).
  - split; [reflexivity | repeat constructor].
  - reflexivity.
  - split; [reflexivity | repeat constructor].
  - reflexivity.
  - exists art. split; [exact E|]. split_and!.
    + apply (HW1 15%nat 7%nat); lia.
    + apply (Hb1 0%nat); lia.
    + apply (HW2 0%nat 0%nat); lia.
    + apply (Hb2 3%nat); lia.
Defined.

(** ** Feature extraction: what the eight features are *)


Lemma np_sum_nonneg (l : list Q) : Forall (fun v => (0 <= v)%Q) l -> (0 <= np_sum l)%Q.
Proof.
  induction 1 as [|x l Hx _ IH]; unfold np_sum in *; cbn [fold_right];
    [apply Qle_refl | lra].
Qed.












(** X8.  Every window the loop visits lies inside the signal and holds
    exactly 1024 samples; consecutive windows start 512 samples apart. *)
Theorem windows_are_full (signal : list Q) (s : nat) :
  In s (window_starts (length signal)) ->
  length (slice s (s + window_size) signal) = 1024%nat /\
  (s + 1024 <= length signal)%nat /\
  (s = 0%nat \/ In (s - 512)%nat (window_starts (length signal))).
Proof.
  intros Hs. pose proof Hs as Hs'.
  apply window_starts_spec in Hs as [[i ->] Hb].
  unfold slice, window_size. rewrite length_firstn, length_skipn.
  split; [lia|]. split; [lia|].
  destruct i as [|i]; [left; reflexivity|]. right.
  apply window_starts_spec. split; [exists i; lia | lia].
Qed.

(** A witness for X8: the second window of a signal of 2048 samples. *)
Lemma windows_are_full_witness :
  length (slice 512 (512 + window_size) (repeat 0%Q 2048)) = 1024%nat /\
  (512 + 1024 <= length (repeat 0%Q 2048))%nat /\
  (512%nat = 0%nat \/ In (512 - 512)%nat (window_starts (length (repeat 0%Q 2048)))).
Proof.
  apply (windows_are_full (repeat 0%Q 2048) 512).
  vm_compute. right. left. reflexivity.
Defined.

(** ** Real-signal provider: normalisation *)

Lemma normalize_column_eq (X : list (list Q)) (j : nat) :
  normalize_column X j =
  map (fun row => <[j := normalized (column j X) (nth j row 0%Q)]> row) X.
Proof.
  unfold normalize_column, normalized.
  destruct (Qgt_bool (np_max (column j X)) (np_min (column j X))); reflexivity.
Qed.

Lemma normalize_column_shape (N c : nat) (X : list (list Q)) (j : nat) :
  has_shape N c X -> has_shape N c (normalize_column X j).
Proof.
  intros [HN Hc]. rewrite normalize_column_eq.
  split; [rewrite length_map; exact HN|].
  apply List.Forall_forall. intros row Hrow.
  apply in_map_iff in Hrow. destruct Hrow as (r & <- & Hr).
  rewrite length_insert. rewrite List.Forall_forall in Hc. apply Hc, Hr.
Qed.

(** One step of the loop rewrites column [j] and nothing else. *)
Lemma normalize_column_entry (N c : nat) (X : list (list Q)) (j i k : nat) :
  has_shape N c X -> (j < c)%nat -> (i < N)%nat ->
  entry (normalize_column X j) i k =
  if (k =? j)%nat then normalized (column j X) (entry X i j) else entry X i k.
Proof.
  intros HX Hj Hi. rewrite normalize_column_eq. unfold entry.
  rewrite (nth_map_lt _ X i [] []) by (destruct HX; lia).
  apply nth_insert. rewrite (has_shape_row N c X i HX Hi). exact Hj.
Qed.

Lemma column_ext (N c : nat) (X Y : list (list Q)) (k : nat) :
  has_shape N c X -> has_shape N c Y ->
  (forall i, (i < N)%nat -> entry Y i k = entry X i k) ->
  column k Y = column k X.
Proof.
  intros HX HY E. unfold column.
  rewrite (map_seq_nth _ Y []), (map_seq_nth _ X []).
  rewrite (proj1 HX), (proj1 HY). apply map_ext_in.
  intros i Hi. apply in_seq in Hi. apply E. lia.
Qed.

(** The loop over a list of distinct columns: the listed columns are
    normalised, each against its own original minimum and maximum, and the
    others are unchanged. *)
Lemma normalize_columns_entry (N c : nat) (js : list nat) (X : list (list Q)) :
  has_shape N c X -> List.NoDup js -> Forall (fun j => (j < c)%nat) js ->
  has_shape N c (fold_left normalize_column js X) /\
  forall i k, (i < N)%nat ->
    entry (fold_left normalize_column js X) i k =
    if in_dec Nat.eq_dec k js then normalized (column k X) (entry X i k)
    else entry X i k.
Proof.
  intros HX Hnd Hjs. revert X HX.
  induction js as [|j js IH]; intros X HX.
  - split; [exact HX|]. intros i k Hi. reflexivity.
  - apply List.NoDup_cons_iff in Hnd as [Hnin Hnd].
    apply Forall_cons_1 in Hjs as [Hj Hjs].
    cbn [fold_left].
    pose proof (normalize_column_shape N c X j HX) as HX1.
    destruct (IH Hnd Hjs (normalize_column X j) HX1) as [HS Hent].
    split; [exact HS|]. intros i k Hi. rewrite (Hent i k Hi).
    destruct (in_dec Nat.eq_dec k js) as [Hin|Hnot].
    + (* a later column: untouched by step [j] *)
      assert (Hkj : k <> j) by (intros ->; contradiction).
      destruct (in_dec Nat.eq_dec k (j :: js)) as [_|Hc]; [|exfalso; apply Hc; right; exact Hin].
      rewrite (normalize_column_entry N c X j i k HX Hj Hi).
      destruct (Nat.eqb_spec k j) as [->|_]; [contradiction|].
      f_equal. apply (column_ext N c); [exact HX | exact HX1|].
      intros i' Hi'. rewrite (normalize_column_entry N c X j i' k HX Hj Hi').
      destruct (Nat.eqb_spec k j) as [->|_]; [contradiction | reflexivity].
    + rewrite (normalize_column_entry N c X j i k HX Hj Hi).
      destruct (Nat.eqb_spec k j) as [->|Hne].
      * destruct (in_dec Nat.eq_dec j (j :: js)) as [_|Hc]; [reflexivity|].
        exfalso. apply Hc. left. reflexivity.
      * destruct (in_dec Nat.eq_dec k (j :: js)) as [[Hc|Hc]|_]; [congruence | contradiction | reflexivity].
Qed.

Lemma fold_Qmin_le_init (l : list Q) (a : Q) : (fold_left Qmin l a <= a)%Q.
Proof.
  revert a. induction l as [|b l IH]; intros a; simpl.
  - apply Qle_refl.
  - eapply Qle_trans; [apply IH | apply Q.le_min_l].
Qed.

Lemma fold_Qmin_le (l : list Q) (a x : Q) : In x l -> (fold_left Qmin l a <= x)%Q.
Proof.
  revert a. induction l as [|b l IH]; intros a Hin; simpl in *; [tauto|].
  destruct Hin as [->|Hin].
  - eapply Qle_trans; [apply fold_Qmin_le_init | apply Q.le_min_r].
  - apply IH, Hin.
Qed.

Lemma np_min_max_bounds (col : list Q) (v : Q) :
  In v col -> (np_min col <= v <= np_max col)%Q.
Proof.
  destruct col as [|x xs]; [intros []|]. intros [->|Hin]; unfold np_min, np_max.
  - split; [apply fold_Qmin_le_init | apply fold_Qmax_ge_init].
  - split; [apply fold_Qmin_le | apply fold_Qmax_ge]; exact Hin.
Qed.

(** A normalised entry lies in [0, 255]. *)
Lemma normalized_range (col : list Q) (v : Q) :
  In v col -> (0 <= normalized col v <= 255)%Q.
Proof.
  intros Hin. destruct (np_min_max_bounds col v Hin) as [Hlo Hhi].
  unfold normalized.
  destruct (Qgt_bool (np_max col) (np_min col)) eqn:G;
    [|split; [apply Qle_refl | discriminate]].
  apply Qgt_bool_true in G.
  set (lo := np_min col) in *. set (hi := np_max col) in *.
  assert (Hinv : (0 < / (hi - lo))%Q) by (apply Qinv_lt_0_compat; lra).
  assert (Hone : ((hi - lo) * / (hi - lo) == 1)%Q) by (apply Qmult_inv_r; lra).
  unfold Qdiv.
  assert (H1 : (0 <= (v - lo) * / (hi - lo))%Q) by (apply Qmult_le_0_compat; lra).
  assert (H2 : (0 <= (hi - v) * / (hi - lo))%Q) by (apply Qmult_le_0_compat; lra).
  assert (E : ((hi - v) * / (hi - lo) == (hi - lo) * / (hi - lo) - (v - lo) * / (hi - lo))%Q)
    by ring.
  rewrite E, Hone in H2. split; lra.
Qed.

(** The normalisation loop keeps the shape and leaves every value in
    [0, 255]. *)
Lemma normalised_in_range (N : nat) (X : list (list Q)) :
  has_shape N 8 X ->
  has_shape N 8 (fold_left normalize_column (seq 0 8) X) /\
  forall i j, (i < N)%nat -> (j < 8)%nat ->
    (0 <= entry (fold_left normalize_column (seq 0 8) X) i j <= 255)%Q.
Proof.
  intros HX.
  destruct (normalize_columns_entry N 8 (seq 0 8) X HX) as [HS Hent].
  { apply seq_NoDup. }
  { apply List.Forall_forall. intros j Hj. apply in_seq in Hj. lia. }
  split; [exact HS|]. intros i j Hi Hj. rewrite (Hent i j Hi).
  destruct (in_dec Nat.eq_dec j (seq 0 8)) as [_|Hc];
    [|exfalso; apply Hc, in_seq; lia].
  apply normalized_range.
  rewrite <- (column_nth j X i) by (destruct HX; lia).
  apply nth_In. rewrite column_length. destruct HX; lia.
Qed.

(** X9.  After the normalisation loop every entry of every feature column
    is the position of the original entry between the column's minimum and
    maximum, scaled to 255 (0 for a constant column): the data keeps its
    shape and every value lies in [0, 255]. *)
Theorem normalisation_maps_into_range (N : nat) (X : list (list Q)) :
  has_shape N 8 X ->
  has_shape N 8 (fold_left normalize_column (seq 0 8) X) /\
  forall i j, (i < N)%nat -> (j < 8)%nat ->
    entry (fold_left normalize_column (seq 0 8) X) i j
      = normalized (column j X) (entry X i j) /\
    (0 <= entry (fold_left normalize_column (seq 0 8) X) i j <= 255)%Q.
Proof.
  intros HX.
  destruct (normalize_columns_entry N 8 (seq 0 8) X HX) as [HS Hent].
  { apply seq_NoDup. }
  { apply List.Forall_forall. intros j Hj. apply in_seq in Hj. lia. }
  split; [exact HS|]. intros i j Hi Hj.
  assert (E : entry (fold_left normalize_column (seq 0 8) X) i j
              = normalized (column j X) (entry X i j)).
  { rewrite (Hent i j Hi).
    destruct (in_dec Nat.eq_dec j (seq 0 8)) as [_|Hc]; [reflexivity|].
    exfalso. apply Hc, in_seq. lia. }
  split; [exact E|]. rewrite E. apply normalized_range.
  rewrite <- (column_nth j X i) by (destruct HX; lia).
  apply nth_In. rewrite column_length. destruct HX; lia.
Qed.

(** A witness for X9: two samples. *)
Lemma normalisation_maps_into_range_witness :
  has_shape 2 8 (fold_left normalize_column (seq 0 8)
                   [[1; 2; 3; 4; 5; 6; 7; 8]; [3; 2; 1; 0; 5; 9; 7; 10]]%Q) /\
  forall i j, (i < 2)%nat -> (j < 8)%nat ->
    entry (fold_left normalize_column (seq 0 8)
             [[1; 2; 3; 4; 5; 6; 7; 8]; [3; 2; 1; 0; 5; 9; 7; 10]]%Q) i j
      = normalized (column j [[1; 2; 3; 4; 5; 6; 7; 8]; [3; 2; 1; 0; 5; 9; 7; 10]]%Q)
                   (entry [[1; 2; 3; 4; 5; 6; 7; 8]; [3; 2; 1; 0; 5; 9; 7; 10]]%Q i j) /\
    (0 <= entry (fold_left normalize_column (seq 0 8)
                   [[1; 2; 3; 4; 5; 6; 7; 8]; [3; 2; 1; 0; 5; 9; 7; 10]]%Q) i j <= 255)%Q.
Proof.
  apply (normalisation_maps_into_range 2).
  split; [reflexivity | repeat constructor].
Defined.

Example normalisation_example :
  map (map Qred)
      (fold_left normalize_column (seq 0 8)
         [[1; 2; 3; 4; 5; 6; 7; 8]; [3; 2; 1; 0; 5; 9; 7; 10]]%Q)
  = [[0; 0; 255; 255; 0; 0; 0; 0]; [255; 0; 0; 0; 0; 255; 0; 255]]%Q.
Proof. vm_compute. reflexivity. Qed.

(** ** Real-signal provider: what a successful load returns *)

(** What one file adds to the samples collected so far. *)
Lemma load_file_adds `{Numpy} (data_dir : string) (p : process)
    (X_all : list (list Q)) (y_all : list Z) (fname : string) (label : Z)
    (acc' : list (list Q) * list Z) :
  load_file data_dir p (X_all, y_all) (fname, label) = Ok acc' ->
  exists feats,
    acc' = (X_all ++ feats, y_all ++ repeat label (length feats)) /\
    Forall (fun f => length f = 8%nat) feats /\
    (feats <> [] ->
     exists mat key signal,
       filesystem p !! os_path_join data_dir fname = Some mat /\
       find (fun kv => ends_with "_DE_time" (fst kv)) mat = Some (key, signal) /\
       length feats = Z.to_nat (n_windows (length signal))).
Proof.
  unfold load_file.
  destruct (filesystem p !! os_path_join data_dir fname) as [mat|] eqn:Ef.
  2:{ intros [= <-]. exists []. rewrite !app_nil_r.
      split; [reflexivity|]. split; [constructor | congruence]. }
  destruct (find _ mat) as [[key signal]|] eqn:Ek.
  2:{ intros [= <-]. exists []. rewrite !app_nil_r.
      split; [reflexivity|]. split; [constructor | congruence]. }
  unfold load_windows.
  destruct (load_windows_loop signal label
              (py_range (n_windows (length signal))) X_all y_all)
    as (feats & E & HF).
  intros Ea.
  assert (L : length feats = length (py_range (n_windows (length signal)))).
  { symmetry. eapply Forall2_length, HF. }
  assert (Eq : Ok acc' = Ok (X_all ++ feats, y_all ++ repeat label (length feats))).
  { rewrite L. etransitivity; [symmetry; exact Ea | exact E]. }
  injection Eq as ->.
  exists feats. split; [reflexivity|]. split.
  - clear -HF. induction HF as [|i f idx feats Hf _ IH]; constructor; [|exact IH].
    destruct (extract_features_total
                (slice (i * hop) (i * hop + window_size) signal)) as (f' & Ef & Hl).
    rewrite Hf in Ef. injection Ef as <-. exact Hl.
  - intros _. exists mat, key, signal.
    split; [first [reflexivity | exact Ef]|]. split; [first [reflexivity | exact Ek]|].
    unfold py_range in L. rewrite length_seq in L. exact L.
Qed.

Lemma collected_spec `{Numpy} (data_dir : string) (p : process)
    (r : list (list Q) * list Z) :
  collected data_dir p = Ok r -> collected_from data_dir p r.
Proof.
  unfold collected.
  assert (Hgen : forall l acc,
            (forall e, In e l -> In e file_class_map) ->
            collected_from data_dir p acc ->
            fold_left (fun acc entry => let* a := acc in load_file data_dir p a entry)
                      l (Ok acc) = Ok r ->
            collected_from data_dir p r).
  { induction l as [|[fname label] l IH]; intros acc Hsub Hacc E.
    - cbn [fold_left] in E. injection E as <-. exact Hacc.
    - cbn [fold_left bind] in E.
      destruct (load_file_total data_dir p acc (fname, label)) as (acc' & Ea).
      rewrite Ea in E. refine (IH acc' _ _ E); [intros e He; apply Hsub; right; exact He|].
      destruct acc as [X_all y_all].
      destruct (load_file_adds data_dir p X_all y_all fname label acc' Ea)
        as (feats & -> & H8 & Hsrc).
      destruct Hacc as (Hl & HX & Hy). unfold collected_from. cbn [fst snd] in *.
      split_and!.
      + rewrite !length_app, repeat_length. lia.
      + apply Forall_app. split; assumption.
      + apply Forall_app. split; [exact Hy|].
        destruct feats as [|f0 feats]; [constructor|].
        destruct Hsrc as (mat & key & signal & Hf & Hk & _); [discriminate|].
        apply List.Forall_forall. intros l0 Hl0. apply repeat_spec in Hl0. subst l0.
        exists fname, mat, key, signal. split; [|split; assumption].
        apply Hsub. left. reflexivity. }
  apply (Hgen file_class_map ([], [])); [auto|].
  split_and!; [reflexivity | constructor | constructor].
Qed.

Lemma np_take_Forall_perm {A : Type} (P : A -> Prop) (d : A) (idx : list nat)
    (l : list A) :
  Permutation idx (seq 0 (length l)) -> Forall P l -> Forall P (np_take d idx l).
Proof.
  intros Hp Hl.
  apply (Permutation_Forall (Permutation_sym (np_take_permutation d idx l Hp))).
  exact Hl.
Qed.

(** What a successful load returns. *)
Lemma load_cwru_data_dataset `{Numpy} (data_dir : string) (p : process)
    (X : list (list Q)) (y : list Z) (p' : process) :
  load_cwru_data data_dir p = (Ok (X, y), p') ->
  X <> [] /\ length X = length y /\
  Forall (fun row => length row = 8%nat /\ Forall (fun v => (0 <= v <= 255)%Q) row) X /\
  Forall (fun l =>
            0 <= l <= 3 /\
            exists fname mat key signal,
              In (fname, l) file_class_map /\
              filesystem p !! os_path_join data_dir fname = Some mat /\
              find (fun kv => ends_with "_DE_time" (fst kv)) mat
                = Some (key, signal)) y /\
  filesystem p' = filesystem p.
Proof.
  rewrite load_cwru_data_unfold.
  destruct (negb (scipy_installed p)); [discriminate|].
  destruct (collected data_dir p) as [[X_all y_all]|e] eqn:Ec; [|discriminate].
  destruct X_all as [|row0 X_rest]; [discriminate|].
  set (X_all := row0 :: X_rest) in *.
  assert (Hne : length X_all <> 0%nat) by discriminate. clearbody X_all.
  pose proof (collected_spec data_dir p _ Ec) as (Hl & H8 & Hy). cbn [fst snd] in *.
  pose proof (permutation_perm (length y_all) (np_random p)) as Hperm.
  intros E. apply pair_equal_spec in E as [E <-].
  apply (f_equal (fun r => match r with Ok v => v | Raise _ => (X, y) end)) in E.
  cbv beta iota in E. apply pair_equal_spec in E as [<- <-].
  assert (HS : has_shape (length X_all) 8 X_all) by (split; [reflexivity | exact H8]).
  destruct (normalised_in_range (length X_all) X_all HS) as [HS' Hent].
  generalize dependent (fold_left normalize_column (seq 0 8) X_all). intros Xn HS' Hent.
  assert (HlenXn : length Xn = length y_all) by (rewrite (proj1 HS'); exact Hl).
  split_and!.
  - intros E. apply (f_equal (@length _)) in E.
    rewrite np_take_length, (Permutation_length Hperm), length_seq in E.
    rewrite <- Hl in E. exact (Hne E).
  - rewrite !np_take_length. reflexivity.
  - apply np_take_Forall_perm; [rewrite HlenXn; exact Hperm|].
    apply List.Forall_forall. intros row Hrow.
    destruct (In_nth _ _ [] Hrow) as (i & Hi & <-).
    rewrite (proj1 HS') in Hi.
    split; [apply (has_shape_row _ _ _ _ HS' Hi)|].
    apply List.Forall_forall. intros v Hv.
    destruct (In_nth _ _ 0%Q Hv) as (j & Hj & <-).
    rewrite (has_shape_row _ _ _ _ HS' Hi) in Hj.
    apply (Hent i j Hi Hj).
  - apply np_take_Forall_perm; [exact Hperm|].
    eapply List.Forall_impl; [|exact Hy].
    intros l (fname & mat & key & signal & Hin & Hf & Hk).
    split; [|eauto 8].
    unfold file_class_map in Hin. simpl in Hin.
    destruct Hin as [[= _ <-]|[[= _ <-]|[[= _ <-]|[[= _ <-]|[]]]]]; lia.
  - reflexivity.
Qed.

(** X10.  When [load_cwru_data] returns, it returns at least one sample,
    as many labels as rows, rows of eight features in [0, 255], and every
    label is the class of a file that is present in the directory and has a
    [_DE_time] key: a class whose file is missing contributes no sample. *)
Theorem load_cwru_data_returns_dataset `{Numpy} (data_dir : string) (p : process)
    (X : list (list Q)) (y : list Z) (p' : process) :
  load_cwru_data data_dir p = (Ok (X, y), p') ->
  X <> [] /\ length X = length y /\
  Forall (fun row => length row = 8%nat /\ Forall (fun v => (0 <= v <= 255)%Q) row) X /\
  Forall (fun l =>
            0 <= l <= 3 /\
            exists fname mat key signal,
              In (fname, l) file_class_map /\
              filesystem p !! os_path_join data_dir fname = Some mat /\
              find (fun kv => ends_with "_DE_time" (fst kv)) mat
                = Some (key, signal)) y /\
  filesystem p' = filesystem p.
Proof. exact (load_cwru_data_dataset data_dir p X y p'). Qed.

(** A witness for X10: the directory with two files. *)
Lemma load_cwru_data_returns_dataset_witness :
  exists X y,
    fst (@load_cwru_data reference_numpy "data" (two_file_process 1)) = Ok (X, y) /\
    X <> [] /\ length X = length y /\
    Forall (fun row => length row = 8%nat /\
                       Forall (fun v => (0 <= v <= 255)%Q) row) X.
Proof.
  assert (Hok : match fst (@load_cwru_data reference_numpy "data" (two_file_process 1))
                with Ok _ => true | Raise _ => false end = true)
    by (vm_compute; reflexivity).
  destruct (@load_cwru_data reference_numpy "data" (two_file_process 1))
    as [[[X y]|e] p'] eqn:E; [|discriminate Hok].
  destruct (@load_cwru_data_returns_dataset reference_numpy
              "data" (two_file_process 1) X y p' E) as (H1 & H2 & H3 & _).
  exists X, y. split; [reflexivity|]. split; [exact H1|]. split; [exact H2 | exact H3].
Defined.
(** ** Model: class probabilities, predictions and accuracy *)

Lemma np_sum_map_div (e : list Q) (s : Q) :
  (np_sum (map (fun v => v / s) e) == np_sum e / s)%Q.
Proof.
  induction e as [|x e IH]; unfold np_sum in *; cbn [map fold_right].
  - unfold Qdiv. ring.
  - rewrite IH. unfold Qdiv. ring.
Qed.

Lemma np_sum_pos (l : list Q) :
  l <> [] -> Forall (fun v => (0 < v)%Q) l -> (0 < np_sum l)%Q.
Proof.
  intros Hne Hl. destruct Hl as [|x l Hx Hl]; [congruence|].
  assert (H0 : (0 <= np_sum l)%Q).
  { apply np_sum_nonneg. eapply List.Forall_impl; [|exact Hl].
    intros a Ha. apply Qlt_le_weak, Ha. }
  unfold np_sum in *. cbn [fold_right]. lra.
Qed.

Lemma np_sum_ge_member (l : list Q) (v : Q) :
  Forall (fun v => (0 <= v)%Q) l -> In v l -> (v <= np_sum l)%Q.
Proof.
  induction 1 as [|x l Hx Hl IH]; intros Hin; [destruct Hin|].
  pose proof (np_sum_nonneg l Hl) as H0.
  unfold np_sum in *. cbn [fold_right].
  destruct Hin as [->|Hin]; [lra|]. specialize (IH Hin). lra.
Qed.

Lemma softmax_rows `{Numpy} (logits : list (list Q)) :
  softmax logits = map softmax_row logits.
Proof. reflexivity. Qed.

Lemma softmax_row_distribution `{Numpy} (row : list Q) :
  (forall x, (0 < np_exp x)%Q) -> row <> [] ->
  (np_sum (softmax_row row) == 1)%Q /\
  Forall (fun v => (0 < v <= 1)%Q) (softmax_row row).
Proof.
  intros Hexp Hne. unfold softmax_row.
  set (e := map (fun v => np_exp (v - np_max row)) row).
  assert (He : Forall (fun v => (0 < v)%Q) e).
  { apply List.Forall_forall. intros v Hv. apply in_map_iff in Hv.
    destruct Hv as (x & <- & _). apply Hexp. }
  assert (Hene : e <> []).
  { intros E. apply (f_equal (@length _)) in E. unfold e in E.
    rewrite length_map in E. destruct row; [congruence | discriminate]. }
  pose proof (np_sum_pos e Hene He) as Hs.
  split.
  - rewrite np_sum_map_div. field. lra.
  - apply List.Forall_forall. intros v Hv. apply in_map_iff in Hv.
    destruct Hv as (x & <- & Hx).
    assert (Hx0 : (0 < x)%Q) by (rewrite List.Forall_forall in He; apply He, Hx).
    assert (Hxs : (x <= np_sum e)%Q).
    { apply np_sum_ge_member; [|exact Hx].
      eapply List.Forall_impl; [|exact He]. intros a Ha. apply Qlt_le_weak, Ha. }
    split.
    + apply Qlt_shift_div_l; [exact Hs | lra].
    + apply Qle_shift_div_r; [exact Hs | lra].
Qed.

(** X11.  With a positive exponential, every row of [softmax] is a
    probability distribution: its entries lie in (0, 1] and add up to 1,
    and the shape of the logits is kept. *)
Theorem softmax_rows_are_distributions `{Numpy} (n C : nat)
    (logits : list (list Q)) :
  (forall x, (0 < np_exp x)%Q) ->
  (0 < C)%nat -> has_shape n C logits ->
  has_shape n C (softmax logits) /\
  forall i, (i < n)%nat ->
    (np_sum (nth i (softmax logits) []) == 1)%Q /\
    forall j, (j < C)%nat -> (0 < entry (softmax logits) i j <= 1)%Q.
Proof.
  intros Hexp HC HS. split; [apply softmax_shape, HS|].
  intros i Hi. pose proof (softmax_shape n C logits HS) as HS'.
  rewrite softmax_rows in *.
  assert (Hrow : nth i (map softmax_row logits) [] = softmax_row (nth i logits [])).
  { apply nth_map_lt. rewrite (proj1 HS). exact Hi. }
  assert (Hlen : length (nth i logits []) = C) by apply (has_shape_row _ _ _ _ HS Hi).
  assert (Hne : nth i logits [] <> []).
  { intros E. rewrite E in Hlen. simpl in Hlen. lia. }
  destruct (softmax_row_distribution (nth i logits []) Hexp Hne) as [Hsum Hall].
  unfold entry. rewrite Hrow. split; [exact Hsum|].
  intros j Hj. rewrite List.Forall_forall in Hall. apply Hall, nth_In.
  unfold softmax_row. rewrite !length_map, Hlen. exact Hj.
Qed.

Lemma reference_exp_pos (x : Q) : (0 < @np_exp reference_numpy x)%Q.
Proof.
  change (@np_exp reference_numpy x) with (Reference.np_exp x).
  unfold Reference.np_exp. destruct (Qle_bool x 0) eqn:E.
  - apply Qle_bool_iff in E. apply Qlt_shift_div_l; lra.
  - assert (~ (x <= 0)%Q) by (rewrite <- Qle_bool_iff; congruence). lra.
Qed.

Lemma softmax_rows_are_distributions_witness :
  has_shape 2 3 (@softmax reference_numpy [[1; 2; 3]; [0; 0; 5]]%Q) /\
  forall i, (i < 2)%nat ->
    (np_sum (nth i (@softmax reference_numpy [[1; 2; 3]; [0; 0; 5]]%Q) []) == 1)%Q /\
    forall j, (j < 3)%nat ->
      (0 < entry (@softmax reference_numpy [[1; 2; 3]; [0; 0; 5]]%Q) i j <= 1)%Q.
Proof.
  apply (@softmax_rows_are_distributions reference_numpy 2 3 [[1; 2; 3]; [0; 0; 5]]%Q).
  - exact reference_exp_pos.
  - lia.
  - split; [reflexivity | repeat constructor].
Defined.

(** *** The prediction is the largest logit *)

Lemma argmax_from_map (f : Q -> Q) (l : list Q) (i best_i : nat) (best : Q) :
  (forall x y, (x <= y)%Q -> (f x <= f y)%Q) ->
  (forall x y, (x < y)%Q -> (f x < f y)%Q) ->
  argmax_from (map f l) i best_i (f best) = argmax_from l i best_i best.
Proof.
  intros Hle Hlt. revert i best_i best.
  induction l as [|x l IH]; intros i best_i best; cbn [map argmax_from]; [reflexivity|].
  destruct (Qle_bool x best) eqn:E.
  - apply Qle_bool_iff in E. apply Hle in E. apply Qle_bool_iff in E.
    rewrite E. apply IH.
  - assert (Hgt : (best < x)%Q).
    { apply Qnot_le_lt. rewrite <- Qle_bool_iff. congruence. }
    apply Hlt in Hgt.
    destruct (Qle_bool (f x) (f best)) eqn:E'.
    + apply Qle_bool_iff in E'. lra.
    + apply IH.
Qed.

Lemma np_argmax_map (f : Q -> Q) (l : list Q) :
  (forall x y, (x <= y)%Q -> (f x <= f y)%Q) ->
  (forall x y, (x < y)%Q -> (f x < f y)%Q) ->
  np_argmax (map f l) = np_argmax l.
Proof.
  intros Hle Hlt. destruct l as [|x l]; [reflexivity|].
  cbn [map np_argmax]. apply argmax_from_map; assumption.
Qed.

Lemma np_argmax_softmax_row `{Numpy} (row : list Q) :
  (forall x, (0 < np_exp x)%Q) ->
  (forall x y, (x <= y)%Q -> (np_exp x <= np_exp y)%Q) ->
  (forall x y, (x < y)%Q -> (np_exp x < np_exp y)%Q) ->
  np_argmax (softmax_row row) = np_argmax row.
Proof.
  intros Hpos Hle Hlt. destruct row as [|x0 row0] eqn:Er; [reflexivity|].
  rewrite <- Er. assert (Hne : row <> []) by (rewrite Er; discriminate).
  clear Er. unfold softmax_row. rewrite map_map.
  set (s := np_sum (map (fun v => np_exp (v - np_max row)) row)).
  assert (Hs : (0 < s)%Q).
  { apply np_sum_pos.
    - intros E. apply (f_equal (@length _)) in E. rewrite length_map in E.
      destruct row; [congruence | discriminate].
    - apply List.Forall_forall. intros v Hv. apply in_map_iff in Hv.
      destruct Hv as (x & <- & _). apply Hpos. }
  apply (np_argmax_map (fun v => (np_exp (v - np_max row) / s)%Q)).
  - intros x y Hxy. apply Qle_shift_div_l; [exact Hs|].
    assert (E : (np_exp (x - np_max row) / s * s == np_exp (x - np_max row))%Q)
      by (field; lra).
    rewrite E. apply Hle. lra.
  - intros x y Hxy. apply Qlt_shift_div_l; [exact Hs|].
    assert (E : (np_exp (x - np_max row) / s * s == np_exp (x - np_max row))%Q)
      by (field; lra).
    rewrite E. apply Hlt. lra.
Qed.

Lemma np_argmax_softmax `{Numpy} (logits : list (list Q)) :
  (forall x, (0 < np_exp x)%Q) ->
  (forall x y, (x <= y)%Q -> (np_exp x <= np_exp y)%Q) ->
  (forall x y, (x < y)%Q -> (np_exp x < np_exp y)%Q) ->
  map np_argmax (softmax logits) = map np_argmax logits.
Proof.
  intros Hpos Hle Hlt. rewrite softmax_rows, map_map. apply map_ext. intros row.
  apply np_argmax_softmax_row; assumption.
Qed.

(** X12.  With an increasing, positive exponential the class predicted
    from the probabilities of [forward] is the position of the largest
    logit: the normalisation by [softmax] never changes the prediction. *)
Theorem forward_prediction_is_largest_logit `{Numpy} (X W1 : list (list Q))
    (b1 : list Q) (W2 : list (list Q)) (b2 : list Q) :
  (forall x, (0 < np_exp x)%Q) ->
  (forall x y, (x <= y)%Q -> (np_exp x <= np_exp y)%Q) ->
  (forall x y, (x < y)%Q -> (np_exp x < np_exp y)%Q) ->
  let '(_, _, z2, probs) := forward X W1 b1 W2 b2 in
  map np_argmax probs = map np_argmax z2.
Proof.
  intros Hpos Hle Hlt. unfold forward.
  apply np_argmax_softmax; assumption.
Qed.

Lemma reference_exp_increasing (x y : Q) :
  (x < y)%Q -> (@np_exp reference_numpy x < @np_exp reference_numpy y)%Q.
Proof.
  change (@np_exp reference_numpy) with Reference.np_exp.
  intros Hxy. unfold Reference.np_exp.
  destruct (Qle_bool x 0) eqn:Ex; destruct (Qle_bool y 0) eqn:Ey.
  - apply Qle_bool_iff in Ex, Ey.
    apply Qlt_shift_div_l; [lra|].
    assert (E : (1 / (1 - x) * (1 - y) == (1 - y) / (1 - x))%Q) by (field; lra).
    rewrite E. apply Qlt_shift_div_r; lra.
  - apply Qle_bool_iff in Ex.
    assert (~ (y <= 0)%Q) by (rewrite <- Qle_bool_iff; congruence).
    apply Qlt_shift_div_r; [lra|]. nra.
  - apply Qle_bool_iff in Ey.
    assert (~ (x <= 0)%Q) by (rewrite <- Qle_bool_iff; congruence). lra.
  - lra.
Qed.

Lemma reference_exp_monotone (x y : Q) :
  (x <= y)%Q -> (@np_exp reference_numpy x <= @np_exp reference_numpy y)%Q.
Proof.
  intros Hxy. destruct (Qlt_le_dec x y) as [Hlt|Hge].
  - apply Qlt_le_weak, reference_exp_increasing, Hlt.
  - assert (E : (x == y)%Q) by lra.
    change (@np_exp reference_numpy) with Reference.np_exp.
    unfold Reference.np_exp.
    destruct (Qle_bool x 0) eqn:Ex; destruct (Qle_bool y 0) eqn:Ey.
    + rewrite E. apply Qle_refl.
    + apply Qle_bool_iff in Ex.
      assert (~ (y <= 0)%Q) by (rewrite <- Qle_bool_iff; congruence). lra.
    + apply Qle_bool_iff in Ey.
      assert (~ (x <= 0)%Q) by (rewrite <- Qle_bool_iff; congruence). lra.
    + lra.
Qed.

Lemma forward_prediction_is_largest_logit_witness :
  let '(_, _, z2, probs) :=
    @forward reference_numpy [[1; 2]; [3; 0]]%Q [[1; 0]; [0; 1]]%Q [0; 0]%Q
             [[1; 0]; [0; 1]; [1; 1]]%Q [0; 0; 0]%Q in
  map np_argmax probs = map np_argmax z2.
Proof.
  apply (@forward_prediction_is_largest_logit reference_numpy).
  - exact reference_exp_pos.
  - exact reference_exp_monotone.
  - exact reference_exp_increasing.
Defined.

(** *** Accuracy *)

Lemma hits_sum (preds : list nat) (y : list Z) :
  length preds = length y ->
  let hits := zip_with (fun p l => if Z.of_nat p =? l then 1%Q else 0%Q) preds y in
  length hits = length preds /\
  (0 <= np_sum hits <= inject_Z (Z.of_nat (length preds)))%Q /\
  ((np_sum hits == inject_Z (Z.of_nat (length preds)))%Q <->
   Forall2 (fun p l => Z.of_nat p = l) preds y).
Proof.
  revert y. induction preds as [|p preds IH]; intros [|l y] Hlen; try discriminate.
  - cbn [zip_with length]. change (np_sum []) with 0%Q.
    change (inject_Z (Z.of_nat 0)) with 0%Q.
    split; [reflexivity|]. split; [lra|]. split; [constructor | reflexivity].
  - injection Hlen as Hlen. destruct (IH y Hlen) as (HL & [H0 H1] & Hiff).
    cbn zeta in *. cbn [zip_with length]. unfold np_sum in *. cbn [fold_right].
    rewrite Nat2Z.inj_succ, <- Z.add_1_r, inject_Z_plus.
    change (inject_Z 1) with 1%Q.
    split; [rewrite HL; reflexivity|].
    destruct (Z.eqb_spec (Z.of_nat p) l) as [E|E].
    + split; [lra|]. split.
      * intros Hs. constructor; [exact E|]. apply Hiff. lra.
      * intros HF. apply Forall2_cons_1 in HF as [_ HF]. apply Hiff in HF. lra.
    + split; [lra|]. split.
      * intros Hs. exfalso. lra.
      * intros HF. apply Forall2_cons_1 in HF as [HE _]. contradiction.
Qed.

Lemma accuracy_range (probs : list (list Q)) (y : list Z) :
  probs <> [] -> length probs = length y ->
  (0 <= accuracy probs y <= 1)%Q /\
  ((accuracy probs y == 1)%Q <->
   Forall2 (fun row l => Z.of_nat (np_argmax row) = l) probs y).
Proof.
  intros Hne Hlen. unfold accuracy.
  destruct (hits_sum (map np_argmax probs) y) as (HL & [H0 H1] & Hiff);
    [rewrite length_map; exact Hlen|].
  cbv zeta in *. rewrite HL. rewrite length_map in *.
  set (s := np_sum _) in *.
  assert (Hn : (0 < inject_Z (Z.of_nat (length probs)))%Q).
  { change 0%Q with (inject_Z 0). rewrite <- Zlt_Qlt.
    destruct probs; [congruence | simpl; lia]. }
  set (n := inject_Z (Z.of_nat (length probs))) in *.
  split; [split|].
  - apply Qle_shift_div_l; [exact Hn | lra].
  - apply Qle_shift_div_r; [exact Hn | lra].
  - apply (iff_trans (B := (s == n)%Q));
      [|etransitivity; [exact Hiff | apply (Forall2_fmap_l np_argmax)]].
    split; intros E.
    + assert (E' : (s / n * n == s)%Q) by (field; lra). rewrite E in E'. lra.
    + rewrite E. field. lra.
Qed.

(** X13.  On a non-empty labelled batch the accuracy lies in [0, 1], and
    it is 1 exactly when the position of the largest probability of every
    row is the row's label. *)
Theorem accuracy_bounds (probs : list (list Q)) (y : list Z) :
  probs <> [] -> length probs = length y ->
  (0 <= accuracy probs y <= 1)%Q /\
  ((accuracy probs y == 1)%Q <->
   Forall2 (fun row l => Z.of_nat (np_argmax row) = l) probs y).
Proof. exact (accuracy_range probs y). Qed.

Lemma accuracy_bounds_witness :
  (0 <= accuracy [[1 # 2; 1 # 2]; [1 # 4; 3 # 4]]%Q [0; 0]%Z <= 1)%Q /\
  ((accuracy [[1 # 2; 1 # 2]; [1 # 4; 3 # 4]]%Q [0; 0]%Z == 1)%Q <->
   Forall2 (fun row l => Z.of_nat (np_argmax row) = l)
           [[1 # 2; 1 # 2]; [1 # 4; 3 # 4]]%Q [0; 0]%Z).
Proof.
  apply (accuracy_bounds [[1 # 2; 1 # 2]; [1 # 4; 3 # 4]]%Q [0; 0]%Z).
  - discriminate.
  - reflexivity.
Defined.

(** *** The evaluation of the quantised network *)

(** X17.  [evaluate_quantized] on a non-empty labelled set returns a
    value in [0, 1], and 1 exactly when for every row the largest logit of
    the network run on the integer tensors (cast, no scale applied) is at
    the row's label: the score depends on the integer weights through the
    positions of the largest logits only. *)
Theorem evaluate_quantized_counts_largest_logits `{Numpy}
    (X : list (list Q)) (y : list Z) (W1_q : list (list Z)) (b1_q : list Z)
    (W2_q : list (list Z)) (b2_q : list Z) :
  (forall x, (0 < np_exp x)%Q) ->
  (forall x y, (x <= y)%Q -> (np_exp x <= np_exp y)%Q) ->
  (forall x y, (x < y)%Q -> (np_exp x < np_exp y)%Q) ->
  X <> [] -> length X = length y ->
  (0 <= evaluate_quantized X y W1_q b1_q W2_q b2_q <= 1)%Q /\
  ((evaluate_quantized X y W1_q b1_q W2_q b2_q == 1)%Q <->
   Forall2 (fun row l => Z.of_nat (np_argmax row) = l)
           (integer_logits X W1_q b1_q W2_q b2_q) y).
Proof.
  intros Hpos Hle Hlt Hne Hlen. unfold evaluate_quantized, forward.
  fold (integer_logits X W1_q b1_q W2_q b2_q).
  set (z2 := integer_logits X W1_q b1_q W2_q b2_q).
  assert (Hz : length z2 = length X).
  { unfold z2, integer_logits, add_rows, matmul, relu. rewrite !length_map.
    reflexivity. }
  assert (Hp : length (softmax z2) = length X).
  { rewrite softmax_rows, length_map. exact Hz. }
  destruct (accuracy_range (softmax z2) y) as [Hr Hiff].
  { intros E. rewrite E in Hp. destruct X; [congruence | discriminate]. }
  { rewrite Hp. exact Hlen. }
  split; [exact Hr|]. rewrite Hiff.
  rewrite <- !(Forall2_fmap_l np_argmax (fun p l => Z.of_nat p = l)).
  change (np_argmax <$> softmax z2) with (map np_argmax (softmax z2)).
  rewrite (np_argmax_softmax z2 Hpos Hle Hlt). reflexivity.
Qed.

Lemma evaluate_quantized_counts_largest_logits_witness :
  (0 <= @evaluate_quantized reference_numpy [[1; 2]; [3; 0]]%Q [1; 0]%Z
          [[1; 0]; [0; 1]]%Z [0; 0]%Z [[1; 0]; [0; 1]]%Z [0; 0]%Z <= 1)%Q /\
  ((@evaluate_quantized reference_numpy [[1; 2]; [3; 0]]%Q [1; 0]%Z
          [[1; 0]; [0; 1]]%Z [0; 0]%Z [[1; 0]; [0; 1]]%Z [0; 0]%Z == 1)%Q <->
   Forall2 (fun row l => Z.of_nat (np_argmax row) = l)
           (integer_logits [[1; 2]; [3; 0]]%Q [[1; 0]; [0; 1]]%Z [0; 0]%Z
                           [[1; 0]; [0; 1]]%Z [0; 0]%Z) [1; 0]%Z).
Proof.
  apply (@evaluate_quantized_counts_largest_logits reference_numpy).
  - exact reference_exp_pos.
  - exact reference_exp_monotone.
  - exact reference_exp_increasing.
  - discriminate.
  - reflexivity.
Defined.

(** *** Labels outside the class range *)

Lemma np_index_raises (len : nat) (l : Z) :
  l < - Z.of_nat len \/ Z.of_nat len <= l -> np_index len l = Raise IndexError.
Proof.
  intros Hl. unfold np_index.
  destruct (Z.leb_spec 0 l); destruct (Z.ltb_spec l (Z.of_nat len));
    destruct (Z.leb_spec (- Z.of_nat len) l); destruct (Z.ltb_spec l 0);
    cbn [andb]; try reflexivity; lia.
Qed.

Lemma np_index_error (len : nat) (l : Z) (e : exception) :
  np_index len l = Raise e -> e = IndexError.
Proof.
  unfold np_index.
  destruct (_ && _); [discriminate|]. destruct (_ && _); [discriminate|].
  congruence.
Qed.

Lemma fancy_decrement_raises (C : nat) (rows : list (list Q)) (labels : list Z) :
  has_shape (length labels) C rows ->
  Exists (fun l => l < - Z.of_nat C \/ Z.of_nat C <= l) labels ->
  fancy_decrement rows labels = Raise IndexError.
Proof.
  revert rows. induction labels as [|l labels IH]; intros rows [Hr Hc] Hex.
  - inversion Hex.
  - destruct rows as [|r rs]; [reflexivity|].
    apply Forall_cons_1 in Hc as [Hrl Hc]. simpl in Hr.
    cbn [fancy_decrement]. unfold decrement_at. rewrite Hrl.
    destruct (np_index C l) as [j|e] eqn:Ej.
    + cbn [bind]. rewrite IH; [reflexivity | split; [lia | exact Hc] |].
      apply Exists_cons in Hex as [Hbad|Hex]; [|exact Hex].
      rewrite (np_index_raises C l Hbad) in Ej. discriminate.
    + cbn [bind]. rewrite (np_index_error C l e Ej). reflexivity.
Qed.

(** X14.  [backward] raises [IndexError] as soon as one label of the batch
    lies outside [-C, C) for [C] classes; no gradient is returned. *)
Theorem backward_rejects_label_out_of_range (C : nat)
    (X z1 h1 probs : list (list Q)) (labels : list Z) (W2 : list (list Q)) :
  length labels = length X ->
  has_shape (length X) C probs ->
  Exists (fun l => l < - Z.of_nat C \/ Z.of_nat C <= l) labels ->
  backward X z1 h1 probs labels W2 = Raise IndexError.
Proof.
  intros Hlen HS Hex. unfold backward.
  rewrite Hlen, Nat.eqb_refl. cbn [negb].
  rewrite (fancy_decrement_raises C probs labels); [reflexivity | | exact Hex].
  rewrite Hlen. exact HS.
Qed.

Lemma backward_rejects_label_out_of_range_witness :
  backward [[1; 2]; [3; 4]]%Q [[1]; [-1]]%Q [[1]; [0]]%Q
           [[1 # 4; 3 # 4]; [1 # 2; 1 # 2]]%Q [1; 2] [[1]; [1]]%Q
  = Raise IndexError.
Proof.
  apply (backward_rejects_label_out_of_range 2).
  - reflexivity.
  - split; [reflexivity | repeat constructor].
  - apply Exists_cons_tl, Exists_cons_hd. right. simpl. lia.
Defined.

Lemma np_index_wrap (len : nat) (l : Z) :
  - Z.of_nat len <= l < Z.of_nat len ->
  np_index len l = np_index len (l mod Z.of_nat len).
Proof.
  intros Hl. unfold np_index.
  assert (Hpos : 0 < Z.of_nat len) by lia.
  pose proof (Z.mod_pos_bound l (Z.of_nat len) Hpos) as Hm.
  destruct (Z.leb_spec 0 (l mod Z.of_nat len)); [|lia].
  destruct (Z.ltb_spec (l mod Z.of_nat len) (Z.of_nat len)); [|lia].
  cbn [andb].
  destruct (Z.leb_spec 0 l); destruct (Z.ltb_spec l (Z.of_nat len)); cbn [andb];
    try lia.
  - rewrite Z.mod_small by lia. reflexivity.
  - destruct (Z.leb_spec (- Z.of_nat len) l); [|lia].
    destruct (Z.ltb_spec l 0); [|lia]. cbn [andb]. do 2 f_equal.
    apply (Z.mod_unique_pos l (Z.of_nat len) (-1)); lia.
Qed.

Lemma fancy_decrement_wrap (C : nat) (probs : list (list Q)) (labels : list Z) :
  Forall (fun row => length row = C) probs ->
  Forall (fun l => - Z.of_nat C <= l < Z.of_nat C) labels ->
  fancy_decrement probs labels
  = fancy_decrement probs (map (fun l => l mod Z.of_nat C) labels).
Proof.
  intros Hc Hl. revert probs Hc.
  induction Hl as [|l labels Hl0 _ IH]; intros probs Hc; [reflexivity|].
  destruct probs as [|r rs]; [reflexivity|]. cbn [map fancy_decrement].
  apply Forall_cons_1 in Hc as [Hr Hc].
  unfold decrement_at. rewrite Hr, <- (np_index_wrap C l Hl0), (IH rs Hc).
  reflexivity.
Qed.

(** X15.  A negative label counts from the last class, as numpy indexes:
    with [C] classes and labels in [-C, C), [backward] returns what it
    returns for the labels taken modulo [C], so that label [-1] is trained
    as class [C - 1]. *)
Theorem backward_negative_label_wraps (C : nat)
    (X z1 h1 probs : list (list Q)) (labels : list Z) (W2 : list (list Q)) :
  Forall (fun row => length row = C) probs ->
  Forall (fun l => - Z.of_nat C <= l < Z.of_nat C) labels ->
  backward X z1 h1 probs labels W2 =
  backward X z1 h1 probs (map (fun l => l mod Z.of_nat C) labels) W2.
Proof.
  intros Hc Hl. unfold backward. rewrite length_map.
  destruct (negb _); [reflexivity|].
  rewrite (fancy_decrement_wrap C probs labels Hc Hl). reflexivity.
Qed.

Lemma backward_negative_label_wraps_witness :
  backward [[1; 2]; [3; 4]]%Q [[1]; [-1]]%Q [[1]; [0]]%Q
           [[1 # 4; 3 # 4]; [1 # 2; 1 # 2]]%Q [-1; 0] [[1]; [1]]%Q
  = backward [[1; 2]; [3; 4]]%Q [[1]; [-1]]%Q [[1]; [0]]%Q
             [[1 # 4; 3 # 4]; [1 # 2; 1 # 2]]%Q [1; 0] [[1]; [1]]%Q.
Proof.
  apply (backward_negative_label_wraps 2
           [[1; 2]; [3; 4]]%Q [[1]; [-1]]%Q [[1]; [0]]%Q
           [[1 # 4; 3 # 4]; [1 # 2; 1 # 2]]%Q [-1; 0] [[1]; [1]]%Q).
  - repeat constructor.
  - repeat constructor; simpl; lia.
Defined.

(** *** The gradient of the output biases *)

Lemma np_sum_map_plus {A : Type} (f g : A -> Q) (l : list A) :
  (np_sum (map (fun a => f a + g a) l) == np_sum (map f l) + np_sum (map g l))%Q.
Proof.
  induction l as [|a l IH]; unfold np_sum in *; cbn [map fold_right]; [ring|].
  rewrite IH. ring.
Qed.

Lemma np_sum_zeros {A : Type} (l : list A) : (np_sum (map (fun _ => 0) l) == 0)%Q.
Proof.
  induction l as [|a l IH]; unfold np_sum in *; cbn [map fold_right]; [ring|].
  rewrite IH. ring.
Qed.

Lemma np_sum_columns (C : nat) (M : list (list Q)) :
  Forall (fun row => length row = C) M ->
  (np_sum (map (fun j => np_sum (column j M)) (seq 0 C)) == np_sum (map np_sum M))%Q.
Proof.
  induction 1 as [|r M Hr _ IH].
  - change (np_sum (map np_sum [])) with 0%Q. apply np_sum_zeros.
  - change (np_sum (map np_sum (r :: M))) with (np_sum r + np_sum (map np_sum M))%Q.
    assert (Er : np_sum r = np_sum (map (fun j => nth j r 0%Q) (seq 0 C))).
    { rewrite <- Hr. rewrite <- (np_take_seq 0%Q r) at 1. reflexivity. }
    rewrite Er, <- IH.
    rewrite <- (np_sum_map_plus (fun j => nth j r 0%Q) (fun j => np_sum (column j M))).
    reflexivity.
Qed.

(** Summing [M.sum(axis=0)] adds up every entry of [M]. *)
Lemma np_sum_sum_axis0 (n C : nat) (M : list (list Q)) :
  has_shape n C M -> (np_sum (sum_axis0 M) == np_sum (map np_sum M))%Q.
Proof.
  intros HS. destruct M as [|r M]; [reflexivity|].
  unfold sum_axis0, transpose. rewrite map_map.
  rewrite (has_shape_ncols n C (r :: M) HS) by (destruct HS as [<- _]; simpl; lia).
  apply np_sum_columns, HS.
Qed.

Lemma np_sum_insert (row : list Q) (j : nat) (x : Q) :
  (j < length row)%nat ->
  (np_sum (<[j := x]> row) == np_sum row - nth j row 0 + x)%Q.
Proof.
  revert j. induction row as [|v row IH]; intros j Hj; simpl in Hj; [lia|].
  destruct j as [|j].
  - cbn. unfold np_sum. cbn [fold_right]. ring.
  - change (<[S j := x]> (v :: row)) with (v :: <[j := x]> row).
    unfold np_sum in *. cbn [fold_right nth]. rewrite IH by lia. ring.
Qed.

Lemma np_index_lt (len : nat) (l : Z) (j : nat) :
  np_index len l = Ok j -> (j < len)%nat.
Proof.
  unfold np_index.
  destruct (Z.leb_spec 0 l); destruct (Z.ltb_spec l (Z.of_nat len)); cbn [andb];
    try (intros [= <-]; lia);
    destruct (Z.leb_spec (- Z.of_nat len) l); destruct (Z.ltb_spec l 0); cbn [andb];
    try discriminate; intros [= <-]; lia.
Qed.

Lemma fancy_decrement_row_sums (rows : list (list Q)) (labels : list Z)
    (dz : list (list Q)) :
  length labels = length rows ->
  fancy_decrement rows labels = Ok dz ->
  Forall2 (fun r d => length d = length r /\ (np_sum d == np_sum r - 1)%Q) rows dz.
Proof.
  revert rows dz. induction labels as [|l labels IH]; intros rows dz Hlen E.
  - destruct rows; [|discriminate]. cbn in E. injection E as <-. constructor.
  - destruct rows as [|r rs]; [discriminate|]. injection Hlen as Hlen.
    cbn [fancy_decrement] in E. unfold decrement_at in E.
    destruct (np_index (length r) l) as [j|e] eqn:Ej; [|discriminate].
    cbn [bind] in E.
    destruct (fancy_decrement rs labels) as [dz'|e] eqn:E'; [|discriminate].
    cbn [bind] in E. injection E as <-.
    constructor; [|apply IH; [exact Hlen | exact E']].
    split; [apply length_insert|].
    rewrite np_sum_insert by (apply (np_index_lt _ l), Ej). ring.
Qed.

(** What [backward] returns as [db2]. *)
Lemma backward_db2 (X z1 h1 probs : list (list Q)) (labels : list Z)
    (W2 : list (list Q)) (dW1 : list (list Q)) (db1 : list Q)
    (dW2 : list (list Q)) (db2 : list Q) :
  backward X z1 h1 probs labels W2 = Ok (dW1, db1, dW2, db2) ->
  exists dz,
    length labels = length X /\ fancy_decrement probs labels = Ok dz /\
    db2 = sum_axis0
            (map (map (fun v => (v / inject_Z (Z.of_nat (length X)))%Q)) dz).
Proof.
  unfold backward.
  destruct (Nat.eqb_spec (length labels) (length X)) as [Hlen|]; [|discriminate].
  cbn [negb].
  destruct (fancy_decrement probs labels) as [dz|e]; [|discriminate].
  cbn [bind]. intros [= _ _ _ <-]. exists dz. auto.
Qed.

(** Rows that add up to 1, decremented by 1 in one place and scaled, add up
    to zero in total. *)
Lemma decremented_rows_sum (n : Q) (k C : nat) (rows dz : list (list Q)) :
  has_shape k C rows ->
  Forall (fun row => (np_sum row == 1)%Q) rows ->
  Forall2 (fun r d => length d = length r /\ (np_sum d == np_sum r - 1)%Q) rows dz ->
  (np_sum (sum_axis0 (map (map (fun v => (v / n)%Q)) dz)) == 0)%Q.
Proof.
  intros HS Hsum HF.
  assert (HSdz : has_shape k C (map (map (fun v => (v / n)%Q)) dz)).
  { apply has_shape_map_map. destruct HS as [HS1 HS2]. split.
    - rewrite <- (Forall2_length _ _ _ HF). exact HS1.
    - clear -HF HS2. induction HF as [|r d rows dz [Hd _] _ IH]; [constructor|].
      apply Forall_cons_1 in HS2 as [Hr HS2].
      constructor; [congruence | apply IH, HS2]. }
  rewrite (np_sum_sum_axis0 _ _ _ HSdz), map_map.
  clear -HF Hsum. induction HF as [|r d rows dz [_ Hd] _ IH].
  - reflexivity.
  - apply Forall_cons_1 in Hsum as [Hr Hsum].
    cbn [map]. unfold np_sum at 1. cbn [fold_right].
    fold (np_sum (map (fun x => np_sum (map (fun v => (v / n)%Q) x)) dz)).
    rewrite (IH Hsum), np_sum_map_div, Hd, Hr. unfold Qdiv. ring.
Qed.

(** X16.  When every row of [probs] adds up to 1, as the rows of
    [softmax] do, the gradient of the output biases returned by [backward]
    adds up to zero: an update [b2 -= lr * db2] keeps the sum of [b2]. *)
Theorem output_bias_gradient_sums_to_zero (C : nat)
    (X z1 h1 probs : list (list Q)) (labels : list Z) (W2 : list (list Q))
    (dW1 : list (list Q)) (db1 : list Q) (dW2 : list (list Q)) (db2 : list Q) :
  has_shape (length X) C probs ->
  Forall (fun row => (np_sum row == 1)%Q) probs ->
  backward X z1 h1 probs labels W2 = Ok (dW1, db1, dW2, db2) ->
  (np_sum db2 == 0)%Q.
Proof.
  intros HS Hsum E.
  destruct (backward_db2 _ _ _ _ _ _ _ _ _ _ E) as (dz & Hlen & Edz & ->).
  apply (decremented_rows_sum _ (length X) C probs dz HS Hsum).
  apply (fancy_decrement_row_sums probs labels dz); [|exact Edz].
  rewrite Hlen. symmetry. apply HS.
Qed.

Lemma output_bias_gradient_sums_to_zero_witness :
  exists dW1 db1 dW2 db2,
    backward [[1; 2]; [3; 4]]%Q [[1]; [-1]]%Q [[1]; [0]]%Q
             [[1 # 4; 3 # 4]; [1 # 2; 1 # 2]]%Q [1; 0] [[1]; [1]]%Q
    = Ok (dW1, db1, dW2, db2) /\ (np_sum db2 == 0)%Q.
Proof.
  eexists _, _, _, _. split; [reflexivity|].
  eapply (output_bias_gradient_sums_to_zero 2
            [[1; 2]; [3; 4]]%Q [[1]; [-1]]%Q [[1]; [0]]%Q
            [[1 # 4; 3 # 4]; [1 # 2; 1 # 2]]%Q [1; 0] [[1]; [1]]%Q).
  - split; [reflexivity | repeat constructor].
  - repeat constructor.
  - reflexivity.
Defined.
(** ** Trainer: arguments it rejects, and runs that keep the initial
    parameters *)

(** The first epoch with a batch size of zero. *)
Lemma train_epoch_zero_batch `{Numpy} (X_train : list (list Q)) (y_train : list Z)
    (X_val : list (list Q)) (y_val : list Z) (lr_decay : Q) (st : train_state) :
  train_epoch X_train y_train X_val y_val 0 lr_decay st = Raise ValueError.
Proof.
  unfold train_epoch. destruct (permutation _ _) as [perm rng']. reflexivity.
Qed.

(** An epoch whose loop over the batches does not run. *)
Lemma train_epoch_no_batch `{Numpy} (X_train : list (list Q)) (y_train : list Z)
    (X_val : list (list Q)) (y_val : list Z) (batch_size : Z) (lr_decay : Q)
    (st : train_state) :
  batch_size < 0 \/ (0 < batch_size /\ X_train = []) ->
  train_epoch X_train y_train X_val y_val batch_size lr_decay st
  = Raise ZeroDivisionError.
Proof.
  intros Hb. unfold train_epoch. destruct (permutation _ _) as [perm rng'].
  assert (E : py_range_step (length X_train) batch_size = Ok []).
  { unfold py_range_step. destruct Hb as [Hneg|[Hpos ->]].
    - destruct (Z.eqb_spec batch_size 0); [lia|].
      destruct (Z.ltb_spec batch_size 0); [reflexivity | lia].
    - destruct (Z.eqb_spec batch_size 0); [lia|].
      destruct (Z.ltb_spec batch_size 0); [lia|].
      cbn [length]. rewrite Nat.add_0_l.
      rewrite Nat.div_small by lia. reflexivity. }
  rewrite E. reflexivity.
Qed.

Lemma train_run_raises `{Numpy} (X_train : list (list Q)) (y_train : list Z)
    (X_val : list (list Q)) (y_val : list Z) (batch_size : Z) (lr0 lr_decay : Q)
    (seed : Z) (h : store) (e : exception) :
  (forall st, train_epoch X_train y_train X_val y_val batch_size lr_decay st
              = Raise e) ->
  forall k,
    train_run X_train y_train X_val y_val batch_size lr0 lr_decay seed h (S k)
    = Raise e.
Proof.
  intros Hstep. induction k as [|k IH].
  - cbn [train_run bind]. apply Hstep.
  - change (train_run X_train y_train X_val y_val batch_size lr0 lr_decay seed h
                      (S (S k)))
      with (let* st := train_run X_train y_train X_val y_val batch_size lr0
                                 lr_decay seed h (S k) in
            train_epoch X_train y_train X_val y_val batch_size lr_decay st).
    rewrite IH. reflexivity.
Qed.

(** X18.  With at least one epoch, [train] called with a batch size of 0
    raises [ValueError] (the step of [range]), whatever the data. *)
Theorem train_rejects_zero_batch_size `{Numpy} (X_train : list (list Q))
    (y_train : list Z) (X_val : list (list Q)) (y_val : list Z) (epochs : Z)
    (lr0 lr_decay : Q) (seed : Z) (h : store) :
  1 <= epochs ->
  train X_train y_train X_val y_val epochs 0 lr0 lr_decay seed h
  = Raise ValueError.
Proof.
  intros He. unfold train.
  destruct (Z.to_nat epochs) as [|k] eqn:Ek; [lia|].
  rewrite (train_run_raises X_train y_train X_val y_val 0 lr0 lr_decay seed h
             ValueError); [reflexivity|].
  intros st. apply train_epoch_zero_batch.
Qed.

Lemma train_rejects_zero_batch_size_witness :
  @train reference_numpy [[1; 2; 3; 4; 5; 6; 7; 8]]%Q [0] [] [] 3 0
         (1 # 100) (995 # 1000) 42 ∅
  = Raise ValueError.
Proof.
  apply (@train_rejects_zero_batch_size reference_numpy). lia.
Defined.

(** X19.  With at least one epoch, [train] raises [ZeroDivisionError]
    (the mean of the epoch's loss over no batch) when the batch size is
    negative, and when the training set is empty. *)
Theorem train_without_batches_divides_by_zero `{Numpy} (X_train : list (list Q))
    (y_train : list Z) (X_val : list (list Q)) (y_val : list Z)
    (epochs batch_size : Z) (lr0 lr_decay : Q) (seed : Z) (h : store) :
  1 <= epochs ->
  batch_size < 0 \/ (0 < batch_size /\ X_train = []) ->
  train X_train y_train X_val y_val epochs batch_size lr0 lr_decay seed h
  = Raise ZeroDivisionError.
Proof.
  intros He Hb. unfold train.
  destruct (Z.to_nat epochs) as [|k] eqn:Ek; [lia|].
  rewrite (train_run_raises X_train y_train X_val y_val batch_size lr0 lr_decay
             seed h ZeroDivisionError); [reflexivity|].
  intros st. apply train_epoch_no_batch, Hb.
Qed.

Lemma train_without_batches_divides_by_zero_witness :
  @train reference_numpy [] [] [[1; 2; 3; 4; 5; 6; 7; 8]]%Q [0] 2 64
         (1 # 100) (995 # 1000) 42 ∅
  = Raise ZeroDivisionError.
Proof.
  apply (@train_without_batches_divides_by_zero reference_numpy);
    [lia | right; split; [lia | reflexivity]].
Defined.

(** *** The initial parameters *)

Lemma train_init_values `{Numpy} (lr0 : Q) (seed : Z) (h : store) :
  read_params (heap (train_init lr0 seed h)) (working (train_init lr0 seed h))
  = initial_params seed.
Proof.
  unfold train_init, initial_params.
  destruct (randn 16 8 (RandomState seed)) as [w1 rng1].
  destruct (alloc h _) as [r1 h1] eqn:E1. apply alloc_spec in E1 as [F1 ->].
  destruct (alloc _ (Vec (repeat 0%Q 16))) as [r2 h2] eqn:E2.
  apply alloc_spec in E2 as [F2 ->].
  destruct (randn 4 16 rng1) as [w2 rng2].
  destruct (alloc _ (Mat _)) as [r3 h3] eqn:E3. apply alloc_spec in E3 as [F3 ->].
  destruct (alloc _ (Vec (repeat 0%Q 4))) as [r4 h4] eqn:E4.
  apply alloc_spec in E4 as [F4 ->].
  assert (N12 : r1 <> r2) by (intros ->; rewrite lookup_insert_eq in F2; discriminate).
  assert (N23 : r2 <> r3) by (intros ->; rewrite lookup_insert_eq in F3; discriminate).
  rewrite lookup_insert_ne in F3 by exact N23.
  assert (N13 : r1 <> r3) by (intros ->; rewrite lookup_insert_eq in F3; discriminate).
  assert (N34 : r3 <> r4) by (intros ->; rewrite lookup_insert_eq in F4; discriminate).
  rewrite lookup_insert_ne in F4 by exact N34.
  assert (N24 : r2 <> r4) by (intros ->; rewrite lookup_insert_eq in F4; discriminate).
  rewrite lookup_insert_ne in F4 by exact N24.
  assert (N14 : r1 <> r4) by (intros ->; rewrite lookup_insert_eq in F4; discriminate).
  set (w := {| rW1 := r1; rb1 := r2; rW2 := r3; rb2 := r4 |}).
  set (h4 := <[r4 := _]> _).
  assert (L1 : h4 !! r1 = Some (Mat (map (map (fun v => (v * np_sqrt (2 / 8))%Q)) w1))).
  { unfold h4. rewrite !lookup_insert_ne by congruence. apply lookup_insert_eq. }
  assert (L2 : h4 !! r2 = Some (Vec (repeat 0%Q 16))).
  { unfold h4. rewrite !lookup_insert_ne by congruence. apply lookup_insert_eq. }
  assert (L3 : h4 !! r3 = Some (Mat (map (map (fun v => (v * np_sqrt (2 / 16))%Q)) w2))).
  { unfold h4. rewrite !lookup_insert_ne by congruence. apply lookup_insert_eq. }
  assert (L4 : h4 !! r4 = Some (Vec (repeat 0%Q 4))).
  { unfold h4. apply lookup_insert_eq. }
  assert (Hall : allocated h4 w).
  { intros r [<-|[<-|[<-|[<-|[]]]]]; unfold w; cbn [rW1 rb1 rW2 rb2]; congruence. }
  destruct (copy_params h4 w) as [best h5] eqn:EC.
  destruct (copy_params_spec h4 w best h5 Hall EC)
    as (Hfresh & _ & P & _ & _ & _).
  cbn [heap working].
  rewrite (read_params_ext h4 h5 w).
  - unfold read_params, read_mat, read_vec, w. cbn [rW1 rb1 rW2 rb2].
    rewrite L1, L2, L3, L4. reflexivity.
  - intros r Hr. apply P. intros Hb. apply (Hall r Hr), Hfresh, Hb.
Qed.

(** X20.  With no epoch to run ([epochs <= 0]) [train] returns copies of
    the initial parameters, whatever the data and the batch size: the
    Xavier-scaled draws and zero biases. *)
Theorem train_without_epochs_returns_initial_params `{Numpy}
    (X_train : list (list Q)) (y_train : list Z) (X_val : list (list Q))
    (y_val : list Z) (epochs batch_size : Z) (lr0 lr_decay : Q) (seed : Z)
    (h : store) :
  epochs <= 0 ->
  exists best h',
    train X_train y_train X_val y_val epochs batch_size lr0 lr_decay seed h
    = Ok (best, h') /\
    read_params h' best = initial_params seed /\
    NoDup (refs_of best).
Proof.
  intros He. unfold train. replace (Z.to_nat epochs) with 0%nat by lia.
  cbn [train_run bind].
  destruct (train_init_spec lr0 seed h) as (_ & Hnd & _ & Hread).
  eexists _, _. split; [reflexivity|]. split; [|exact Hnd].
  rewrite Hread. apply train_init_values.
Qed.

Lemma train_without_epochs_returns_initial_params_witness :
  exists best h',
    @train reference_numpy [] [] [] [] 0 0 (1 # 100) (995 # 1000) 42 ∅
    = Ok (best, h') /\
    read_params h' best = @initial_params reference_numpy 42 /\
    NoDup (refs_of best).
Proof.
  apply (@train_without_epochs_returns_initial_params reference_numpy). lia.
Defined.

(** *** The step size and the generator across epochs *)

Lemma train_epoch_lr `{Numpy} (X_train : list (list Q)) (y_train : list Z)
    (X_val : list (list Q)) (y_val : list Z) (batch_size : Z) (lr_decay : Q)
    (st st' : train_state) :
  train_epoch X_train y_train X_val y_val batch_size lr_decay st = Ok st' ->
  lr st' = (lr st * lr_decay)%Q /\
  rng st' = snd (permutation (length X_train) (rng st)).
Proof.
  unfold train_epoch.
  destruct (permutation (length X_train) (rng st)) as [perm rng'].
  destruct (py_range_step (length X_train) batch_size) as [starts|e];
    [|discriminate].
  rewrite bind_Ok. cbv beta iota zeta.
  destruct (fold_left _ starts (Ok (heap st))) as [h1|e]; [|discriminate].
  rewrite bind_Ok. cbv beta.
  destruct (length starts =? 0)%nat; [discriminate|].
  destruct (Qgt_bool _ _).
  - destruct (copy_params h1 (working st)) as [best h2].
    intros [= <-]. split; reflexivity.
  - intros [= <-]. split; reflexivity.
Qed.

Lemma train_init_lr `{Numpy} (lr0 : Q) (seed : Z) (h : store) :
  lr (train_init lr0 seed h) = lr0.
Proof.
  unfold train_init.
  destruct (randn 16 8 (RandomState seed)) as [w1 rng1].
  destruct (alloc h _) as [r1 h1].
  destruct (alloc h1 _) as [r2 h2].
  destruct (randn 4 16 rng1) as [w2 rng2].
  destruct (alloc h2 _) as [r3 h3].
  destruct (alloc h3 _) as [r4 h4].
  destruct (copy_params h4 _) as [best h5]. reflexivity.
Qed.

(** X21.  On a labelled training set and with a positive batch size the
    loop over epochs runs through, and after [k] epochs the step size is
    the initial one times [lr_decay ^ k]: epoch [k + 1] updates the
    parameters with [lr * lr_decay ^ k]. *)
Theorem learning_rate_schedule `{Numpy} (X_train : list (list Q))
    (y_train : list Z) (X_val : list (list Q)) (y_val : list Z)
    (batch_size : Z) (lr0 lr_decay : Q) (seed : Z) (h : store) (k : nat) :
  0 < batch_size -> (0 < length X_train)%nat ->
  has_shape (length y_train) 8 X_train -> Forall label_ok y_train ->
  exists st,
    train_run X_train y_train X_val y_val batch_size lr0 lr_decay seed h k
    = Ok st /\
    (lr st == lr0 * lr_decay ^ Z.of_nat k)%Q.
Proof.
  intros Hbs Hn _ Hlab. induction k as [|k IH].
  - exists (train_init lr0 seed h). split; [reflexivity|].
    rewrite train_init_lr. change (lr_decay ^ Z.of_nat 0)%Q with 1%Q. ring.
  - destruct IH as (st & Erun & Hlr).
    destruct (run_spec X_train y_train X_val y_val batch_size lr0 lr_decay seed h
                Hbs Hn Hlab (S k)) as (st' & Erun' & _).
    exists st'. split; [exact Erun'|].
    unfold run in Erun'. cbn [train_run] in Erun'. rewrite Erun in Erun'.
    rewrite bind_Ok in Erun'.
    destruct (train_epoch_lr _ _ _ _ _ _ _ _ Erun') as [-> _].
    rewrite Hlr, Nat2Z.inj_succ, <- Z.add_1_r.
    destruct k as [|k].
    + change (lr_decay ^ (Z.of_nat 0 + 1))%Q with lr_decay.
      change (lr_decay ^ Z.of_nat 0)%Q with 1%Q. ring.
    + rewrite Qpower_plus' by lia. change (lr_decay ^ 1)%Q with lr_decay. ring.
Qed.

Lemma learning_rate_schedule_witness :
  exists st,
    @train_run reference_numpy
      [[200; 30; 10; 5; 20; 40; 20; 50]; [50; 200; 40; 20; 60; 200; 60; 150];
       [30; 40; 200; 30; 120; 120; 120; 120]]%Q [0; 1; 2]
      [[210; 40; 20; 10; 30; 50; 30; 60]]%Q [0]
      2 (1 # 100) (995 # 1000) 42 ∅ 2
    = Ok st /\
    (@lr reference_numpy st == (1 # 100) * (995 # 1000) ^ Z.of_nat 2)%Q.
Proof.
  apply (@learning_rate_schedule reference_numpy).
  - lia.
  - simpl. lia.
  - split; [reflexivity | repeat constructor].
  - repeat constructor; unfold label_ok; lia.
Defined.

(** *** The arrays returned *)

Lemma wf_params_read (h : store) (w : params) :
  wf_params h w ->
  has_shape 16 8 (read_mat h (rW1 w)) /\ length (read_vec h (rb1 w)) = 16%nat /\
  has_shape 4 16 (read_mat h (rW2 w)) /\ length (read_vec h (rb2 w)) = 4%nat.
Proof.
  intros (_ & (W1 & E1 & S1) & (b1 & E2 & S2) & (W2 & E3 & S3) & (b2 & E4 & S4)).
  unfold read_mat, read_vec. rewrite E1, E2, E3, E4. tauto.
Qed.

(** The arrays [train] returns have the shapes of the network. *)
Lemma train_shapes `{Numpy} (X_train : list (list Q)) (y_train : list Z)
    (X_val : list (list Q)) (y_val : list Z) (epochs batch_size : Z)
    (lr0 lr_decay : Q) (seed : Z) (h : store) :
  0 < batch_size -> (0 < length X_train)%nat -> Forall label_ok y_train ->
  exists best h',
    train X_train y_train X_val y_val epochs batch_size lr0 lr_decay seed h
    = Ok (best, h') /\
    has_shape 16 8 (read_mat h' (rW1 best)) /\
    length (read_vec h' (rb1 best)) = 16%nat /\
    has_shape 4 16 (read_mat h' (rW2 best)) /\
    length (read_vec h' (rb2 best)) = 4%nat.
Proof.
  intros Hbs Hn Hlab.
  destruct (run_spec X_train y_train X_val y_val batch_size lr0 lr_decay seed h
              Hbs Hn Hlab (Z.to_nat epochs))
    as (st & Erun & _ & _ & j & sj & _ & Ej & Hread & _).
  destruct (run_spec X_train y_train X_val y_val batch_size lr0 lr_decay seed h
              Hbs Hn Hlab j) as (sj' & Ej' & (Hwf & _) & _).
  rewrite Ej in Ej'. injection Ej' as <-.
  exists (best_params st), (heap st). split.
  - unfold train. unfold run in Erun. rewrite Erun. reflexivity.
  - unfold read_params in Hread. injection Hread as -> -> -> ->.
    apply wf_params_read, Hwf.
Qed.

(** X22.  On a labelled training set and with a positive batch size
    [train] returns, for any number of epochs, arrays of the shapes of the
    network: (16, 8), (16,), (4, 16) and (4,), 212 entries in all. *)
Theorem train_returns_network_shapes `{Numpy} (X_train : list (list Q))
    (y_train : list Z) (X_val : list (list Q)) (y_val : list Z)
    (epochs batch_size : Z) (lr0 lr_decay : Q) (seed : Z) (h : store) :
  0 < batch_size -> (0 < length X_train)%nat ->
  has_shape (length y_train) 8 X_train -> Forall label_ok y_train ->
  exists best h' W1 b1 W2 b2,
    train X_train y_train X_val y_val epochs batch_size lr0 lr_decay seed h
    = Ok (best, h') /\
    read_params h' best = (W1, b1, W2, b2) /\
    has_shape 16 8 W1 /\ length b1 = 16%nat /\
    has_shape 4 16 W2 /\ length b2 = 4%nat /\
    length (concat W1 ++ b1 ++ concat W2 ++ b2) = 212%nat.
Proof.
  intros Hbs Hn _ Hlab.
  destruct (train_shapes X_train y_train X_val y_val epochs batch_size lr0
              lr_decay seed h Hbs Hn Hlab)
    as (best & h' & E & S1 & S2 & S3 & S4).
  exists best, h'. eexists _, _, _, _. split; [exact E|].
  split; [reflexivity|]. split_and!; try assumption.
  rewrite !length_app.
  rewrite (length_concat_shape 16 8 _ S1), (length_concat_shape 4 16 _ S3), S2, S4.
  reflexivity.
Qed.

Lemma train_returns_network_shapes_witness :
  exists best h' W1 b1 W2 b2,
    @train reference_numpy
      [[200; 30; 10; 5; 20; 40; 20; 50]; [50; 200; 40; 20; 60; 200; 60; 150];
       [30; 40; 200; 30; 120; 120; 120; 120]]%Q [0; 1; 2]
      [[210; 40; 20; 10; 30; 50; 30; 60]]%Q [0]
      2 2 (1 # 100) (995 # 1000) 42 ∅
    = Ok (best, h') /\
    read_params h' best = (W1, b1, W2, b2) /\
    has_shape 16 8 W1 /\ length b1 = 16%nat /\
    has_shape 4 16 W2 /\ length b2 = 4%nat /\
    length (concat W1 ++ b1 ++ concat W2 ++ b2) = 212%nat.
Proof.
  apply (@train_returns_network_shapes reference_numpy).
  - lia.
  - simpl. lia.
  - split; [reflexivity | repeat constructor].
  - repeat constructor; unfold label_ok; lia.
Defined.

(** *** An empty validation set *)

Lemma validation_accuracy_empty `{Numpy} (h : store) (w : params) :
  (validation_accuracy h w [] [] <= 0)%Q.
Proof. unfold validation_accuracy, forward. cbn. discriminate. Qed.

(** X23.  With an empty validation set no epoch's accuracy exceeds the
    initial best of 0 (numpy's mean of no entries is not a number, and
    compares false), so the snapshot is never replaced: [train] returns
    the initial parameters, untouched by the updates of the epochs. *)
Theorem train_without_validation_returns_initial_params `{Numpy}
    (X_train : list (list Q)) (y_train : list Z) (epochs batch_size : Z)
    (lr0 lr_decay : Q) (seed : Z) (h : store) :
  0 < batch_size -> (0 < length X_train)%nat ->
  has_shape (length y_train) 8 X_train -> Forall label_ok y_train ->
  exists best h',
    train X_train y_train [] [] epochs batch_size lr0 lr_decay seed h
    = Ok (best, h') /\
    read_params h' best = initial_params seed.
Proof.
  intros Hbs Hn _ Hlab.
  assert (Hrun : forall k, exists st,
             train_run X_train y_train [] [] batch_size lr0 lr_decay seed h k
             = Ok st /\
             train_inv st /\ best_val_acc st = 0%Q /\
             read_params (heap st) (best_params st) = initial_params seed).
  { induction k as [|k IH].
    - destruct (train_init_spec lr0 seed h) as (Hinv & _ & Hacc & Hread).
      exists (train_init lr0 seed h). split; [reflexivity|].
      split; [exact Hinv|]. split; [exact Hacc|].
      rewrite Hread. apply train_init_values.
    - destruct IH as (st & Erun & Hinv & Hacc & Hread).
      destruct (train_epoch_spec X_train y_train [] [] batch_size lr_decay st
                  Hbs Hn Hlab Hinv) as (st' & Estep & Hinv' & _ & _ & Hle & Hold).
      exists st'. split; [cbn [train_run]; rewrite Erun; exact Estep|].
      split; [exact Hinv'|].
      destruct Hle as [Eacc Ebest].
      { rewrite Hacc. apply validation_accuracy_empty. }
      split; [congruence|].
      rewrite Ebest, <- Hread. apply read_params_ext.
      destruct Hinv as (_ & Hball & Hdisj).
      intros r Hr. apply Hold; [apply Hball, Hr | apply Hdisj, Hr]. }
  destruct (Hrun (Z.to_nat epochs)) as (st & Erun & _ & _ & Hread).
  exists (best_params st), (heap st). split; [|exact Hread].
  unfold train. rewrite Erun. reflexivity.
Qed.

Lemma train_without_validation_returns_initial_params_witness :
  exists best h',
    @train reference_numpy
      [[200; 30; 10; 5; 20; 40; 20; 50]; [50; 200; 40; 20; 60; 200; 60; 150];
       [30; 40; 200; 30; 120; 120; 120; 120]]%Q [0; 1; 2] [] []
      2 2 (1 # 100) (995 # 1000) 42 ∅
    = Ok (best, h') /\
    read_params h' best = @initial_params reference_numpy 42.
Proof.
  apply (@train_without_validation_returns_initial_params reference_numpy).
  - lia.
  - simpl. lia.
  - split; [reflexivity | repeat constructor].
  - repeat constructor; unfold label_ok; lia.
Defined.
(** ** Orchestration: runs that reach the artifact, and runs that cannot *)









(** The run after the data is loaded, on fewer than two samples. *)
Lemma pipeline_no_training_sample `{Numpy} (args : arguments)
    (X : list (list Q)) (y : list Z) :
  (length y <= 1)%nat -> 1 <= epochs args -> batch_size args <> 0 ->
  pipeline args X y = Raise ZeroDivisionError.
Proof.
  intros Hn He Hbs. unfold pipeline.
  assert (Hsplit : (4 * length y / 5 = 0)%nat)
    by (apply Nat.div_small; lia).
  rewrite Hsplit. cbn [firstn].
  unfold train.
  destruct (Z.to_nat (epochs args)) as [|k] eqn:Ek; [lia|].
  rewrite (train_run_raises [] [] _ _ (batch_size args) _ _ _ _ ZeroDivisionError);
    [reflexivity|].
  intros st. apply train_epoch_no_batch.
  destruct (Z.lt_trichotomy (batch_size args) 0) as [Hlt|[Heq|Hgt]];
    [left; exact Hlt | contradiction | right; split; [exact Hgt | reflexivity]].
Qed.

(** X25.  A dataset of fewer than two samples leaves the 80/20 split with
    no training sample: with at least one epoch and a batch size other than
    0 the run raises [ZeroDivisionError] and no artifact is written. *)
Theorem pipeline_needs_two_samples `{Numpy} (args : arguments)
    (X : list (list Q)) (y : list Z) :
  (length y <= 1)%nat -> 1 <= epochs args -> batch_size args <> 0 ->
  pipeline args X y = Raise ZeroDivisionError.
Proof. exact (pipeline_no_training_sample args X y). Qed.

Lemma pipeline_needs_two_samples_witness :
  @pipeline reference_numpy
    {| cwru_dir := None; epochs := 200; batch_size := 64; lr_arg := 1 # 100;
       samples := 500; seed := 42 |}
    [[200; 30; 10; 5; 20; 40; 20; 50]]%Q [0]
  = Raise ZeroDivisionError.
Proof.
  apply (@pipeline_needs_two_samples reference_numpy).
  - simpl. lia.
  - simpl. lia.
  - simpl. lia.
Defined.

(** *** The synthetic path *)

Lemma generate_synthetic_data_shape `{Numpy} (n : nat) (seed : Z) (p : process) :
  exists X y,
    generate_synthetic_data n seed p = ((X, y), p) /\
    has_shape (length y) 8 X /\ length y = (4 * n)%nat /\ Forall label_ok y.
Proof.
  unfold generate_synthetic_data.
  pose proof (draw_classes_spec [0; 1; 2; 3] n (RandomState seed)) as [HX Hy].
  destruct (draw_classes [0; 1; 2; 3] n (RandomState seed)) as [[X_all y_all] rng].
  cbn [fst snd] in HX, Hy. subst y_all.
  pose proof (permutation_perm
    (length (concat (map (fun c => repeat c n) [0; 1; 2; 3]))) rng) as Hp.
  destruct (permutation _ rng) as [idx rng'].
  cbn [fst snd] in *.
  set (y := concat (map (fun c => repeat c n) [0; 1; 2; 3])) in *.
  assert (Hpairs : Forall2 sample_in_class (concat X_all) y)
    by (apply (blocks_concat_Forall2 n), HX).
  assert (Hlen : length y = (4 * n)%nat).
  { unfold y. simpl. rewrite !length_app, !repeat_length. simpl. lia. }
  assert (Htake : Forall2 sample_in_class (np_take [] idx (concat X_all))
                          (np_take 0 idx y)).
  { apply np_take_Forall2; [exact Hpairs|].
    rewrite (Forall2_length _ _ _ Hpairs).
    apply List.Forall_forall. intros i Hi.
    eapply Permutation_in in Hi; [|exact Hp]. apply in_seq in Hi. lia. }
  eexists _, _. split; [reflexivity|]. split_and!.
  - split; [apply (Forall2_length _ _ _ Htake)|].
    eapply Forall2_left_Forall; [exact Htake|].
    intros row c Hs. eapply sample_in_class_bounds, Hs.
  - rewrite np_take_length, (Permutation_length Hp), length_seq. exact Hlen.
  - apply np_take_Forall; [unfold label_ok; lia|].
    unfold y. simpl. rewrite !Forall_app.
    split_and!; try (apply List.Forall_forall; intros l Hl;
                     apply repeat_spec in Hl; subst l; unfold label_ok; lia).
    constructor.
Qed.



(** X27.  Without [--cwru-dir] and with [--samples 0] the dataset is
    empty: with at least one epoch and a batch size other than 0, [main]
    raises [ZeroDivisionError], and the exit status is 1. *)
Theorem main_synthetic_without_samples `{Numpy} (args : arguments) (p : process) :
  cwru_dir args = None -> samples args = 0%nat ->
  1 <= epochs args -> batch_size args <> 0 ->
  main args p = (Raise ZeroDivisionError, p) /\
  exit_status (fst (main args p)) = 1.
Proof.
  intros Hd Hs He Hbs.
  assert (E : main args p = (Raise ZeroDivisionError, p));
    [|rewrite E; split; reflexivity].
  unfold main. rewrite Hd.
  destruct (generate_synthetic_data_shape (samples args) (seed args) p)
    as (X & y & -> & _ & Hlen & _).
  rewrite pipeline_no_training_sample; [reflexivity | lia | exact He | exact Hbs].
Qed.

Lemma main_synthetic_without_samples_witness :
  @main reference_numpy
    {| cwru_dir := None; epochs := 200; batch_size := 64; lr_arg := 1 # 100;
       samples := 0; seed := 42 |}
    (@Build_process reference_numpy 1 true ∅)
  = (Raise ZeroDivisionError, @Build_process reference_numpy 1 true ∅) /\
  exit_status (fst (@main reference_numpy
    {| cwru_dir := None; epochs := 200; batch_size := 64; lr_arg := 1 # 100;
       samples := 0; seed := 42 |}
    (@Build_process reference_numpy 1 true ∅))) = 1.
Proof.
  apply (@main_synthetic_without_samples reference_numpy).
  - reflexivity.
  - reflexivity.
  - simpl. lia.
  - simpl. lia.
Defined.

(** *** The real-signal path *)



(** ** Trainer: the sum of the output biases *)

Lemma np_sum_map_mult (c : Q) (l : list Q) :
  (np_sum (map (Qmult c) l) == c * np_sum l)%Q.
Proof.
  induction l as [|x l IH]; unfold np_sum in *; cbn [map fold_right]; [ring|].
  rewrite IH. ring.
Qed.

Lemma np_sum_imap_sub (a d : list Q) :
  (length d <= length a)%nat ->
  (np_sum (imap (fun j v => (v - nth j d 0)%Q) a) == np_sum a - np_sum d)%Q.
Proof.
  revert d. induction a as [|x a IH]; intros d Hd.
  - destruct d; [|simpl in Hd; lia]. cbn [imap]. change (np_sum []) with 0%Q. ring.
  - rewrite imap_cons. destruct d as [|y d].
    + assert (E : imap ((fun j v => (v - nth j [] 0)%Q) ∘ S) a
                  = imap (fun j v => (v - nth j [] 0)%Q) a).
      { apply imap_ext. intros j v _. cbn [compose]. destruct j; reflexivity. }
      rewrite E.
      change (np_sum (?u :: ?l)) with (u + np_sum l)%Q.
      rewrite (IH [] ltac:(simpl; lia)). cbn [nth].
      change (np_sum []) with 0%Q. ring.
    + change (imap ((fun j v => (v - nth j (y :: d) 0)%Q) ∘ S) a)
        with (imap (fun j v => (v - nth j d 0)%Q) a).
      change (np_sum (?u :: ?l)) with (u + np_sum l)%Q.
      rewrite (IH d ltac:(simpl in Hd; lia)). cbn [nth].
      change (np_sum (y :: d)) with (y + np_sum d)%Q. ring.
Qed.

(** [a -= d] lowers the sum of [a] by the sum of [d]. *)
Lemma np_sum_vec_isub (a d : list Q) :
  (length d <= length a)%nat ->
  (np_sum (vec_isub a d) == np_sum a - np_sum d)%Q.
Proof. apply np_sum_imap_sub. Qed.

Lemma sum_axis0_length_le (n C : nat) (M : list (list Q)) :
  has_shape n C M -> (length (sum_axis0 M) <= C)%nat.
Proof.
  intros HS. destruct M as [|r M]; [simpl; lia|].
  rewrite (sum_axis0_length n C (r :: M) HS) by (destruct HS as [<- _]; simpl; lia).
  lia.
Qed.

Lemma softmax_rows_sum `{Numpy} (n C : nat) (z : list (list Q)) :
  (forall x, (0 < np_exp x)%Q) -> (0 < C)%nat -> has_shape n C (softmax z) ->
  Forall (fun row => (np_sum row == 1)%Q) (softmax z).
Proof.
  intros Hexp HC [_ Hrows]. rewrite softmax_rows in *.
  apply List.Forall_forall. intros row Hrow.
  rewrite List.Forall_forall in Hrows. specialize (Hrows row Hrow).
  apply in_map_iff in Hrow. destruct Hrow as (zr & <- & _).
  apply softmax_row_distribution; [exact Hexp|].
  intros ->. cbn in Hrows. lia.
Qed.

(** One batch keeps the sum of [b2]. *)
Lemma sgd_batch_bias_sum `{Numpy} (w : params) (lr : Q) (Xb : list (list Q))
    (yb : list Z) (h h' : store) :
  (forall x, (0 < np_exp x)%Q) ->
  wf_params h w -> sgd_batch w lr Xb yb h = Ok h' ->
  (np_sum (read_vec h' (rb2 w)) == np_sum (read_vec h (rb2 w)))%Q.
Proof.
  intros Hexp
    (Hnd & (W1 & E1 & S1) & (b1 & E2 & S2) & (W2 & E3 & S3) & (b2 & E4 & S4)).
  unfold sgd_batch. unfold read_mat at 1 2 3, read_vec at 1 2.
  rewrite E1, E2, E3, E4.
  pose proof (forward_probs_shape Xb W1 b1 W2 b2 S3 S4) as Hp.
  assert (Hsm : Forall (fun row => (np_sum row == 1)%Q)
                       (snd (forward Xb W1 b1 W2 b2))).
  { unfold forward in *. cbn [snd] in *.
    apply (softmax_rows_sum (length Xb) 4); [exact Hexp | lia | exact Hp]. }
  destruct (forward Xb W1 b1 W2 b2) as [[[z1 h1] z2] probs]. cbn [snd] in Hp, Hsm.
  destruct (backward Xb z1 h1 probs yb W2) as [[[[dW1 db1] dW2] db2]|e] eqn:EB;
    [|discriminate].
  cbn [bind]. intros [= <-].
  destruct (backward_db2 _ _ _ _ _ _ _ _ _ _ EB) as (dz & Hlen & Edz & Edb).
  pose proof (fancy_decrement_row_sums probs yb dz
                ltac:(rewrite Hlen; symmetry; apply Hp) Edz) as HF.
  assert (Hzero : (np_sum db2 == 0)%Q).
  { rewrite Edb. apply (decremented_rows_sum _ (length Xb) 4 probs dz Hp Hsm HF). }
  assert (Hdl : (length db2 <= 4)%nat).
  { rewrite Edb. apply (sum_axis0_length_le (length Xb)).
    apply has_shape_map_map. destruct Hp as [Hp1 Hp2]. split.
    - rewrite <- (Forall2_length _ _ _ HF). exact Hp1.
    - clear -HF Hp2. induction HF as [|r d rows dz [Hd _] _ IH]; [constructor|].
      apply Forall_cons_1 in Hp2 as [Hr Hp2].
      constructor; [congruence | apply IH, Hp2]. }
  apply NoDup_cons in Hnd as [N1 Hnd]. apply NoDup_cons in Hnd as [N2 Hnd].
  apply NoDup_cons in Hnd as [N3 _].
  rewrite !list_elem_of_In in N1, N2, N3. simpl in N1, N2, N3.
  unfold read_vec.
  rewrite (isub_lookup_vec _ _ b2 (map (Qmult lr) db2)), E4.
  - rewrite np_sum_vec_isub by (rewrite length_map, S4; exact Hdl).
    rewrite np_sum_map_mult, Hzero. ring.
  - rewrite !isub_lookup_ne by (intuition congruence). exact E4.
Qed.

(** The loop over the batches of one epoch keeps the sum of [b2]. *)
Lemma sgd_batches_bias_sum `{Numpy} (w : params) (lr : Q)
    (X_shuf : list (list Q)) (y_shuf : list Z) (bs : Z) (n_train : nat)
    (starts : list nat) (h h' : store) :
  (forall x, (0 < np_exp x)%Q) ->
  wf_params h w -> length y_shuf = length X_shuf -> Forall label_ok y_shuf ->
  fold_left
    (fun acc start =>
       let* h := acc in
       sgd_batch w lr
         (slice start (Nat.min (start + Z.to_nat bs) n_train) X_shuf)
         (slice start (Nat.min (start + Z.to_nat bs) n_train) y_shuf) h)
    starts (Ok h) = Ok h' ->
  wf_params h' w /\
  (np_sum (read_vec h' (rb2 w)) == np_sum (read_vec h (rb2 w)))%Q.
Proof.
  intros Hexp Hwf Hlen Hlab. revert h Hwf.
  induction starts as [|start starts IH]; intros h Hwf E.
  - cbn [fold_left] in E. injection E as <-. split; [exact Hwf | reflexivity].
  - match type of E with context [fold_left ?f _ _] => set (step := f) in * end.
    destruct (sgd_batch_spec w lr
                (slice start (Nat.min (start + Z.to_nat bs) n_train) X_shuf)
                (slice start (Nat.min (start + Z.to_nat bs) n_train) y_shuf) h Hwf
                (slice_length_eq _ _ _ _ Hlen) (slice_Forall _ _ _ _ Hlab))
      as (h1 & E1 & Hwf1 & _).
    change (fold_left step (start :: starts) (Ok h))
      with (fold_left step starts (step (Ok h) start)) in E.
    assert (Es : step (Ok h) start = Ok h1) by (unfold step; cbn [bind]; exact E1).
    rewrite Es in E. destruct (IH h1 Hwf1 E) as [Hwf' Hs].
    split; [exact Hwf'|]. rewrite Hs.
    apply (sgd_batch_bias_sum w lr _ _ h h1 Hexp Hwf E1).
Qed.

(** One epoch keeps the sum of the working [b2]. *)
Lemma train_epoch_bias_sum `{Numpy} (X_train : list (list Q)) (y_train : list Z)
    (X_val : list (list Q)) (y_val : list Z) (batch_size : Z) (lr_decay : Q)
    (st st' : train_state) :
  (forall x, (0 < np_exp x)%Q) ->
  Forall label_ok y_train -> train_inv st ->
  train_epoch X_train y_train X_val y_val batch_size lr_decay st = Ok st' ->
  (np_sum (read_vec (heap st') (rb2 (working st')))
   == np_sum (read_vec (heap st) (rb2 (working st))))%Q.
Proof.
  intros Hexp Hlab (Hwf & _ & _). unfold train_epoch.
  destruct (permutation (length X_train) (rng st)) as [perm rng'].
  destruct (py_range_step (length X_train) batch_size) as [starts|e];
    [|discriminate].
  rewrite bind_Ok. cbv beta iota zeta.
  destruct (fold_left _ starts (Ok (heap st))) as [h1|e] eqn:Ef; [|discriminate].
  rewrite bind_Ok. cbv beta.
  destruct (sgd_batches_bias_sum (working st) (lr st)
              (np_take [] perm X_train) (np_take 0 perm y_train)
              batch_size (length X_train) starts (heap st) h1 Hexp Hwf)
    as [Hwf1 Hs].
  { rewrite !np_take_length. reflexivity. }
  { apply np_take_Forall; [unfold label_ok; lia | exact Hlab]. }
  { exact Ef. }
  destruct (length starts =? 0)%nat; [discriminate|].
  destruct (Qgt_bool _ _).
  - destruct (copy_params h1 (working st)) as [best h2] eqn:EC.
    pose proof (wf_params_allocated _ _ Hwf1) as Hall1.
    destruct (copy_params_spec h1 (working st) best h2 Hall1 EC)
      as (Hfresh & _ & P2 & _).
    intros [= <-]. cbn [heap working]. rewrite <- Hs.
    unfold read_vec. rewrite P2; [reflexivity|].
    intros Hb. apply (Hall1 (rb2 (working st))); [simpl; auto|].
    apply Hfresh, Hb.
  - intros [= <-]. cbn [heap working]. exact Hs.
Qed.

Lemma initial_params_bias `{Numpy} (seed : Z) :
  snd (initial_params seed) = repeat 0%Q 4.
Proof.
  unfold initial_params.
  destruct (randn 16 8 (RandomState seed)) as [w1 rng1].
  destruct (randn 4 16 rng1) as [w2 rng2]. reflexivity.
Qed.

(** X29.  With a positive exponential, training keeps the sum of the
    output biases: every batch's update subtracts a gradient that adds up to
    zero, so the [b2] returned by [train] adds up to zero, as the zero
    vector it starts from, after any number of epochs. *)
Theorem train_keeps_output_bias_sum `{Numpy} (X_train : list (list Q))
    (y_train : list Z) (X_val : list (list Q)) (y_val : list Z)
    (epochs batch_size : Z) (lr0 lr_decay : Q) (seed : Z) (h : store) :
  (forall x, (0 < np_exp x)%Q) ->
  0 < batch_size -> (0 < length X_train)%nat ->
  has_shape (length y_train) 8 X_train -> Forall label_ok y_train ->
  exists best h' W1 b1 W2 b2,
    train X_train y_train X_val y_val epochs batch_size lr0 lr_decay seed h
    = Ok (best, h') /\
    read_params h' best = (W1, b1, W2, b2) /\
    (np_sum b2 == 0)%Q.
Proof.
  intros Hexp Hbs Hn _ Hlab.
  assert (Hrun : forall k st,
             run X_train y_train X_val y_val batch_size lr0 lr_decay seed h k
             = Ok st ->
             (np_sum (read_vec (heap st) (rb2 (working st))) == 0)%Q).
  { induction k as [|k IH]; intros st E.
    - unfold run in E. cbn [train_run] in E. injection E as <-.
      pose proof (train_init_values lr0 seed h) as Ev.
      apply (f_equal snd) in Ev. rewrite initial_params_bias in Ev.
      unfold read_params in Ev. cbn [snd] in Ev. rewrite Ev. reflexivity.
    - destruct (run_spec X_train y_train X_val y_val batch_size lr0 lr_decay
                  seed h Hbs Hn Hlab k) as (sk & Ek & Hinv & _).
      unfold run in E, Ek. cbn [train_run] in E. rewrite Ek, bind_Ok in E.
      rewrite (train_epoch_bias_sum _ _ _ _ _ _ sk st Hexp Hlab Hinv E).
      apply IH. exact Ek. }
  destruct (run_spec X_train y_train X_val y_val batch_size lr0 lr_decay seed h
              Hbs Hn Hlab (Z.to_nat epochs))
    as (st & Erun & _ & _ & j & sj & _ & Ej & Hread & _).
  exists (best_params st), (heap st). eexists _, _, _, _.
  split; [unfold train; unfold run in Erun; rewrite Erun; reflexivity|].
  split; [reflexivity|].
  apply (f_equal snd) in Hread. unfold read_params in Hread. cbn [snd] in Hread.
  rewrite Hread. apply (Hrun j sj Ej).
Qed.

Lemma train_keeps_output_bias_sum_witness :
  exists best h' W1 b1 W2 b2,
    @train reference_numpy
      [[200; 30; 10; 5; 20; 40; 20; 50]; [50; 200; 40; 20; 60; 200; 60; 150];
       [30; 40; 200; 30; 120; 120; 120; 120]]%Q [0; 1; 2]
      [[210; 40; 20; 10; 30; 50; 30; 60]]%Q [0]
      2 2 (1 # 100) (995 # 1000) 42 ∅
    = Ok (best, h') /\
    read_params h' best = (W1, b1, W2, b2) /\
    (np_sum b2 == 0)%Q.
Proof.
  apply (@train_keeps_output_bias_sum reference_numpy).
  - exact reference_exp_pos.
  - lia.
  - simpl. lia.
  - split; [reflexivity | repeat constructor].
  - repeat constructor; unfold label_ok; lia.
Defined.
(** ** Trainer: a label outside the class range *)

(** A batch with labels in [-4, 4) is a batch with the labels taken modulo
    4; a batch with a label outside raises [IndexError]. *)
Lemma sgd_batch_outcome `{Numpy} (w : params) (lr : Q) (Xb : list (list Q))
    (yb : list Z) (h : store) :
  wf_params h w -> length yb = length Xb ->
  (Forall (fun l => -4 <= l < 4) yb ->
   exists h', sgd_batch w lr Xb yb h = Ok h' /\ wf_params h' w) /\
  (Exists (fun l => l < -4 \/ 4 <= l) yb ->
   sgd_batch w lr Xb yb h = Raise IndexError).
Proof.
  intros Hwf Hlen.
  pose proof Hwf as
    (Hnd & (W1 & E1 & S1) & (b1 & E2 & S2) & (W2 & E3 & S3) & (b2 & E4 & S4)).
  pose proof (forward_probs_shape Xb W1 b1 W2 b2 S3 S4) as Hp.
  split.
  - intros Hl.
    destruct (sgd_batch_spec w lr Xb (map (fun l => l mod 4) yb) h Hwf)
      as (h' & E & Hwf' & _).
    { rewrite length_map. exact Hlen. }
    { apply List.Forall_forall. intros l Hin. apply in_map_iff in Hin.
      destruct Hin as (l0 & <- & _). unfold label_ok.
      apply Z.mod_pos_bound. lia. }
    exists h'. split; [|exact Hwf']. rewrite <- E.
    unfold sgd_batch, read_mat, read_vec. rewrite E1, E2, E3, E4.
    destruct (forward Xb W1 b1 W2 b2) as [[[z1 h1] z2] probs]. cbn [snd] in Hp.
    unfold backward. rewrite length_map.
    destruct (negb _); [reflexivity|].
    rewrite (fancy_decrement_wrap 4 probs yb (proj2 Hp) Hl). reflexivity.
  - intros Hex.
    unfold sgd_batch, read_mat, read_vec. rewrite E1, E2, E3, E4.
    destruct (forward Xb W1 b1 W2 b2) as [[[z1 h1] z2] probs]. cbn [snd] in Hp.
    unfold backward. rewrite Hlen, Nat.eqb_refl. cbn [negb].
    rewrite (fancy_decrement_raises 4 probs yb); [reflexivity | | exact Hex].
    rewrite Hlen. exact Hp.
Qed.

Lemma fold_bind_raise {A S : Type} (f : S -> A -> result S) (l : list A)
    (e : exception) :
  fold_left (fun acc a => let* s := acc in f s a) l (Raise e) = Raise e.
Proof. induction l as [|a l IH]; [reflexivity | exact IH]. Qed.

Lemma labels_in_range_or_not (yb : list Z) :
  Forall (fun l => -4 <= l < 4) yb \/ Exists (fun l => l < -4 \/ 4 <= l) yb.
Proof.
  induction yb as [|l yb [IH|IH]].
  - left. constructor.
  - destruct (Z_lt_dec l (-4)) as [Hlo|Hlo];
      [right; apply Exists_cons_hd; lia|].
    destruct (Z_le_dec 4 l) as [Hhi|Hhi];
      [right; apply Exists_cons_hd; lia|].
    left. constructor; [lia | exact IH].
  - right. apply Exists_cons_tl, IH.
Qed.

(** The loop over the batches raises [IndexError] when a batch holds a
    label outside [-4, 4). *)
Lemma sgd_batches_raise `{Numpy} (w : params) (lr : Q) (X_shuf : list (list Q))
    (y_shuf : list Z) (bs : Z) (n_train : nat) (starts : list nat) (h : store) :
  wf_params h w -> length y_shuf = length X_shuf ->
  Exists (fun start =>
            Exists (fun l => l < -4 \/ 4 <= l)
                   (slice start (Nat.min (start + Z.to_nat bs) n_train) y_shuf))
         starts ->
  fold_left
    (fun acc start =>
       let* h := acc in
       sgd_batch w lr
         (slice start (Nat.min (start + Z.to_nat bs) n_train) X_shuf)
         (slice start (Nat.min (start + Z.to_nat bs) n_train) y_shuf) h)
    starts (Ok h) = Raise IndexError.
Proof.
  intros Hwf Hlen Hex. revert h Hwf.
  induction starts as [|start starts IH]; intros h Hwf; [inversion Hex|].
  match goal with |- context [fold_left ?f _ _] => set (step := f) in * end.
  change (fold_left step (start :: starts) (Ok h))
    with (fold_left step starts (step (Ok h) start)).
  destruct (sgd_batch_outcome w lr
              (slice start (Nat.min (start + Z.to_nat bs) n_train) X_shuf)
              (slice start (Nat.min (start + Z.to_nat bs) n_train) y_shuf) h Hwf
              (slice_length_eq _ _ _ _ Hlen)) as [Hgood Hbad].
  destruct (labels_in_range_or_not
              (slice start (Nat.min (start + Z.to_nat bs) n_train) y_shuf))
    as [Hin|Hout].
  - destruct (Hgood Hin) as (h1 & E1 & Hwf1).
    assert (Es : step (Ok h) start = Ok h1) by (unfold step; cbn [bind]; exact E1).
    rewrite Es. apply IH; [|exact Hwf1].
    apply Exists_cons in Hex as [Hhd|Htl]; [|exact Htl].
    exfalso. rewrite List.Forall_forall in Hin.
    apply List.Exists_exists in Hhd as (l & Hl & Hb). specialize (Hin l Hl). lia.
  - assert (Es : step (Ok h) start = Raise IndexError)
      by (unfold step; cbn [bind]; exact (Hbad Hout)).
    rewrite Es. apply fold_bind_raise.
Qed.

(** The batches cover the shuffled training set. *)
Lemma batches_cover {A : Type} (P : A -> Prop) (l : list A) (bs : Z)
    (starts : list nat) :
  0 < bs -> py_range_step (length l) bs = Ok starts ->
  Exists P l ->
  Exists (fun start =>
            Exists P (slice start (Nat.min (start + Z.to_nat bs) (length l)) l))
         starts.
Proof.
  intros Hbs. unfold py_range_step.
  destruct (Z.eqb_spec bs 0); [lia|]. destruct (Z.ltb_spec bs 0); [lia|].
  intros [= <-] Hex.
  set (s := Z.to_nat bs). assert (Hs : (0 < s)%nat) by (unfold s; lia).
  apply List.Exists_exists in Hex as (x & Hx & HP).
  apply (In_nth _ _ x) in Hx as (i & Hi & Ei).
  apply List.Exists_exists. exists ((i / s) * s)%nat.
  pose proof (Nat.div_mod_eq i s) as Hdm.
  pose proof (Nat.mod_upper_bound i s ltac:(lia)) as Hmod.
  split.
  - apply in_map_iff. exists (i / s)%nat. split; [reflexivity|].
    apply in_seq. split; [lia|]. cbn [Nat.add].
    apply Nat.Div0.div_lt_upper_bound.
    assert (Hq : (length l <= s * ((length l + s - 1) / s))%nat).
    { pose proof (Nat.div_mod_eq (length l + s - 1) s) as Hd2.
      pose proof (Nat.mod_upper_bound (length l + s - 1) s ltac:(lia)) as Hm2.
      lia. }
    lia.
  - apply List.Exists_exists. exists x. split; [|exact HP].
    unfold slice.
    set (start := (i / s * s)%nat) in *.
    set (m := (Nat.min (start + s) (length l) - start)%nat).
    assert (Hm : (i - start < m)%nat) by (unfold m; lia).
    assert (E : nth (i - start) (firstn m (skipn start l)) x = nth i l x).
    { rewrite nth_firstn. destruct (Nat.ltb_spec (i - start) m); [|lia].
      rewrite nth_skipn. f_equal. lia. }
    rewrite <- Ei, <- E. apply nth_In.
    rewrite length_firstn, length_skipn. lia.
Qed.

(** The first epoch on a training set with a label outside [-4, 4). *)
Lemma train_epoch_raises `{Numpy} (X_train : list (list Q)) (y_train : list Z)
    (X_val : list (list Q)) (y_val : list Z) (batch_size : Z) (lr_decay : Q)
    (st : train_state) :
  0 < batch_size -> length y_train = length X_train ->
  Exists (fun l => l < -4 \/ 4 <= l) y_train ->
  train_inv st ->
  train_epoch X_train y_train X_val y_val batch_size lr_decay st
  = Raise IndexError.
Proof.
  intros Hbs Hlen Hex (Hwf & _).
  unfold train_epoch.
  pose proof (permutation_perm (length X_train) (rng st)) as Hperm.
  destruct (permutation (length X_train) (rng st)) as [perm rng'].
  cbn [fst] in Hperm.
  destruct (py_range_step (length X_train) batch_size) as [starts|e] eqn:Er.
  2:{ exfalso. revert Er. unfold py_range_step.
      destruct (Z.eqb_spec batch_size 0); [lia|].
      destruct (Z.ltb_spec batch_size 0); [lia | discriminate]. }
  rewrite bind_Ok. cbv beta iota zeta.
  assert (Hly : length (np_take 0 perm y_train) = length X_train).
  { rewrite np_take_length, (Permutation_length Hperm), length_seq. reflexivity. }
  rewrite (sgd_batches_raise (working st) (lr st) (np_take [] perm X_train)
             (np_take 0 perm y_train) batch_size (length X_train) starts
             (heap st) Hwf); [reflexivity | rewrite !np_take_length; reflexivity |].
  pose proof (batches_cover (fun l => l < -4 \/ 4 <= l) (np_take 0 perm y_train)
                batch_size starts Hbs) as HC.
  rewrite Hly in HC. apply HC; [exact Er|].
  rewrite <- Hlen in Hperm.
  pose proof (np_take_permutation 0 perm y_train Hperm) as Hp.
  apply List.Exists_exists in Hex as (l & Hl & Hb).
  apply List.Exists_exists. exists l. split; [|exact Hb].
  eapply Permutation_in; [symmetry; exact Hp | exact Hl].
Qed.

(** X30.  With at least one epoch and a positive batch size, [train]
    raises [IndexError] when a label of the training set lies outside
    [-4, 4): the first epoch does not complete and nothing is returned. *)
Theorem train_rejects_label_out_of_range `{Numpy} (X_train : list (list Q))
    (y_train : list Z) (X_val : list (list Q)) (y_val : list Z)
    (epochs batch_size : Z) (lr0 lr_decay : Q) (seed : Z) (h : store) :
  1 <= epochs -> 0 < batch_size ->
  has_shape (length y_train) 8 X_train ->
  Exists (fun l => l < -4 \/ 4 <= l) y_train ->
  train X_train y_train X_val y_val epochs batch_size lr0 lr_decay seed h
  = Raise IndexError.
Proof.
  intros He Hbs [Hlen _] Hex. unfold train.
  destruct (Z.to_nat epochs) as [|k] eqn:Ek; [lia|].
  assert (Hrun : train_run X_train y_train X_val y_val batch_size lr0 lr_decay
                           seed h (S k) = Raise IndexError).
  { clear Ek. induction k as [|k IH].
    - cbn [train_run bind].
      apply train_epoch_raises;
        [exact Hbs | symmetry; exact Hlen | exact Hex |].
      apply train_init_spec.
    - change (train_run X_train y_train X_val y_val batch_size lr0 lr_decay seed h
                        (S (S k)))
        with (let* st := train_run X_train y_train X_val y_val batch_size lr0
                                   lr_decay seed h (S k) in
              train_epoch X_train y_train X_val y_val batch_size lr_decay st).
      rewrite IH. reflexivity. }
  rewrite Hrun. reflexivity.
Qed.

Lemma train_rejects_label_out_of_range_witness :
  @train reference_numpy
    [[200; 30; 10; 5; 20; 40; 20; 50]; [50; 200; 40; 20; 60; 200; 60; 150];
     [30; 40; 200; 30; 120; 120; 120; 120]]%Q [0; 4; 2]
    [[210; 40; 20; 10; 30; 50; 30; 60]]%Q [0]
    2 2 (1 # 100) (995 # 1000) 42 ∅
  = Raise IndexError.
Proof.
  apply (@train_rejects_label_out_of_range reference_numpy).
  - lia.
  - lia.
  - split; [reflexivity | repeat constructor].
  - apply Exists_cons_tl, Exists_cons_hd. right. lia.
Defined.
